(** * Curve-analysis routines of the Quantum ESPRESSO example scripts

    A shallow embedding of the analysis functions found in
    [docs/examples/qe_*.py] together with the properties stated for them.

    Numbers.  The scripts compute with numpy's [float64].  In the modules
    [np] and [qe_*] finite values are exact rationals ([Q], compared with
    [==]) and the only non-finite values are the results of a division by
    zero, which numpy evaluates to [nan] or [inf] (with a warning, not an
    exception).  Comparisons, extremum searches, slices, shapes, control
    flow and the expressions evaluated are those of the code; sums,
    products and quotients are the unrounded ones.  A statement about
    the value of a sum or of a quotient is therefore a statement in exact
    arithmetic; the other statements say which entries are compared,
    which terms are summed and which quotient is returned, and hold of
    the rounded computation as well.

    The arithmetic of the analyzers is also written over an arbitrary
    number type ([anynum]): [exact] is the instance at [Q], [binary64]
    the instance at IEEE 754 binary64 on Rocq's primitive floats, where
    the float64 computation can be evaluated on a given curve.

    Effects.  [print] appends to a standard output kept in the world; an
    uncaught Python exception is the [Raise] result. *)

From Stdlib Require Import String.
From Stdlib Require Import ZArith QArith Qabs List Bool Arith Lia Lqa.
From Stdlib Require PrimFloat SpecFloat FloatAxioms.
Import ListNotations.

Set Warnings "-inexact-float".

Open Scope Q_scope.

(** ** Python values, exceptions and the effect monad *)

Module Py.

(** The exceptions the scripts can meet. *)
Inductive exn : Type :=
| ValueError          (* empty reduction, unparsable text, bad shapes *)
| IndexError          (* index out of range, too many indices *)
| FileNotFoundError   (* np.loadtxt on an absent path *)
| AttributeError      (* attribute of None *)
| TypeError.          (* unpacking None *)

Inductive result (A : Type) : Type :=
| Ok (a : A)
| Raise (e : exn).
Arguments Ok {A} a.
Arguments Raise {A} e.

(** A value of type float: a finite one, or the outcome of x / 0. *)
Inductive scalar : Type :=
| Finite (q : Q)
| NonFinite.

(** One printed line: literal text, text around a formatted number
    ([f"...{v:.3f}..."]; the digits are kept, not rendered), or text
    followed by the message of an exception ([f"...{e}"]). *)
Inductive line : Type :=
| Text (s : string)
| Fmt (before : string) (v : scalar) (digits : nat) (after : string)
| FmtExn (before : string) (e : exn).

(** A 2-D array: its number of columns and its rows.  The number of
    columns is part of the shape, so that an array without rows still
    has columns, as [np.empty((0, 21))] has. *)
Record ndarray2 : Type :=
  mk_array2 { ncols : nat; rows : list (list Q) }.

Inductive ndarray : Type :=
| Array1 (v : list Q)        (* a one-row or one-column file *)
| Array2 (a : ndarray2).

(** The outcome of [np.loadtxt] at a path. *)
Inductive file : Type :=
| Absent                     (* no such file *)
| Unparsable                 (* present, rejected by the parser *)
| Table (data : ndarray).

Record world : Type := mk_world {
  files : string -> file;
  stdout : list line
}.

Definition M (A : Type) : Type := world -> result A * world.

Definition ret {A} (a : A) : M A := fun w => (Ok a, w).

Definition bind {A B} (m : M A) (k : A -> M B) : M B :=
  fun w => match m w with
           | (Ok a, w') => k a w'
           | (Raise e, w') => (Raise e, w')
           end.

Definition raise {A} (e : exn) : M A := fun w => (Raise e, w).

(** Sequencing of pure computations that may raise. *)
Definition rbind {A B} (r : result A) (k : A -> result B) : result B :=
  match r with
  | Ok a => k a
  | Raise e => Raise e
  end.

Definition lift {A} (r : result A) : M A := fun w => (r, w).

Definition print (l : line) : M unit :=
  fun w => (Ok tt, {| files := files w; stdout := stdout w ++ [l] |}).

(** [try: body except: handler] with a bare [except]. *)
Definition try_except {A} (body : M A) (handler : M A) : M A :=
  fun w => match body w with
           | (Ok a, w') => (Ok a, w')
           | (Raise _, w') => handler w'
           end.

(** [try: body except FileNotFoundError: h1 except Exception as e: h2]. *)
Definition try_except2 {A} (body : M A) (h1 : M A) (h2 : exn -> M A) : M A :=
  fun w => match body w with
           | (Ok a, w') => (Ok a, w')
           | (Raise FileNotFoundError, w') => h1 w'
           | (Raise e, w') => h2 e w'
           end.

End Py.
Import Py.

Notation "x <- m ;; k" := (bind m (fun x => k))
  (at level 61, m at next level, right associativity).
Notation "m ;;; k" := (bind m (fun _ => k))
  (at level 61, right associativity).
Notation "x <~ r ;; k" := (rbind r (fun x => k))
  (at level 61, r at next level, right associativity).

(** ** The numpy operations the scripts call *)

Module np.

(** [np.maximum] and [np.minimum] on two finite values. *)
Definition maximum (a b : Q) : Q := if Qle_bool a b then b else a.
Definition minimum (a b : Q) : Q := if Qle_bool a b then a else b.

(** Reductions of a flat array; numpy refuses the empty one:
    "zero-size array to reduction operation maximum which has no identity". *)
Definition max1 (l : list Q) : result Q :=
  match l with
  | [] => Raise ValueError
  | a :: r => Ok (fold_left maximum r a)
  end.

Definition min1 (l : list Q) : result Q :=
  match l with
  | [] => Raise ValueError
  | a :: r => Ok (fold_left minimum r a)
  end.

(** [np.argmax] and [np.argmin]: the index of the first occurrence of the
    extremum; [candidate] is replaced only by a strictly better entry. *)
Fixpoint argmax_from (best : Q) (candidate i : nat) (l : list Q) : nat :=
  match l with
  | [] => candidate
  | a :: r => if Qle_bool a best
              then argmax_from best candidate (S i) r
              else argmax_from a i (S i) r
  end.

Definition argmax (l : list Q) : result nat :=
  match l with
  | [] => Raise ValueError
  | a :: r => Ok (argmax_from a 0%nat 1%nat r)
  end.

Fixpoint argmin_from (best : Q) (candidate i : nat) (l : list Q) : nat :=
  match l with
  | [] => candidate
  | a :: r => if Qle_bool best a
              then argmin_from best candidate (S i) r
              else argmin_from a i (S i) r
  end.

Definition argmin (l : list Q) : result nat :=
  match l with
  | [] => Raise ValueError
  | a :: r => Ok (argmin_from a 0%nat 1%nat r)
  end.

Definition abs (l : list Q) : list Q := map Qabs l.

(** [ndarray.sum] of a 1-D array, unrounded: every bracketing of the
    additions gives the same rational up to [==]. *)
Definition sum (l : list Q) : Q := fold_left Qplus l 0.

(** [a / b] on float64 scalars: a zero divisor gives nan or inf.  The
    divisor tested is the unrounded one: where the code divides by a sum
    that rounding has moved onto or off zero, the float64 quotient is of
    the other kind. *)
Definition true_divide (a b : Q) : scalar :=
  if Qeq_bool b 0 then NonFinite else Finite (a / b).

Fixpoint zip_with (f : Q -> Q -> Q) (a b : list Q) : list Q :=
  match a, b with
  | x :: a', y :: b' => f x y :: zip_with f a' b'
  | _, _ => []
  end.

(** A binary operator on 1-D arrays, with numpy's broadcasting: equal
    lengths pair up, a length-1 operand is stretched, anything else is
    "operands could not be broadcast together". *)
Definition broadcast1 (f : Q -> Q -> Q) (a b : list Q) : result (list Q) :=
  if (length a =? length b)%nat then Ok (zip_with f a b)
  else match a, b with
       | [x], _ => Ok (map (f x) b)
       | _, [y] => Ok (map (fun x => f x y) a)
       | _, _ => Raise ValueError
       end.

(** [np.diff(x)] is [x[1:] - x[:-1]]. *)
Definition diff (x : list Q) : list Q :=
  zip_with Qminus (tl x) (removelast x).

(** [np.trapz(y, x)] for 1-D arguments, as numpy writes it:
    [d = diff(x); (d * (y[1:] + y[:-1]) / 2.0).sum()], unrounded. *)
Definition trapz (y x : list Q) : result Q :=
  let d := diff x in
  p <~ broadcast1 Qmult d (zip_with Qplus (tl y) (removelast y)) ;;
  Ok (sum (map (fun t => t / 2) p)).

(** Indexing with a non-negative integer. *)
Definition item (l : list Q) (i : nat) : result Q :=
  match nth_error l i with
  | Some v => Ok v
  | None => Raise IndexError
  end.

(** A 2-D array is reduced over all its entries, in row-major order. *)
Definition ravel (a : ndarray2) : list Q := concat (rows a).
Definition size (a : ndarray2) : nat := length (ravel a).
Definition max (a : ndarray2) : result Q := max1 (ravel a).
Definition min (a : ndarray2) : result Q := min1 (ravel a).

(** [np.mean] of all entries: nan (and a warning) on an empty array. *)
Definition mean (a : ndarray2) : scalar :=
  true_divide (sum (ravel a)) (inject_Z (Z.of_nat (size a))).

Definition abs2 (a : ndarray2) : ndarray2 :=
  {| ncols := ncols a; rows := map abs (rows a) |}.

(** [a[:, :k]] and [a[:, k:]]: slices clip, they never raise. *)
Definition cols_upto (k : nat) (a : ndarray2) : ndarray2 :=
  {| ncols := Nat.min k (ncols a); rows := map (firstn k) (rows a) |}.
Definition cols_from (k : nat) (a : ndarray2) : ndarray2 :=
  {| ncols := ncols a - k; rows := map (skipn k) (rows a) |}.

(** Broadcasting of two 2-D shapes, one axis at a time. *)
Definition broadcast_dim (m n : nat) : option nat :=
  if (m =? n)%nat then Some m
  else if (m =? 1)%nat then Some n
  else if (n =? 1)%nat then Some m
  else None.

(** The index read on an axis of extent [n] for the output index [i]. *)
Definition bidx (n i : nat) : nat := if (n =? 1)%nat then 0%nat else i.

Definition get (a : ndarray2) (i j : nat) : Q := nth j (nth i (rows a) []) 0.

Definition nrows (a : ndarray2) : nat := length (rows a).

(** [a - b] on 2-D arrays. *)
Definition subtract (a b : ndarray2) : result ndarray2 :=
  match broadcast_dim (nrows a) (nrows b), broadcast_dim (ncols a) (ncols b) with
  | Some R, Some C =>
      Ok {| ncols := C;
            rows := map (fun i =>
                      map (fun j => get a (bidx (nrows a) i) (bidx (ncols a) j)
                                    - get b (bidx (nrows b) i) (bidx (ncols b) j))
                          (seq 0 C))
                      (seq 0 R) |}
  | _, _ => Raise ValueError
  end.

(** [np.loadtxt(fname)]: the outcome the world holds for the path.
    numpy squeezes the axes of length one out of what it has parsed, so
    the tables it returns as 2-D are the [loadtxt_shaped] ones below. *)
Definition loadtxt (fname : string) : M ndarray :=
  fun w => match files w fname with
           | Absent => (Raise FileNotFoundError, w)
           | Unparsable => (Raise ValueError, w)
           | Table d => (Ok d, w)
           end.

(** [data[:, j]] and [data[:, k:]]; a 1-D array has too many indices. *)
Definition column (data : ndarray) (j : nat) : result (list Q) :=
  match data with
  | Array1 _ => Raise IndexError
  | Array2 a => if (j <? ncols a)%nat
                then Ok (map (fun r => nth j r 0) (rows a))
                else Raise IndexError
  end.

Definition columns_from (data : ndarray) (k : nat) : result ndarray2 :=
  match data with
  | Array1 _ => Raise IndexError
  | Array2 a => Ok (cols_from k a)
  end.

(** [l[-1]]: the last entry; an empty array has none. *)
Definition item_last (l : list Q) : result Q :=
  match l with
  | [] => Raise IndexError
  | _ :: _ => Ok (last l 0)
  end.

End np.

(** Shape invariant of a 2-D array: every row has [ncols] entries. *)
Definition well_shaped (a : ndarray2) : Prop :=
  Forall (fun r => length r = ncols a) (rows a).

(** The 2-D arrays [np.loadtxt] returns: a file of a single row or of a
    single column is returned as a 1-D array, so a 2-D result has at
    least two rows of at least two numbers. *)
Definition loadtxt_shaped (a : ndarray2) : Prop :=
  well_shaped a /\ (2 <= length (rows a))%nat /\ (2 <= ncols a)%nat.

(** The entry in row [r], column [c], when there is one. *)
Definition entry (a : ndarray2) (r c : nat) : option Q :=
  match nth_error (rows a) r with
  | Some row => nth_error row c
  | None => None
  end.

(** ** qe_band_analysis.py *)

Module qe_band_analysis.

Definition read_band_structure (filename : string)
  : M (option (list Q) * option ndarray2) :=
  try_except
    (data <- np.loadtxt filename ;;
     k_points <- lift (np.column data 0) ;;
     energies <- lift (np.columns_from data 1) ;;
     ret (Some k_points, Some energies))
    (print (Text ("Error reading band structure file: " ++ filename)) ;;;
     ret (None, None)).

Definition analyze_band_gap_from_bands (energies : ndarray2) : M Q :=
  vb_max <- lift (np.max (np.cols_upto 20 energies)) ;;
  cb_min <- lift (np.min (np.cols_from 20 energies)) ;;
  let band_gap := cb_min - vb_max in
  print (Text "Band structure analysis:") ;;;
  print (Fmt "  Valence band maximum: " (Finite vb_max) 3 " eV") ;;;
  print (Fmt "  Conduction band minimum: " (Finite cb_min) 3 " eV") ;;;
  print (Fmt "  Band gap: " (Finite band_gap) 3 " eV") ;;;
  ret band_gap.

(** The four reads [k_points[0]], [k_points[len(k_points)//3]],
    [k_points[2*len(k_points)//3]] and [k_points[-1]] with which
    [plot_band_structure] (and [plot_phonon_dispersion], on [q_points])
    places its high-symmetry markers. *)
Definition high_symmetry_points (k_points : list Q) : result (Q * Q * Q * Q) :=
  gamma <~ np.item k_points 0 ;;
  k <~ np.item k_points (length k_points / 3) ;;
  m <~ np.item k_points (2 * length k_points / 3) ;;
  gamma' <~ np.item_last k_points ;;
  Ok (gamma, k, m, gamma').

Section Main.
(** The plotting routine only drives the charting library. *)
Variable plot_band_structure : list Q -> ndarray2 -> string -> M unit.

(** The loader returns both arrays or neither, so the branch where only
    [energies] is None is never taken; there the plotting routine would
    fail on [energies.shape]. *)
Definition main : M unit :=
  print (Text "=== Band Structure Analysis ===") ;;;
  loaded <- read_band_structure "bands.dat" ;;
  match loaded with
  | (Some k_points, Some energies) =>
      plot_band_structure k_points energies "Band Structure" ;;;
      _ <- analyze_band_gap_from_bands energies ;;
      ret tt
  | (Some _, None) => raise AttributeError
  | (None, _) => ret tt
  end ;;;
  print (Text "Band structure analysis completed!").
End Main.

End qe_band_analysis.

(** ** qe_phonon_analysis.py *)

Module qe_phonon_analysis.

Definition read_phonon_dos (filename : string)
  : M (option (list Q) * option (list Q)) :=
  try_except
    (data <- np.loadtxt filename ;;
     frequency <- lift (np.column data 0) ;;
     dos <- lift (np.column data 1) ;;
     ret (Some frequency, Some dos))
    (print (Text ("Error reading phonon DOS file: " ++ filename)) ;;;
     ret (None, None)).

Definition read_phonon_modes (filename : string)
  : M (option (list Q) * option ndarray2) :=
  try_except
    (data <- np.loadtxt filename ;;
     q_points <- lift (np.column data 0) ;;
     frequencies <- lift (np.columns_from data 1) ;;
     ret (Some q_points, Some frequencies))
    (print (Text ("Error reading phonon modes file: " ++ filename)) ;;;
     ret (None, None)).

(** The numerator of the average frequency,
    [np.trapz(frequency * dos, frequency)]. *)
Definition weighted_integral (frequency dos : list Q) : result Q :=
  fd <~ np.broadcast1 Qmult frequency dos ;;
  np.trapz fd frequency.

Definition analyze_phonon_properties (frequency dos : list Q)
  : M (Q * scalar * Q) :=
  total_states <- lift (np.trapz dos frequency) ;;
  max_freq <- lift (np.max1 frequency) ;;
  weighted <- lift (weighted_integral frequency dos) ;;
  let avg_freq := np.true_divide weighted total_states in
  print (Text "Phonon analysis:") ;;;
  print (Fmt "  Maximum frequency: " (Finite max_freq) 1 " cm⁻¹") ;;;
  print (Fmt "  Average frequency: " avg_freq 1 " cm⁻¹") ;;;
  print (Fmt "  Total phonon states: " (Finite total_states) 1 EmptyString) ;;;
  ret (max_freq, avg_freq, total_states).

Section Main.
Variable plot_phonon_dos : list Q -> list Q -> string -> M unit.
Variable plot_phonon_dispersion : list Q -> ndarray2 -> string -> M unit.

(** As in the band script, the branches with a single None are never
    taken. *)
Definition main : M unit :=
  print (Text "=== Phonon Analysis ===") ;;;
  loaded <- read_phonon_dos "phonon_dos.dat" ;;
  match loaded with
  | (Some frequency, Some dos) =>
      plot_phonon_dos frequency dos "Phonon Density of States" ;;;
      _ <- analyze_phonon_properties frequency dos ;;
      ret tt
  | (Some _, None) => raise AttributeError
  | (None, _) => ret tt
  end ;;;
  modes <- read_phonon_modes "phonon_frequencies.dat" ;;
  match modes with
  | (Some q_points, Some frequencies) =>
      plot_phonon_dispersion q_points frequencies "Phonon Dispersion"
  | (Some _, None) => raise AttributeError
  | (None, _) => ret tt
  end ;;;
  print (Text "Phonon analysis completed!").
End Main.

End qe_phonon_analysis.

(** ** qe_pdos_analysis.py *)

Module qe_pdos_analysis.

Definition data_loader (fname : string)
  : M (option (list Q) * option (list Q)) :=
  try_except2
    (data <- np.loadtxt fname ;;
     energy <- lift (np.column data 0) ;;
     pdos <- lift (np.column data 1) ;;
     ret (Some energy, Some pdos))
    (print (Text ("Warning: File " ++ fname ++ " not found")) ;;;
     ret (None, None))
    (fun e =>
       print (FmtExn ("Error loading " ++ fname ++ ": ") e) ;;;
       ret (None, None)).

(** The dictionary built for one atom. *)
Record contributions : Type := mk_contributions {
  valence_contribution : Q;
  conduction_contribution : Q;
  total_contribution : Q;
  valence_peak_energy : Q;
  conduction_peak_energy : Q;
  max_pdos : Q
}.

(** The body of the loop, for an atom whose [pdos] is not None. *)
Definition analyze_atom (energy pdos : list Q) : result contributions :=
  fermi_idx <~ np.argmin (np.abs energy) ;;
  valence <~ np.trapz (firstn fermi_idx pdos) (firstn fermi_idx energy) ;;
  conduction <~ np.trapz (skipn fermi_idx pdos) (skipn fermi_idx energy) ;;
  let total := valence + conduction in
  valence_peak_idx <~ np.argmax (firstn fermi_idx pdos) ;;
  conduction_offset <~ np.argmax (skipn fermi_idx pdos) ;;
  let conduction_peak_idx := (fermi_idx + conduction_offset)%nat in
  valence_peak <~ np.item energy valence_peak_idx ;;
  conduction_peak <~ np.item energy conduction_peak_idx ;;
  highest <~ np.max1 pdos ;;
  Ok (mk_contributions valence conduction total
        valence_peak conduction_peak highest).

(** [d[key] = value] on a dict kept in insertion order. *)
Fixpoint dict_set {V : Type} (d : list (string * V)) (key : string) (value : V)
  : list (string * V) :=
  match d with
  | [] => [(key, value)]
  | (k, v) :: d' => if String.eqb k key then (k, value) :: d'
                    else (k, v) :: dict_set d' key value
  end.

(** [atom_labels[i]]. *)
Definition label_at (atom_labels : list string) (i : nat) : result string :=
  match nth_error atom_labels i with
  | Some l => Ok l
  | None => Raise IndexError
  end.

(** [for i, (atom, pdos) in enumerate(pdos_data.items())], from index [i]
    on, with the results gathered so far. *)
Fixpoint analyze_items (energy : list Q)
    (items : list (string * option (list Q))) (atom_labels : list string)
    (i : nat) (analysis_results : list (string * contributions))
  : result (list (string * contributions)) :=
  match items with
  | [] => Ok analysis_results
  | (atom, None) :: rest =>
      analyze_items energy rest atom_labels (S i) analysis_results
  | (atom, Some pdos) :: rest =>
      values <~ analyze_atom energy pdos ;;
      label <~ label_at atom_labels i ;;
      analyze_items energy rest atom_labels (S i)
        (dict_set analysis_results label values)
  end.

Definition analyze_pdos_contributions (energy : list Q)
    (pdos_data : list (string * option (list Q))) (atom_labels : list string)
  : result (list (string * contributions)) :=
  analyze_items energy pdos_data atom_labels 0 [].

(** The literals of [main]. *)
Definition atom_files : list (string * string) :=
  [("W", "atom_W_tot.dat"); ("Se", "atom_Se_tot.dat");
   ("S", "atom_S_tot.dat"); ("V", "atom_V_tot.dat")]%string.
Definition colors : list string :=
  ["#000000"; "#006699"; "#99ff99"; "#ff9999"]%string.
Definition atom_labels : list string := ["W"; "Se"; "S"; "V"]%string.

Definition newline : string := String (Ascii.ascii_of_nat 10) EmptyString.

(** [for atom, filename in atom_files.items()]: every readable file
    overwrites [energy]; every atom gets an entry, None when its file
    gave nothing. *)
Fixpoint load_atoms (entries : list (string * string))
    (energy : option (list Q)) (pdos_data : list (string * option (list Q)))
  : M (option (list Q) * list (string * option (list Q))) :=
  match entries with
  | [] => ret (energy, pdos_data)
  | (atom, filename) :: rest =>
      print (Text ("  Loading " ++ atom ++ " data from " ++ filename)) ;;;
      loaded <- data_loader filename ;;
      match loaded with
      | (Some e, pdos) => load_atoms rest (Some e) (dict_set pdos_data atom pdos)
      | (None, _) => load_atoms rest energy (dict_set pdos_data atom None)
      end
  end.

(** [for atom, results in analysis.items()]: seven lines per atom. *)
Fixpoint print_results (analysis : list (string * contributions)) : M unit :=
  match analysis with
  | [] => ret tt
  | (atom, results) :: rest =>
      print (Text (newline ++ atom ++ " Atom:")) ;;;
      print (Fmt "  Total contribution: "
               (Finite (total_contribution results)) 3 " states") ;;;
      print (Fmt "  Valence band contribution: "
               (Finite (valence_contribution results)) 3 " states") ;;;
      print (Fmt "  Conduction band contribution: "
               (Finite (conduction_contribution results)) 3 " states") ;;;
      print (Fmt "  Valence peak energy: "
               (Finite (valence_peak_energy results)) 3 " eV") ;;;
      print (Fmt "  Conduction peak energy: "
               (Finite (conduction_peak_energy results)) 3 " eV") ;;;
      print (Fmt "  Maximum PDOS: " (Finite (max_pdos results)) 3 " states/eV") ;;;
      print_results rest
  end.

Section Main.
(** Charting and the writing of the report file are left to the libraries. *)
Variable create_pdos_plot :
  list Q -> list (string * option (list Q)) -> list string -> list string ->
  string -> M unit.
Variable savefig : string -> M unit.
Variable write_report : list (string * contributions) -> M unit.

Definition main : M unit :=
  print (Text "=== Enhanced PDOS Analysis ===") ;;;
  print (Text "Loading PDOS data...") ;;;
  loaded <- load_atoms atom_files None [] ;;
  match loaded with
  | (None, _) => print (Text "Error: No valid PDOS data found!")
  | (Some energy, pdos_data) =>
      print (Text "Creating PDOS plot...") ;;;
      create_pdos_plot energy pdos_data atom_labels colors
        "V-doped WSSe - Projected Density of States" ;;;
      savefig "V_doped_WSSe_PDOS.png" ;;;
      print (Text "Plot saved as: V_doped_WSSe_PDOS.png") ;;;
      print (Text "Analyzing PDOS contributions...") ;;;
      analysis <- lift (analyze_pdos_contributions energy pdos_data atom_labels) ;;
      print (Text (newline ++ "=== PDOS Analysis Results ===")) ;;;
      print_results analysis ;;;
      write_report analysis ;;;
      print (Text (newline ++ "Analysis report saved as: pdos_analysis_report.txt")) ;;;
      print (Text "PDOS analysis completed successfully!")
  end.
End Main.

End qe_pdos_analysis.

(** ** qe_soc_analysis.py *)

Module qe_soc_analysis.

Definition read_soc_energies (filename : string)
  : M (option (list Q) * option ndarray2) :=
  try_except
    (data <- np.loadtxt filename ;;
     k_points <- lift (np.column data 0) ;;
     energies <- lift (np.columns_from data 1) ;;
     ret (Some k_points, Some energies))
    (print (Text ("Error reading SOC energies file: " ++ filename)) ;;;
     ret (None, None)).

Definition compare_with_without_soc (soc_energies no_soc_energies : option ndarray2)
  : M (option (scalar * Q)) :=
  match soc_energies, no_soc_energies with
  | Some soc, Some no_soc =>
      energy_diff <- lift (np.subtract soc no_soc) ;;
      let avg_splitting := np.mean (np.abs2 energy_diff) in
      max_splitting <- lift (np.max (np.abs2 energy_diff)) ;;
      print (Text "SOC analysis:") ;;;
      print (Fmt "  Average SOC splitting: " avg_splitting 3 " eV") ;;;
      print (Fmt "  Maximum SOC splitting: " (Finite max_splitting) 3 " eV") ;;;
      ret (Some (avg_splitting, max_splitting))
  | _, _ => ret None
  end.

Section Main.
Variable plot_soc_comparison : list Q -> ndarray2 -> ndarray2 -> string -> M unit.

(** [avg_splitting, max_splitting = compare_with_without_soc(...)] unpacks
    the returned pair; a returned None would not unpack. *)
Definition analyze_soc_effects : M unit :=
  print (Text "=== Spin-Orbit Coupling Analysis ===") ;;;
  loaded <- read_soc_energies "soc_bands.dat" ;;
  match loaded with
  | (Some k_points, soc_energies) =>
      reference <- read_soc_energies "bands.dat" ;;
      match snd reference with
      | Some no_soc_energies =>
          compared <- compare_with_without_soc soc_energies (Some no_soc_energies) ;;
          match compared, soc_energies with
          | Some _, Some soc =>
              plot_soc_comparison k_points soc no_soc_energies "SOC Comparison"
          | _, _ => raise TypeError
          end
      | None => ret tt
      end
  | (None, _) => ret tt
  end ;;;
  print (Text "SOC analysis completed!").
End Main.

End qe_soc_analysis.

(** ** qe_pdos_simple.py *)

Module qe_pdos_simple.

(** No handler here: whatever [np.loadtxt] or the indexing raises goes
    to the caller, which is the top level of the script. *)
Definition data_loader (fname : string) : M (list Q * list Q) :=
  data <- np.loadtxt fname ;;
  energy <- lift (np.column data 0) ;;
  pdos <- lift (np.column data 1) ;;
  ret (energy, pdos).

End qe_pdos_simple.

(** ** qe_comprehensive_analysis.py *)

Module qe_comprehensive_analysis.

(** What a name bound by [a, b = np.loadtxt(fname, unpack=True)] holds: a
    column of a 2-D table, or one number of a two-number 1-D array. *)
Inductive plotted : Type :=
| Scalar (q : Q)
| Vector (v : list Q).

(** Unpacking the transposed table into exactly two names: "too many (not
    enough) values to unpack" otherwise. *)
Definition unpack_two (data : ndarray) : result (plotted * plotted) :=
  match data with
  | Array1 [a; b] => Ok (Scalar a, Scalar b)
  | Array1 _ => Raise ValueError
  | Array2 a =>
      if (ncols a =? 2)%nat
      then Ok (Vector (map (fun r => nth 0 r 0) (rows a)),
               Vector (map (fun r => nth 1 r 0) (rows a)))
      else Raise ValueError
  end.

Section Charting.
(** The calls into the charting library, grouped as the script groups
    them: the curve of a panel with its title, labels and grid; the
    "not available" text of a panel with its title. *)
Variable subplots : M unit.
Variable draw_curve : nat -> plotted -> plotted -> M unit.
Variable draw_unavailable : nat -> M unit.
Variable draw_summary : M unit.
Variable save_figure : M unit.

(** One [try: ... except: ...] block of [create_combined_plots]. *)
Definition panel (n : nat) (fname : string) : M unit :=
  try_except
    (data <- np.loadtxt fname ;;
     names <- lift (unpack_two data) ;;
     draw_curve n (fst names) (snd names))
    (draw_unavailable n).

Definition create_combined_plots : M unit :=
  print (Text "Creating combined plots...") ;;;
  subplots ;;;
  panel 0 "bands.dat" ;;;
  panel 1 "dos.dat" ;;;
  panel 2 "phonon_dos.dat" ;;;
  draw_summary ;;;
  save_figure ;;;
  print (Text "Combined plots saved as: comprehensive_results.png").
End Charting.

End qe_comprehensive_analysis.

(** ** The arithmetic of the analyzers at any number type

    The integrals, extremum searches and quotients of the analyzers,
    written once more over an arithmetic given by its operations.  At
    [exact], the arithmetic of the rationals, they are the functions of
    the modules above; at [binary64], IEEE 754 binary64 (numpy's
    float64), they compute what the scripts compute on finite inputs,
    rounding included. *)

Module anynum.

(** The operations the analyzers apply to numbers; [reduce] is the
    summation of a 1-D array ([ndarray.sum]), whatever its bracketing. *)
Record arith : Type := mk_arith {
  num : Type;
  zero : num;
  two : num;
  add : num -> num -> num;
  sub : num -> num -> num;
  mul : num -> num -> num;
  div : num -> num -> num;
  leb : num -> num -> bool;
  absolute : num -> num;
  reduce : list num -> num
}.

Section Core.
Variable A : arith.

Definition maximum (a b : num A) : num A := if leb A a b then b else a.

Definition max1 (l : list (num A)) : result (num A) :=
  match l with
  | [] => Raise ValueError
  | a :: r => Ok (fold_left maximum r a)
  end.

Fixpoint argmax_from (best : num A) (candidate i : nat) (l : list (num A)) : nat :=
  match l with
  | [] => candidate
  | a :: r => if leb A a best
              then argmax_from best candidate (S i) r
              else argmax_from a i (S i) r
  end.

Definition argmax (l : list (num A)) : result nat :=
  match l with
  | [] => Raise ValueError
  | a :: r => Ok (argmax_from a 0%nat 1%nat r)
  end.

Fixpoint argmin_from (best : num A) (candidate i : nat) (l : list (num A)) : nat :=
  match l with
  | [] => candidate
  | a :: r => if leb A best a
              then argmin_from best candidate (S i) r
              else argmin_from a i (S i) r
  end.

Definition argmin (l : list (num A)) : result nat :=
  match l with
  | [] => Raise ValueError
  | a :: r => Ok (argmin_from a 0%nat 1%nat r)
  end.

Definition abs (l : list (num A)) : list (num A) := map (absolute A) l.

Fixpoint zip_with (f : num A -> num A -> num A) (a b : list (num A))
  : list (num A) :=
  match a, b with
  | x :: a', y :: b' => f x y :: zip_with f a' b'
  | _, _ => []
  end.

Definition broadcast1 (f : num A -> num A -> num A) (a b : list (num A))
  : result (list (num A)) :=
  if (length a =? length b)%nat then Ok (zip_with f a b)
  else match a, b with
       | [x], _ => Ok (map (f x) b)
       | _, [y] => Ok (map (fun x => f x y) a)
       | _, _ => Raise ValueError
       end.

Definition diff (x : list (num A)) : list (num A) :=
  zip_with (sub A) (tl x) (removelast x).

(** [np.trapz(y, x)]: [(diff(x) * (y[1:] + y[:-1]) / 2.0).sum()]. *)
Definition trapz (y x : list (num A)) : result (num A) :=
  let d := diff x in
  p <~ broadcast1 (mul A) d (zip_with (add A) (tl y) (removelast y)) ;;
  Ok (reduce A (map (fun t => div A t (two A)) p)).

Definition item (l : list (num A)) (i : nat) : result (num A) :=
  match nth_error l i with
  | Some v => Ok v
  | None => Raise IndexError
  end.

(** The three values [analyze_phonon_properties] returns. *)
Definition phonon_values (frequency dos : list (num A))
  : result (num A * num A * num A) :=
  total_states <~ trapz dos frequency ;;
  max_freq <~ max1 frequency ;;
  fd <~ broadcast1 (mul A) frequency dos ;;
  weighted <~ trapz fd frequency ;;
  Ok (max_freq, div A weighted total_states, total_states).

(** The dictionary [analyze_pdos_contributions] builds for one atom. *)
Record contributions : Type := mk_contributions {
  valence_contribution : num A;
  conduction_contribution : num A;
  total_contribution : num A;
  valence_peak_energy : num A;
  conduction_peak_energy : num A;
  max_pdos : num A
}.

Definition analyze_atom (energy pdos : list (num A)) : result contributions :=
  fermi_idx <~ argmin (abs energy) ;;
  valence <~ trapz (firstn fermi_idx pdos) (firstn fermi_idx energy) ;;
  conduction <~ trapz (skipn fermi_idx pdos) (skipn fermi_idx energy) ;;
  let total := add A valence conduction in
  valence_peak_idx <~ argmax (firstn fermi_idx pdos) ;;
  conduction_offset <~ argmax (skipn fermi_idx pdos) ;;
  let conduction_peak_idx := (fermi_idx + conduction_offset)%nat in
  valence_peak <~ item energy valence_peak_idx ;;
  conduction_peak <~ item energy conduction_peak_idx ;;
  highest <~ max1 pdos ;;
  Ok (mk_contributions valence conduction total
        valence_peak conduction_peak highest).

(** Entry [i] of a 1-D array (zero beyond its end). *)
Definition at_index (l : list (num A)) (i : nat) : num A := nth i l (zero A).

(** The trapezoid on the segment from point [i] to point [i+1]:
    (x[i+1] - x[i]) * (y[i] + y[i+1]) / 2. *)
Definition trapezoid (x y : nat -> num A) (i : nat) : num A :=
  div A (mul A (sub A (x (S i)) (x i)) (add A (y i) (y (S i)))) (two A).

(** The trapezoids of the segments [lo], ..., [lo + n - 1] of a curve, in
    order. *)
Definition trapezoids (x y : list (num A)) (lo n : nat) : list (num A) :=
  map (trapezoid (at_index x) (at_index y)) (seq lo n).

(** The same for the curve x * y over x. *)
Definition weighted_trapezoids (x y : list (num A)) (lo n : nat)
  : list (num A) :=
  map (trapezoid (at_index x) (fun i => mul A (at_index x i) (at_index y i)))
      (seq lo n).

End Core.

End anynum.

(** The arithmetic of the rationals: the one of the modules [np] and
    [qe_*] above. *)
Definition exact : anynum.arith :=
  anynum.mk_arith Q 0 2 Qplus Qminus Qmult Qdiv Qle_bool Qabs np.sum.

Section Binary64.
Import PrimFloat.

(** IEEE 754 binary64 with round-to-nearest-even, on the processor's own
    operations.  numpy adds an array of fewer than eight elements from
    left to right starting from zero, and longer ones in blocks;
    [binary64] adds every array from left to right, and is evaluated
    below on arrays of fewer than eight elements only. *)
Definition binary64 : anynum.arith :=
  anynum.mk_arith float 0%float 2%float
    PrimFloat.add PrimFloat.sub PrimFloat.mul PrimFloat.div
    PrimFloat.leb PrimFloat.abs
    (fun l => fold_left PrimFloat.add l 0%float).


(** A PDOS curve of six points in float64, each number the double
    nearest to the decimal written: its Fermi index is 2 and the PDOS
    vanishes at both ends of the segment from index 1 to index 2. *)
Definition rounded_energy : list float := [-0.3; -0.2; -0.1; 0.1; 0.2; 0.3]%float.

(** A density symmetric about the middle of [rounded_energy], whose
    grid is symmetric about 0. *)
Definition mirrored_dos64 : list float := [0.1; 0.7; 0.3; 0.3; 0.7; 0.1]%float.


(** A bound far above the rounding errors of the curves above. *)
Definition rounding_bound : float := 1e-15%float.

End Binary64.

(** ** Vocabulary of the statements *)

(** [m] is the greatest (least) entry of [a] among the columns selected
    by [P]: it occurs there and bounds every entry found there. *)
Definition greatest_entry (a : ndarray2) (P : nat -> Prop) (m : Q) : Prop :=
  (exists r c, P c /\ entry a r c = Some m) /\
  (forall r c v, P c -> entry a r c = Some v -> v <= m).

Definition least_entry (a : ndarray2) (P : nat -> Prop) (m : Q) : Prop :=
  (exists r c, P c /\ entry a r c = Some m) /\
  (forall r c v, P c -> entry a r c = Some v -> m <= v).

(** The array made of the valence block [[-1.0, -0.5]] followed by the
    conduction block [[0.2, 0.3]]. *)
Definition literal_blocks : ndarray2 :=
  {| ncols := 4; rows := [[-1.0; -0.5; 0.2; 0.3]] |}.

(** The same two blocks with the valence block widened to the twenty
    columns the script takes for valence bands. *)
Definition padded_blocks : ndarray2 :=
  {| ncols := 22; rows := [repeat (-1.0) 18 ++ [-1.0; -0.5; 0.2; 0.3]] |}.

(** A table of twenty-one bands sampled at no k-point. *)
Definition no_kpoints : ndarray2 := {| ncols := 21; rows := [] |}.

(** A world with no file and nothing printed yet. *)
Definition empty_world : world :=
  {| files := fun _ => Absent; stdout := [] |}.

(** Entry [i] of a 1-D array (0 beyond its end, where no statement looks). *)
Definition at_index (l : list Q) (i : nat) : Q := nth i l 0.

(** Sum of [f lo], ..., [f (lo + n - 1)]. *)
Fixpoint range_sum (lo n : nat) (f : nat -> Q) : Q :=
  match n with
  | O => 0
  | S k => f lo + range_sum (S lo) k f
  end.

(** The trapezoid on the segment from point [i] to point [i+1]:
    (x[i+1] - x[i]) * (y[i] + y[i+1]) / 2. *)
Definition trapezoid (x y : nat -> Q) (i : nat) : Q :=
  (x (S i) - x i) * (y i + y (S i)) / 2.

(** The composite trapezoidal sum over a curve of [n] points. *)
Definition trapezoid_sum (n : nat) (x y : nat -> Q) : Q :=
  range_sum 0 (n - 1) (trapezoid x y).

(** The trapezoids of the segments [lo], ..., [lo + n - 1] of the curve
    (x, y), in order, and those of the curve (x, x * y). *)
Definition trapezoids (x y : list Q) (lo n : nat) : list Q :=
  map (trapezoid (at_index x) (at_index y)) (seq lo n).

Definition weighted_trapezoids (x y : list Q) (lo n : nat) : list Q :=
  map (trapezoid (at_index x) (fun i => at_index x i * at_index y i))
      (seq lo n).


(** [j] is the first index in [lo, hi) where [y] is greatest (least). *)
Definition first_max_between (y : nat -> Q) (lo hi j : nat) : Prop :=
  (lo <= j < hi)%nat /\
  (forall k, (lo <= k < hi)%nat -> y k <= y j) /\
  (forall k, (lo <= k < j)%nat -> y k < y j).

Definition first_min_between (y : nat -> Q) (lo hi j : nat) : Prop :=
  (lo <= j < hi)%nat /\
  (forall k, (lo <= k < hi)%nat -> y j <= y k) /\
  (forall k, (lo <= k < j)%nat -> y j < y k).

(** The Fermi index of an energy grid: the first index whose energy is
    closest to 0. *)
Definition fermi_index (energy : list Q) (f : nat) : Prop :=
  first_min_between (fun k => Qabs (at_index energy k)) 0 (length energy) f.

(** The terms [np.trapz] sums on a curve, one per segment. *)
Definition trapz_terms (y x : list Q) : list Q :=
  map (fun t => t / 2)
    (np.zip_with Qmult (np.diff x)
       (np.zip_with Qplus (tl y) (removelast y))).

(** A world that differs from [w] by the lines printed after it. *)
Definition printed (w : world) (lines : list line) : world :=
  {| files := files w; stdout := stdout w ++ lines |}.

(** A flat curve: two points, density zero at both. *)
Definition flat_frequency : list Q := [0; 1].
Definition flat_dos : list Q := [0; 0].

(** A three-point curve on a non-uniform grid. *)
Definition sample_frequency : list Q := [0; 1; 3].
Definition sample_dos : list Q := [1; 2; 2].

(** A curve symmetric about 0. *)
Definition symmetric_frequency : list Q := [-2; -0.5; 0.5; 2].
Definition symmetric_dos : list Q := [1; 3; 3; 1].

(** The PDOS curve x = [-2,-1,0,1,2], y = [1,5,2,8,3]. *)
Definition peak_energy : list Q := [-2; -1; 0; 1; 2].
Definition peak_pdos : list Q := [1; 5; 2; 8; 3].

(** The sum of |A[i][j] - B[i][j]| over an [R] x [C] grid. *)
Definition abs_difference_sum (A B : ndarray2) (R C : nat) : Q :=
  range_sum 0 R (fun i =>
    range_sum 0 C (fun j => Qabs (np.get A i j - np.get B i j))).


(** A two-by-two band table and a shifted copy. *)
Definition soc_sample : ndarray2 := {| ncols := 2; rows := [[-1.0; 0.5]; [-0.8; 0.7]] |}.
Definition no_soc_sample : ndarray2 := {| ncols := 2; rows := [[-1.1; 0.5]; [-0.8; 0.4]] |}.

(** The grid of values [h i j], row by row. *)
Definition grid (R C : nat) (h : nat -> nat -> Q) : list (list Q) :=
  map (fun i => map (fun j => h i j) (seq 0 C)) (seq 0 R).

(** The file at [path] is absent or cannot be parsed. *)
Definition unreadable (w : world) (path : string) : Prop :=
  files w path = Absent \/ files w path = Unparsable.

(** [d.get(key)] on a dict kept in insertion order. *)
Fixpoint dict_get {V : Type} (d : list (string * V)) (key : string) : option V :=
  match d with
  | [] => None
  | (k, v) :: d' => if String.eqb k key then Some v else dict_get d' key
  end.

(** A world holding one file, with nothing printed yet. *)
Definition world_with (path : string) (content : file) : world :=
  {| files := fun p => if String.eqb p path then content else Absent;
     stdout := [] |}.

(** A table of three k-points and two bands. *)
Definition small_table : ndarray2 :=
  {| ncols := 3; rows := [[0; -1.0; 0.5]; [0.5; -0.8; 0.7]; [1; -0.9; 0.6]] |}.

(** A table of two k-points and twenty-two bands: behind the k-point
    column, the padded blocks and a second row of the same kind. *)
Definition wide_table : ndarray2 :=
  {| ncols := 23;
     rows := [0 :: repeat (-1.0) 18 ++ [-1.0; -0.5; 0.2; 0.3];
              0.5 :: repeat (-1.1) 18 ++ [-0.9; -0.6; 0.3; 0.4]] |}.

(** A file of a single column holding two numbers, as [np.loadtxt]
    returns it. *)
Definition two_numbers : ndarray := Array1 [0.5; 1.5].

(** Two scalars are the same float, or both the outcome of a division by
    zero. *)
Definition scalar_equiv (a b : scalar) : Prop :=
  match a, b with
  | Finite p, Finite q => p == q
  | NonFinite, NonFinite => True
  | _, _ => False
  end.

(** An energy grid that starts at the Fermi level. *)
Definition conduction_only_energy : list Q := [0; 1; 2].

(** A second table, on a grid shifted by 0.1. *)
Definition shifted_table : ndarray2 :=
  {| ncols := 2; rows := [[0.1; 2]; [0.6; 3]; [1.1; 4]] |}.

(** A directory holding the PDOS files of W and Se only, on different
    grids. *)
Definition pdos_world : world :=
  {| files := fun p =>
       if String.eqb p "atom_W_tot.dat" then Table (Array2 small_table)
       else if String.eqb p "atom_Se_tot.dat" then Table (Array2 shifted_table)
       else Absent;
     stdout := [] |}.

(** A one-column table with as many rows as [soc_sample]. *)
Definition reference_column : ndarray2 := {| ncols := 1; rows := [[-1.0]; [-0.8]] |}.

(** A three-column table with as many rows as [soc_sample]. *)
Definition three_bands : ndarray2 :=
  {| ncols := 3; rows := [[-1.0; 0.5; 0.9]; [-0.8; 0.7; 1.0]] |}.

(** * Properties *)

(** ** Extremum reductions *)

Section Reductions.

Lemma maximum_cases (a b : Q) :
  (a <= b /\ np.maximum a b = b) \/ (b <= a /\ np.maximum a b = a).
Proof.
  unfold np.maximum. destruct (Qle_bool a b) eqn:E.
  - left. split; [now apply Qle_bool_iff | reflexivity].
  - right. split; [| reflexivity].
    destruct (Qlt_le_dec b a) as [H | H].
    + now apply Qlt_le_weak.
    + apply Qle_bool_iff in H. congruence.
Qed.

Lemma minimum_cases (a b : Q) :
  (a <= b /\ np.minimum a b = a) \/ (b <= a /\ np.minimum a b = b).
Proof.
  unfold np.minimum. destruct (Qle_bool a b) eqn:E.
  - left. split; [now apply Qle_bool_iff | reflexivity].
  - right. split; [| reflexivity].
    destruct (Qlt_le_dec b a) as [H | H].
    + now apply Qlt_le_weak.
    + apply Qle_bool_iff in H. congruence.
Qed.

(** The left fold of [maximum] returns an element that bounds all. *)
Lemma fold_maximum_spec (r : list Q) : forall a,
  In (fold_left np.maximum r a) (a :: r) /\
  forall v, In v (a :: r) -> v <= fold_left np.maximum r a.
Proof.
  induction r as [| b r IH]; intros a; simpl.
  - split; [now left |]. intros v [<- | []]. apply Qle_refl.
  - destruct (IH (np.maximum a b)) as [Hin Hub]. split.
    + destruct Hin as [Hm | Hin]; [| now right; right].
      rewrite <- Hm.
      destruct (maximum_cases a b) as [[_ ->] | [_ ->]]; [right; now left | now left].
    + intros v Hv.
      assert (Hab : a <= np.maximum a b /\ b <= np.maximum a b).
      { destruct (maximum_cases a b) as [[H ->] | [H ->]]; split;
          auto using Qle_refl. }
      destruct Hab as [Ha Hb].
      destruct Hv as [<- | [<- | Hv]].
      * eapply Qle_trans; [exact Ha |]. apply Hub. now left.
      * eapply Qle_trans; [exact Hb |]. apply Hub. now left.
      * apply Hub. now right.
Qed.

Lemma fold_minimum_spec (r : list Q) : forall a,
  In (fold_left np.minimum r a) (a :: r) /\
  forall v, In v (a :: r) -> fold_left np.minimum r a <= v.
Proof.
  induction r as [| b r IH]; intros a; simpl.
  - split; [now left |]. intros v [<- | []]. apply Qle_refl.
  - destruct (IH (np.minimum a b)) as [Hin Hlb]. split.
    + destruct Hin as [Hm | Hin]; [| now right; right].
      rewrite <- Hm.
      destruct (minimum_cases a b) as [[_ ->] | [_ ->]]; [now left | right; now left].
    + intros v Hv.
      assert (Hab : np.minimum a b <= a /\ np.minimum a b <= b).
      { destruct (minimum_cases a b) as [[H ->] | [H ->]]; split;
          auto using Qle_refl. }
      destruct Hab as [Ha Hb].
      destruct Hv as [<- | [<- | Hv]].
      * eapply Qle_trans; [| exact Ha]. apply Hlb. now left.
      * eapply Qle_trans; [| exact Hb]. apply Hlb. now left.
      * apply Hlb. now right.
Qed.

Lemma max1_spec (l : list Q) :
  l <> [] ->
  exists m, np.max1 l = Ok m /\ In m l /\ forall v, In v l -> v <= m.
Proof.
  destruct l as [| a r]; [congruence | intros _].
  exists (fold_left np.maximum r a). split; [reflexivity |].
  apply fold_maximum_spec.
Qed.

Lemma min1_spec (l : list Q) :
  l <> [] ->
  exists m, np.min1 l = Ok m /\ In m l /\ forall v, In v l -> m <= v.
Proof.
  destruct l as [| a r]; [congruence | intros _].
  exists (fold_left np.minimum r a). split; [reflexivity |].
  apply fold_minimum_spec.
Qed.

End Reductions.

(** ** Column slices of a 2-D array *)

Section Slices.

Lemma In_firstn_iff (k : nat) (l : list Q) (v : Q) :
  In v (firstn k l) <-> exists c, (c < k)%nat /\ nth_error l c = Some v.
Proof.
  split.
  - intros H. apply In_nth_error in H as [c Hc].
    assert (c < k)%nat.
    { assert (Hlt : (c < length (firstn k l))%nat)
        by (apply nth_error_Some; congruence).
      rewrite length_firstn in Hlt. lia. }
    exists c. split; [assumption |].
    rewrite nth_error_firstn in Hc.
    destruct (Nat.ltb_spec c k); [assumption | lia].
  - intros (c & Hck & Hc). apply nth_error_In with (n := c).
    rewrite nth_error_firstn.
    destruct (Nat.ltb_spec c k); [assumption | lia].
Qed.

Lemma In_skipn_iff (k : nat) (l : list Q) (v : Q) :
  In v (skipn k l) <-> exists c, (k <= c)%nat /\ nth_error l c = Some v.
Proof.
  split.
  - intros H. apply In_nth_error in H as [c Hc].
    rewrite nth_error_skipn in Hc. exists (k + c)%nat. split; [lia | assumption].
  - intros (c & Hck & Hc). apply nth_error_In with (n := (c - k)%nat).
    rewrite nth_error_skipn. replace (k + (c - k))%nat with c by lia. assumption.
Qed.

Lemma In_ravel_iff (a : ndarray2) (v : Q) :
  In v (np.ravel a) <-> exists r c, entry a r c = Some v.
Proof.
  unfold np.ravel, entry. rewrite in_concat. split.
  - intros (row & Hrow & Hv).
    apply In_nth_error in Hrow as [r Hr]. apply In_nth_error in Hv as [c Hc].
    exists r, c. now rewrite Hr.
  - intros (r & c & H). destruct (nth_error (rows a) r) as [row |] eqn:Hr;
      [| discriminate].
    exists row. split; eauto using nth_error_In.
Qed.

Lemma entry_cols_upto (k : nat) (a : ndarray2) (r c : nat) :
  entry (np.cols_upto k a) r c =
  if (c <? k)%nat then entry a r c else None.
Proof.
  unfold entry, np.cols_upto. simpl. rewrite nth_error_map.
  destruct (nth_error (rows a) r) as [row |]; simpl.
  - apply nth_error_firstn.
  - now destruct (c <? k)%nat.
Qed.

Lemma entry_cols_from (k : nat) (a : ndarray2) (r c : nat) :
  entry (np.cols_from k a) r c = entry a r (k + c).
Proof.
  unfold entry, np.cols_from. simpl. rewrite nth_error_map.
  destruct (nth_error (rows a) r) as [row |]; simpl.
  - apply nth_error_skipn.
  - reflexivity.
Qed.

(** The entries of [a[:, :k]] are those of [a] in a column below [k]. *)
Lemma In_cols_upto (k : nat) (a : ndarray2) (v : Q) :
  In v (np.ravel (np.cols_upto k a)) <->
  exists r c, (c < k)%nat /\ entry a r c = Some v.
Proof.
  rewrite In_ravel_iff. split.
  - intros (r & c & H). rewrite entry_cols_upto in H.
    destruct (Nat.ltb_spec c k); [| discriminate]. eauto.
  - intros (r & c & Hc & H). exists r, c. rewrite entry_cols_upto.
    destruct (Nat.ltb_spec c k); [assumption | lia].
Qed.

(** The entries of [a[:, k:]] are those of [a] in column [k] or beyond. *)
Lemma In_cols_from (k : nat) (a : ndarray2) (v : Q) :
  In v (np.ravel (np.cols_from k a)) <->
  exists r c, (k <= c)%nat /\ entry a r c = Some v.
Proof.
  rewrite In_ravel_iff. split.
  - intros (r & c & H). rewrite entry_cols_from in H.
    exists r, (k + c)%nat. split; [lia | assumption].
  - intros (r & c & Hc & H). exists r, (c - k)%nat. rewrite entry_cols_from.
    replace (k + (c - k))%nat with c by lia. assumption.
Qed.

(** An array with a row and a column has an entry in that column. *)
Lemma entry_defined (a : ndarray2) (c : nat) :
  well_shaped a -> rows a <> [] -> (c < ncols a)%nat ->
  exists v, entry a 0 c = Some v.
Proof.
  unfold well_shaped, entry. intros Hwf Hrows Hc.
  destruct (rows a) as [| row rest]; [congruence |]. simpl.
  inversion Hwf as [| ? ? Hlen _]; subst.
  destruct (nth_error row c) as [v |] eqn:E; [eauto |].
  apply nth_error_None in E. lia.
Qed.

End Slices.

(** ** The gap finder *)

Section BandGap.
Import qe_band_analysis.

Lemma valence_block_nonempty (e : ndarray2) :
  well_shaped e -> rows e <> [] -> (0 < ncols e)%nat ->
  np.ravel (np.cols_upto 20 e) <> [].
Proof.
  intros Hwf Hrows Hc.
  destruct (entry_defined e 0 Hwf Hrows Hc) as [v Hv].
  assert (Hin : In v (np.ravel (np.cols_upto 20 e))).
  { apply In_cols_upto. exists 0%nat, 0%nat. split; [lia | assumption]. }
  intros E. now rewrite E in Hin.
Qed.

Lemma conduction_block_nonempty (e : ndarray2) :
  well_shaped e -> rows e <> [] -> (20 < ncols e)%nat ->
  np.ravel (np.cols_from 20 e) <> [].
Proof.
  intros Hwf Hrows Hc.
  destruct (entry_defined e 20 Hwf Hrows Hc) as [v Hv].
  assert (Hin : In v (np.ravel (np.cols_from 20 e))).
  { apply In_cols_from. exists 0%nat, 20%nat. split; [lia | assumption]. }
  intros E. now rewrite E in Hin.
Qed.

(** With fewer than twenty-one columns nothing lies at or above the split. *)
Lemma conduction_block_empty (e : ndarray2) :
  well_shaped e -> (ncols e <= 20)%nat -> np.ravel (np.cols_from 20 e) = [].
Proof.
  intros Hwf Hc.
  destruct (np.ravel (np.cols_from 20 e)) as [| v l] eqn:E; [reflexivity |].
  assert (Hin : In v (np.ravel (np.cols_from 20 e))) by (rewrite E; now left).
  apply In_cols_from in Hin as (r & c & Hc' & Hv).
  unfold entry in Hv. destruct (nth_error (rows e) r) as [row |] eqn:Hr;
    [| discriminate].
  apply nth_error_In in Hr.
  unfold well_shaped in Hwf. rewrite Forall_forall in Hwf.
  specialize (Hwf _ Hr).
  assert (c < length row)%nat by (apply nth_error_Some; congruence). lia.
Qed.

(** What the function does once both reductions have succeeded. *)
Lemma analyze_band_gap_run (e : ndarray2) (w : world) (vb_max cb_min : Q) :
  np.max (np.cols_upto 20 e) = Ok vb_max ->
  np.min (np.cols_from 20 e) = Ok cb_min ->
  analyze_band_gap_from_bands e w =
  (Ok (cb_min - vb_max),
   printed w
     [Text "Band structure analysis:";
      Fmt "  Valence band maximum: " (Finite vb_max) 3 " eV";
      Fmt "  Conduction band minimum: " (Finite cb_min) 3 " eV";
      Fmt "  Band gap: " (Finite (cb_min - vb_max)) 3 " eV"]).
Proof.
  intros Hmax Hmin.
  unfold analyze_band_gap_from_bands, bind, lift, print, ret, printed.
  rewrite Hmax, Hmin. simpl. repeat rewrite <- app_assoc. reflexivity.
Qed.

Lemma analyze_band_gap_general (e : ndarray2) (w : world) :
  well_shaped e -> rows e <> [] -> (20 < ncols e)%nat ->
  exists vb_max cb_min,
    greatest_entry e (fun c => (c < 20)%nat) vb_max /\
    least_entry e (fun c => (20 <= c)%nat) cb_min /\
    fst (analyze_band_gap_from_bands e w) = Ok (cb_min - vb_max).
Proof.
  intros Hwf Hrows Hc.
  destruct (max1_spec (np.ravel (np.cols_upto 20 e)))
    as (vb & Hvb & Hvin & Hvub).
  { apply valence_block_nonempty; [assumption | assumption | lia]. }
  destruct (min1_spec (np.ravel (np.cols_from 20 e)))
    as (cb & Hcb & Hcin & Hclb).
  { now apply conduction_block_nonempty. }
  exists vb, cb. repeat split.
  - now apply In_cols_upto.
  - intros r c v Hlt Hv. apply Hvub. apply In_cols_upto. eauto.
  - now apply In_cols_from.
  - intros r c v Hge Hv. apply Hclb. apply In_cols_from. eauto.
  - now rewrite (analyze_band_gap_run e w vb cb Hvb Hcb).
Qed.

(** C1 (as amended).  For every 2-D band-energy array with at least one
    row and more than twenty columns, the gap finder returns the least
    entry found in the columns from index 20 on minus the greatest entry
    found in the columns below index 20.  In particular, when the valence
    block [[-1.0, -0.5]] is widened to twenty columns (eighteen more
    columns of -1.0) and followed by the conduction block [[0.2, 0.3]],
    it reports the valence maximum -0.5, the conduction minimum 0.2 and
    a gap equal to 0.7. *)
Theorem band_gap_is_min_above_minus_max_below :
  (forall (e : ndarray2) (w : world),
      well_shaped e -> rows e <> [] -> (20 < ncols e)%nat ->
      exists vb_max cb_min,
        greatest_entry e (fun c => (c < 20)%nat) vb_max /\
        least_entry e (fun c => (20 <= c)%nat) cb_min /\
        fst (analyze_band_gap_from_bands e w) = Ok (cb_min - vb_max)) /\
  (forall w : world,
      exists gap,
        analyze_band_gap_from_bands padded_blocks w =
        (Ok gap,
         printed w
           [Text "Band structure analysis:";
            Fmt "  Valence band maximum: " (Finite (-0.5)) 3 " eV";
            Fmt "  Conduction band minimum: " (Finite 0.2) 3 " eV";
            Fmt "  Band gap: " (Finite gap) 3 " eV"]) /\
        gap == 0.7).
Proof.
  split.
  - intros e w. apply analyze_band_gap_general.
  - intros w. exists (0.2 - -0.5). split.
    + now apply analyze_band_gap_run.
    + reflexivity.
Qed.

Lemma band_gap_is_min_above_minus_max_below_witness :
  well_shaped padded_blocks /\ rows padded_blocks <> [] /\
  (20 < ncols padded_blocks)%nat /\
  exists vb_max cb_min,
    greatest_entry padded_blocks (fun c => (c < 20)%nat) vb_max /\
    least_entry padded_blocks (fun c => (20 <= c)%nat) cb_min /\
    fst (analyze_band_gap_from_bands padded_blocks empty_world)
    = Ok (cb_min - vb_max).
Proof.
  assert (Hwf : well_shaped padded_blocks)
    by (constructor; [reflexivity | constructor]).
  assert (Hrows : rows padded_blocks <> []) by discriminate.
  assert (Hc : (20 < ncols padded_blocks)%nat) by (simpl; lia).
  split; [exact Hwf | split; [exact Hrows | split; [exact Hc |]]].
  exact (proj1 band_gap_is_min_above_minus_max_below
           padded_blocks empty_world Hwf Hrows Hc).
Defined.

(** On the four-column array made of the two literal blocks, every column
    is below index 20: the conduction slice is empty and the reduction
    raises before anything is printed. *)
Lemma band_gap_literal_blocks_raise :
  analyze_band_gap_from_bands literal_blocks empty_world
  = (Raise ValueError, empty_world) /\
  ~ (exists gap,
        fst (analyze_band_gap_from_bands literal_blocks empty_world) = Ok gap /\
        gap == 0.7).
Proof.
  split; [reflexivity |]. intros (gap & H & _). discriminate H.
Qed.

(** C7 (as amended).  For every band-energy array with at least one row
    and more than twenty columns the gap finder raises nothing; for every
    array with at most twenty columns (nothing at or above the split) it
    raises the empty-reduction error and prints nothing. *)
Theorem band_gap_empty_reduction :
  (forall (e : ndarray2) (w : world),
      well_shaped e -> rows e <> [] -> (20 < ncols e)%nat ->
      exists gap, fst (analyze_band_gap_from_bands e w) = Ok gap) /\
  (forall (e : ndarray2) (w : world),
      well_shaped e -> (ncols e <= 20)%nat ->
      analyze_band_gap_from_bands e w = (Raise ValueError, w)).
Proof.
  split.
  - intros e w Hwf Hrows Hc.
    destruct (analyze_band_gap_general e w Hwf Hrows Hc) as (vb & cb & _ & _ & H).
    eauto.
  - intros e w Hwf Hc.
    unfold analyze_band_gap_from_bands, bind, lift, np.min, np.max.
    rewrite (conduction_block_empty e Hwf Hc).
    destruct (np.max1 (np.ravel (np.cols_upto 20 e))) as [vb | err] eqn:E.
    + reflexivity.
    + destruct (np.ravel (np.cols_upto 20 e)); simpl in E; congruence.
Qed.

Lemma band_gap_empty_reduction_witness :
  (well_shaped padded_blocks /\ rows padded_blocks <> [] /\
   (20 < ncols padded_blocks)%nat /\
   exists gap, fst (analyze_band_gap_from_bands padded_blocks empty_world) = Ok gap) /\
  (well_shaped literal_blocks /\ (ncols literal_blocks <= 20)%nat /\
   analyze_band_gap_from_bands literal_blocks empty_world
   = (Raise ValueError, empty_world)).
Proof.
  assert (Hwf : well_shaped padded_blocks)
    by (constructor; [reflexivity | constructor]).
  assert (Hrows : rows padded_blocks <> []) by discriminate.
  assert (Hc : (20 < ncols padded_blocks)%nat) by (simpl; lia).
  assert (Hwf' : well_shaped literal_blocks)
    by (constructor; [reflexivity | constructor]).
  assert (Hc' : (ncols literal_blocks <= 20)%nat) by (simpl; lia).
  split.
  - split; [exact Hwf | split; [exact Hrows | split; [exact Hc |]]].
    exact (proj1 band_gap_empty_reduction
             padded_blocks empty_world Hwf Hrows Hc).
  - split; [exact Hwf' | split; [exact Hc' |]].
    exact (proj2 band_gap_empty_reduction
             literal_blocks empty_world Hwf' Hc').
Defined.

(** Twenty-one columns on paper but no row: both sides of the split are
    empty and the first reduction raises. *)
Lemma band_gap_no_rows_raises :
  well_shaped no_kpoints /\ (20 < ncols no_kpoints)%nat /\
  analyze_band_gap_from_bands no_kpoints empty_world
  = (Raise ValueError, empty_world) /\
  ~ (exists gap,
        fst (analyze_band_gap_from_bands no_kpoints empty_world) = Ok gap).
Proof.
  split; [constructor | split; [simpl; lia | split; [reflexivity |]]].
  intros (gap & H). discriminate H.
Qed.

End BandGap.

(** ** Trapezoidal integration *)

Section Trapz.

Lemma range_sum_ext (f g : nat -> Q) : forall n lo,
  (forall i, (lo <= i < lo + n)%nat -> f i == g i) ->
  range_sum lo n f == range_sum lo n g.
Proof.
  induction n as [| n IH]; intros lo H; simpl; [reflexivity |].
  rewrite (H lo) by lia. rewrite (IH (S lo)); [reflexivity |].
  intros i Hi. apply H. lia.
Qed.

Lemma range_sum_shift (f : nat -> Q) (d : nat) : forall n lo,
  range_sum (lo + d) n f == range_sum lo n (fun i => f (i + d)%nat).
Proof.
  induction n as [| n IH]; intros lo; simpl; [reflexivity |].
  rewrite <- (IH (S lo)). reflexivity.
Qed.

Lemma range_sum_app (f : nat -> Q) : forall a b lo,
  range_sum lo (a + b) f == range_sum lo a f + range_sum (lo + a) b f.
Proof.
  induction a as [| a IH]; intros b lo; simpl.
  - rewrite Nat.add_0_r. ring.
  - rewrite IH. replace (S lo + a)%nat with (lo + S a)%nat by lia. ring.
Qed.

Lemma range_sum_last (f : nat -> Q) (n lo : nat) :
  range_sum lo (S n) f == range_sum lo n f + f (lo + n)%nat.
Proof.
  replace (S n) with (n + 1)%nat by lia. rewrite range_sum_app. simpl. ring.
Qed.

Lemma range_sum_opp (f : nat -> Q) : forall n lo,
  range_sum lo n (fun i => - f i) == - range_sum lo n f.
Proof.
  induction n as [| n IH]; intros lo; simpl; [reflexivity |].
  rewrite IH. ring.
Qed.

(** Summing from the other end. *)
Lemma range_sum_rev (f : nat -> Q) : forall n,
  range_sum 0 n f == range_sum 0 n (fun i => f (n - 1 - i)%nat).
Proof.
  induction n as [| n IH]; [reflexivity |].
  rewrite range_sum_last. cbn [range_sum Nat.add].
  assert (Htail : range_sum 1 n (fun i => f (S n - 1 - i)%nat)
                  == range_sum 0 n (fun i => f (n - 1 - i)%nat)).
  { rewrite (range_sum_shift (fun i => f (S n - 1 - i)%nat) 1 n 0).
    apply range_sum_ext. intros i Hi.
    replace (S n - 1 - (i + 1))%nat with (n - 1 - i)%nat by lia. reflexivity. }
  rewrite Htail, <- IH.
  replace (S n - 1 - 0)%nat with n by lia. ring.
Qed.

Lemma fold_left_Qplus_acc (l : list Q) : forall a,
  fold_left Qplus l a == a + fold_left Qplus l 0.
Proof.
  induction l as [| b l IH]; intros a; simpl.
  - ring.
  - rewrite (IH (a + b)), (IH (0 + b)). ring.
Qed.

Lemma sum_cons (a : Q) (l : list Q) : np.sum (a :: l) == a + np.sum l.
Proof.
  unfold np.sum. simpl. rewrite fold_left_Qplus_acc. ring.
Qed.

Lemma zip_with_length (f : Q -> Q -> Q) : forall a b,
  length (np.zip_with f a b) = Nat.min (length a) (length b).
Proof.
  induction a as [| x a IH]; intros [| y b]; simpl; auto.
Qed.

Lemma removelast_length (l : list Q) : length (removelast l) = (length l - 1)%nat.
Proof.
  induction l as [| a [| b l] IH]; simpl in *; auto. rewrite IH. lia.
Qed.

Lemma diff_length (l : list Q) : length (np.diff l) = (length l - 1)%nat.
Proof.
  unfold np.diff. rewrite zip_with_length, removelast_length.
  destruct l; simpl; lia.
Qed.

Lemma trapz_terms_cons (x0 x1 y0 y1 : Q) (xs ys : list Q) :
  trapz_terms (y0 :: y1 :: ys) (x0 :: x1 :: xs) =
  (x1 - x0) * (y1 + y0) / 2 :: trapz_terms (y1 :: ys) (x1 :: xs).
Proof. reflexivity. Qed.

Lemma trapz_equal_lengths (y x : list Q) :
  length x = length y -> np.trapz y x = Ok (np.sum (trapz_terms y x)).
Proof.
  intros H. unfold np.trapz, np.broadcast1, rbind, trapz_terms.
  rewrite diff_length, zip_with_length, removelast_length.
  replace (length (tl y)) with (length y - 1)%nat by (destruct y; simpl; lia).
  rewrite H, Nat.min_id, Nat.eqb_refl. reflexivity.
Qed.

Lemma sum_trapz_terms : forall x y,
  length x = length y ->
  np.sum (trapz_terms y x) ==
  range_sum 0 (length x - 1) (trapezoid (at_index x) (at_index y)).
Proof.
  induction x as [| x0 xs IH]; intros [| y0 ys] H; simpl in H; try discriminate.
  - reflexivity.
  - destruct xs as [| x1 xs]; destruct ys as [| y1 ys]; simpl in H;
      try discriminate.
    + reflexivity.
    + rewrite trapz_terms_cons, sum_cons.
      rewrite (IH (y1 :: ys)) by (simpl; lia).
      simpl length. replace (S (S (length xs)) - 1)%nat with (S (length xs)) by lia.
      replace (S (length xs) - 1)%nat with (length xs) by lia.
      simpl range_sum.
      rewrite (range_sum_shift _ 1 (length xs) 0). simpl plus.
      apply Qplus_comp.
      * unfold trapezoid, at_index. simpl. field.
      * apply range_sum_ext. intros i _. unfold trapezoid, at_index.
        replace (i + 1)%nat with (S i) by lia. reflexivity.
Qed.

(** [np.trapz] on a curve is the composite trapezoidal sum. *)
Lemma trapz_is_trapezoid_sum (y x : list Q) :
  length x = length y ->
  exists t, np.trapz y x = Ok t /\
            t == trapezoid_sum (length x) (at_index x) (at_index y).
Proof.
  intros H. exists (np.sum (trapz_terms y x)). split.
  - now apply trapz_equal_lengths.
  - now apply sum_trapz_terms.
Qed.

End Trapz.

(** ** Trapezoidal integration at any number type *)

Section AnyArithmetic.
Variable A : anynum.arith.

(** The one law of arithmetic the statements of this section use: the
    sum of two numbers does not depend on their order. *)
Hypothesis add_comm :
  forall a b : anynum.num A, anynum.add A a b = anynum.add A b a.

Lemma any_zip_with_length (f : anynum.num A -> anynum.num A -> anynum.num A) :
  forall a b,
    length (anynum.zip_with A f a b) = Nat.min (length a) (length b).
Proof.
  induction a as [| x a IH]; intros [| y b]; simpl; auto.
Qed.

Lemma any_removelast_length (l : list (anynum.num A)) :
  length (removelast l) = (length l - 1)%nat.
Proof.
  induction l as [| a [| b l] IH]; simpl in *; auto. rewrite IH. lia.
Qed.

Lemma any_diff_length (l : list (anynum.num A)) :
  length (anynum.diff A l) = (length l - 1)%nat.
Proof.
  unfold anynum.diff. rewrite any_zip_with_length, any_removelast_length.
  destruct l; simpl; lia.
Qed.


(** The terms [np.trapz] hands to the summation are the trapezoids of the
    segments, in order. *)
Lemma any_trapz_terms : forall x y : list (anynum.num A),
  length x = length y ->
  map (fun t => anynum.div A t (anynum.two A))
    (anynum.zip_with A (anynum.mul A) (anynum.diff A x)
       (anynum.zip_with A (anynum.add A) (tl y) (removelast y)))
  = anynum.trapezoids A x y 0 (length x - 1).
Proof.
  induction x as [| x0 xs IH]; intros [| y0 ys] H; simpl in H; try discriminate.
  - reflexivity.
  - destruct xs as [| x1 xs]; destruct ys as [| y1 ys]; simpl in H;
      try discriminate.
    + reflexivity.
    + specialize (IH (y1 :: ys) ltac:(simpl; lia)).
      unfold anynum.trapezoids in *.
      replace (length (x0 :: x1 :: xs) - 1)%nat with (S (length xs))
        by (simpl; lia).
      replace (length (x1 :: xs) - 1)%nat with (length xs) in IH
        by (simpl; lia).
      cbn [seq map]. rewrite <- seq_shift, map_map.
      change (anynum.diff A (x0 :: x1 :: xs))
        with (anynum.sub A x1 x0 :: anynum.diff A (x1 :: xs)).
      change (tl (y0 :: y1 :: ys)) with (y1 :: tl (y1 :: ys)).
      change (removelast (y0 :: y1 :: ys)) with (y0 :: removelast (y1 :: ys)).
      cbn [anynum.zip_with map]. f_equal.
      * unfold anynum.trapezoid, anynum.at_index. cbn [nth].
        now rewrite (add_comm y1 y0).
      * exact IH.
Qed.

(** [np.trapz] on a curve sums the trapezoids of its segments. *)
Lemma any_trapz_sums_trapezoids (y x : list (anynum.num A)) :
  length x = length y ->
  anynum.trapz A y x
  = Ok (anynum.reduce A (anynum.trapezoids A x y 0 (length x - 1))).
Proof.
  intros H. unfold anynum.trapz, anynum.broadcast1, rbind.
  rewrite any_diff_length, any_zip_with_length, any_removelast_length.
  replace (length (tl y)) with (length y - 1)%nat by (destruct y; simpl; lia).
  rewrite H, Nat.min_id, Nat.eqb_refl. rewrite <- H.
  now rewrite any_trapz_terms.
Qed.















End AnyArithmetic.



(** Addition of rationals is commutative on the nose. *)
Lemma exact_add_comm (a b : anynum.num exact) :
  anynum.add exact a b = anynum.add exact b a.
Proof.
  cbn [anynum.add exact]. destruct a as [an ad], b as [bn bd].
  unfold Qplus. cbn [Qnum Qden]. f_equal; [ring | apply Pos.mul_comm].
Qed.

(** *** The modules above are the instance at the rationals *)

Lemma zip_with_exact (f : Q -> Q -> Q) (a b : list Q) :
  np.zip_with f a b = anynum.zip_with exact f a b.
Proof. reflexivity. Qed.

Lemma trapz_exact (y x : list Q) : np.trapz y x = anynum.trapz exact y x.
Proof. reflexivity. Qed.

Lemma max1_exact (l : list Q) : np.max1 l = anynum.max1 exact l.
Proof. reflexivity. Qed.

Lemma argmax_exact (l : list Q) : np.argmax l = anynum.argmax exact l.
Proof. reflexivity. Qed.

Lemma argmin_exact (l : list Q) :
  np.argmin (np.abs l) = anynum.argmin exact (anynum.abs exact l).
Proof. reflexivity. Qed.

Lemma item_exact (l : list Q) (i : nat) : np.item l i = anynum.item exact l i.
Proof. reflexivity. Qed.

(** [np.trapz] sums the trapezoids of the segments, in order. *)
Lemma trapz_sums_trapezoids (y x : list Q) :
  length x = length y ->
  np.trapz y x = Ok (np.sum (trapezoids x y 0 (length x - 1))).
Proof.
  intros H. rewrite trapz_exact.
  exact (any_trapz_sums_trapezoids exact exact_add_comm y x H).
Qed.

(** ** The weighted-integral analyzer *)

Section Phonon.
Import qe_phonon_analysis.

Lemma at_index_zip_with (f : Q -> Q -> Q) : forall a b i,
  (i < length a)%nat -> (i < length b)%nat ->
  at_index (np.zip_with f a b) i = f (at_index a i) (at_index b i).
Proof.
  unfold at_index.
  induction a as [| x a IH]; intros [| y b] i Ha Hb; simpl in *; try lia.
  destruct i as [| i]; [reflexivity |]. apply IH; lia.
Qed.

(** The numerator of the average is the trapezoidal sum of x * y. *)
Lemma weighted_integral_is_trapezoid_sum (frequency dos : list Q) :
  length frequency = length dos ->
  exists t, weighted_integral frequency dos = Ok t /\
            t == trapezoid_sum (length frequency) (at_index frequency)
                   (fun i => at_index frequency i * at_index dos i).
Proof.
  intros H. unfold weighted_integral, np.broadcast1, rbind.
  rewrite (proj2 (Nat.eqb_eq _ _) H).
  assert (Hlen : length frequency = length (np.zip_with Qmult frequency dos)).
  { rewrite zip_with_length. lia. }
  destruct (trapz_is_trapezoid_sum _ _ Hlen) as (t & Ht & Heq).
  exists t. split; [exact Ht |]. rewrite Heq. unfold trapezoid_sum.
  apply range_sum_ext. intros i Hi. unfold trapezoid.
  rewrite !at_index_zip_with by lia. reflexivity.
Qed.

(** What the function does once its three reductions have succeeded. *)
Lemma analyze_phonon_run (frequency dos : list Q) (w : world)
      (total max_freq weighted : Q) :
  np.trapz dos frequency = Ok total ->
  np.max1 frequency = Ok max_freq ->
  weighted_integral frequency dos = Ok weighted ->
  analyze_phonon_properties frequency dos w =
  (Ok (max_freq, np.true_divide weighted total, total),
   printed w
     [Text "Phonon analysis:";
      Fmt "  Maximum frequency: " (Finite max_freq) 1 " cm⁻¹";
      Fmt "  Average frequency: " (np.true_divide weighted total) 1 " cm⁻¹";
      Fmt "  Total phonon states: " (Finite total) 1 EmptyString]).
Proof.
  intros Ht Hm Hw. unfold analyze_phonon_properties, bind, lift, print, ret, printed.
  rewrite Ht, Hm, Hw. simpl. repeat rewrite <- app_assoc. reflexivity.
Qed.

Lemma true_divide_nonzero (a b : Q) :
  ~ b == 0 -> np.true_divide a b = Finite (a / b).
Proof.
  intros H. unfold np.true_divide.
  destruct (Qeq_bool b 0) eqn:E; [| reflexivity].
  apply Qeq_bool_iff in E. contradiction.
Qed.

Lemma true_divide_zero (a b : Q) : b == 0 -> np.true_divide a b = NonFinite.
Proof.
  intros H. unfold np.true_divide. apply Qeq_bool_iff in H. now rewrite H.
Qed.

(** The numerator of the average sums the trapezoids of x * y over x. *)
Lemma weighted_integral_sums_trapezoids (frequency dos : list Q) :
  length frequency = length dos ->
  weighted_integral frequency dos
  = Ok (np.sum (weighted_trapezoids frequency dos 0 (length frequency - 1))).
Proof.
  intros H. unfold weighted_integral, np.broadcast1, rbind.
  rewrite (proj2 (Nat.eqb_eq _ _) H).
  rewrite trapz_sums_trapezoids by (rewrite zip_with_length; lia).
  do 2 f_equal. unfold trapezoids, weighted_trapezoids.
  apply map_ext_in. intros i Hi. apply in_seq in Hi. unfold trapezoid.
  rewrite !at_index_zip_with by lia. reflexivity.
Qed.



(** C3 (as amended).  For every curve with at least one point whose
    trapezoidal integral of y over x is zero, the analyzer does not fail:
    it has no guard, performs the division
    np.trapz(frequency * dos, frequency) / total_states as for any other
    curve, prints its outcome as the average frequency and returns the
    three values. *)
Theorem phonon_zero_integral_divides_unguarded
        (frequency dos : list Q) (w : world) :
  length frequency = length dos ->
  frequency <> [] ->
  trapezoid_sum (length frequency) (at_index frequency) (at_index dos) == 0 ->
  exists max_freq weighted total_states,
    np.trapz dos frequency = Ok total_states /\
    weighted_integral frequency dos = Ok weighted /\
    analyze_phonon_properties frequency dos w
    = (Ok (max_freq, np.true_divide weighted total_states, total_states),
       printed w
         [Text "Phonon analysis:";
          Fmt "  Maximum frequency: " (Finite max_freq) 1 " cm⁻¹";
          Fmt "  Average frequency: "
            (np.true_divide weighted total_states) 1 " cm⁻¹";
          Fmt "  Total phonon states: " (Finite total_states) 1 EmptyString]).
Proof.
  intros Hlen Hne _.
  destruct (max1_spec frequency Hne) as (mx & Hm & _).
  exists mx, (np.sum (weighted_trapezoids frequency dos 0 (length frequency - 1))),
    (np.sum (trapezoids frequency dos 0 (length frequency - 1))).
  split; [exact (trapz_sums_trapezoids dos frequency Hlen) |].
  split; [exact (weighted_integral_sums_trapezoids frequency dos Hlen) |].
  exact (analyze_phonon_run frequency dos w _ mx _
           (trapz_sums_trapezoids dos frequency Hlen) Hm
           (weighted_integral_sums_trapezoids frequency dos Hlen)).
Qed.

Lemma phonon_zero_integral_divides_unguarded_witness :
  length flat_frequency = length flat_dos /\
  flat_frequency <> [] /\
  trapezoid_sum (length flat_frequency) (at_index flat_frequency)
    (at_index flat_dos) == 0 /\
  exists max_freq weighted total_states,
    np.trapz flat_dos flat_frequency = Ok total_states /\
    weighted_integral flat_frequency flat_dos = Ok weighted /\
    analyze_phonon_properties flat_frequency flat_dos empty_world
    = (Ok (max_freq, np.true_divide weighted total_states, total_states),
       printed empty_world
         [Text "Phonon analysis:";
          Fmt "  Maximum frequency: " (Finite max_freq) 1 " cm⁻¹";
          Fmt "  Average frequency: "
            (np.true_divide weighted total_states) 1 " cm⁻¹";
          Fmt "  Total phonon states: " (Finite total_states) 1 EmptyString]).
Proof.
  assert (Hlen : length flat_frequency = length flat_dos) by reflexivity.
  assert (Hne : flat_frequency <> []) by discriminate.
  assert (Hz : trapezoid_sum (length flat_frequency) (at_index flat_frequency)
                 (at_index flat_dos) == 0) by reflexivity.
  split; [exact Hlen | split; [exact Hne | split; [exact Hz |]]].
  exact (phonon_zero_integral_divides_unguarded
           flat_frequency flat_dos empty_world Hlen Hne Hz).
Defined.

(** The values the analyzer returns, and the same at the rationals of
    [anynum]: the two differ by the division only, which numpy's
    [true_divide] carries out on a zero divisor too. *)
Lemma analyze_phonon_result (frequency dos : list Q) (w : world) :
  fst (analyze_phonon_properties frequency dos w)
  = (total_states <~ np.trapz dos frequency ;;
     max_freq <~ np.max1 frequency ;;
     weighted <~ weighted_integral frequency dos ;;
     Ok (max_freq, np.true_divide weighted total_states, total_states)).
Proof.
  unfold analyze_phonon_properties, bind, lift, rbind.
  destruct (np.trapz dos frequency); [| reflexivity].
  destruct (np.max1 frequency); [| reflexivity].
  destruct (weighted_integral frequency dos); reflexivity.
Qed.

Lemma phonon_values_exact (frequency dos : list Q) :
  anynum.phonon_values exact frequency dos
  = (total_states <~ np.trapz dos frequency ;;
     max_freq <~ np.max1 frequency ;;
     weighted <~ weighted_integral frequency dos ;;
     Ok (max_freq, weighted / total_states, total_states)).
Proof.
  unfold anynum.phonon_values, weighted_integral.
  change (anynum.trapz exact dos frequency) with (np.trapz dos frequency).
  destruct (np.trapz dos frequency); [| reflexivity]. cbn [rbind].
  change (anynum.max1 exact frequency) with (np.max1 frequency).
  destruct (np.max1 frequency); [| reflexivity]. cbn [rbind].
  change (anynum.broadcast1 exact (anynum.mul exact) frequency dos)
    with (np.broadcast1 Qmult frequency dos).
  destruct (np.broadcast1 Qmult frequency dos); reflexivity.
Qed.

(** In float64 the grid [rounded_energy] is symmetric about 0 and the
    density [mirrored_dos64] is symmetric on it, yet the average
    frequency computed is not 0: it is a residue of the rounding errors,
    below 1e-15 in absolute value. *)
Lemma symmetric_curve_residue_in_binary64 :
  exists max_freq avg_freq total_states,
    anynum.phonon_values binary64 rounded_energy mirrored_dos64
    = Ok (max_freq, avg_freq, total_states) /\
    PrimFloat.eqb avg_freq (anynum.zero binary64) = false /\
    PrimFloat.ltb (PrimFloat.abs avg_freq) rounding_bound = true.
Proof.
  do 3 eexists. split; [vm_compute; reflexivity |].
  split; vm_compute; reflexivity.
Qed.

(** On the flat curve the integral is zero, yet the analyzer returns
    normally, with a non-finite average: no error result is produced. *)
Lemma phonon_flat_curve_returns_normally :
  trapezoid_sum (length flat_frequency) (at_index flat_frequency)
    (at_index flat_dos) == 0 /\
  (exists total_states,
      fst (analyze_phonon_properties flat_frequency flat_dos empty_world)
      = Ok (1, NonFinite, total_states)) /\
  ~ (exists e,
        fst (analyze_phonon_properties flat_frequency flat_dos empty_world)
        = Raise e).
Proof.
  split; [reflexivity | split].
  - eexists. vm_compute. reflexivity.
  - intros (e & H). vm_compute in H. discriminate H.
Qed.

End Phonon.

(** ** Symmetric curves *)

Section Symmetry.
Import qe_phonon_analysis.

(** On a grid symmetric about 0 carrying symmetric values, the trapezoid
    of x*y on a segment is the opposite of the one on the mirrored
    segment. *)
Lemma mirrored_trapezoid (n : nat) (x y : nat -> Q) (i : nat) :
  (forall k, (k < n)%nat -> x k == - x (n - 1 - k)%nat) ->
  (forall k, (k < n)%nat -> y k == y (n - 1 - k)%nat) ->
  (i < n - 1)%nat ->
  trapezoid x (fun k => x k * y k) (n - 1 - 1 - i)
  == - trapezoid x (fun k => x k * y k) i.
Proof.
  intros Hx Hy Hi. unfold trapezoid.
  replace (S (n - 1 - 1 - i)) with (n - 1 - i)%nat by lia.
  replace (n - 1 - 1 - i)%nat with (n - 1 - S i)%nat by lia.
  assert (Hx0 := Hx i ltac:(lia)). assert (Hx1 := Hx (S i) ltac:(lia)).
  assert (Hy0 := Hy i ltac:(lia)). assert (Hy1 := Hy (S i) ltac:(lia)).
  set (a := x (n - 1 - i)%nat) in *. set (b := x (n - 1 - S i)%nat) in *.
  set (c := y (n - 1 - i)%nat) in *. set (d := y (n - 1 - S i)%nat) in *.
  rewrite Hx0, Hx1, Hy0, Hy1. field.
Qed.

Lemma symmetric_trapezoid_sum_vanishes (n : nat) (x y : nat -> Q) :
  (forall k, (k < n)%nat -> x k == - x (n - 1 - k)%nat) ->
  (forall k, (k < n)%nat -> y k == y (n - 1 - k)%nat) ->
  trapezoid_sum n x (fun k => x k * y k) == 0.
Proof.
  intros Hx Hy. unfold trapezoid_sum.
  set (T := trapezoid x (fun k => x k * y k)).
  assert (H : range_sum 0 (n - 1) T == - range_sum 0 (n - 1) T).
  { rewrite (range_sum_rev T (n - 1)) at 1.
    rewrite <- range_sum_opp. apply range_sum_ext. intros i Hi.
    apply mirrored_trapezoid; [assumption | assumption | lia]. }
  lra.
Qed.

End Symmetry.

(** ** First-occurrence extremum search *)

Section ArgExtremum.

Lemma Qle_bool_false (a b : Q) : Qle_bool a b = false -> b < a.
Proof.
  intros E. apply Qnot_le_lt. intros H. apply Qle_bool_iff in H. congruence.
Qed.

Lemma at_index_app_l (pre l : list Q) (k : nat) :
  (k < length pre)%nat -> at_index (pre ++ l) k = at_index pre k.
Proof. intros H. unfold at_index. now apply app_nth1. Qed.

Lemma at_index_snoc (pre : list Q) (a : Q) :
  at_index (pre ++ [a]) (length pre) = a.
Proof.
  unfold at_index. rewrite app_nth2 by lia. now rewrite Nat.sub_diag.
Qed.

(** Invariant of the scan: [candidate] is the first index of the greatest
    entry among those already seen, [pre]. *)
Lemma argmax_from_spec : forall (l pre : list Q) (best : Q) (candidate : nat),
  (candidate < length pre)%nat ->
  at_index pre candidate = best ->
  (forall k, (k < length pre)%nat -> at_index pre k <= best) ->
  (forall k, (k < candidate)%nat -> at_index pre k < best) ->
  first_max_between (at_index (pre ++ l)) 0 (length (pre ++ l))
    (np.argmax_from best candidate (length pre) l).
Proof.
  induction l as [| a r IH]; intros pre best candidate Hc Hbest Hub Hfirst.
  - simpl. rewrite app_nil_r. repeat split.
    + lia.
    + assumption.
    + intros k Hk. rewrite Hbest. apply Hub. lia.
    + intros k Hk. rewrite Hbest. apply Hfirst. lia.
  - simpl np.argmax_from.
    replace (pre ++ a :: r) with ((pre ++ [a]) ++ r)
      by (rewrite <- app_assoc; reflexivity).
    replace (S (length pre)) with (length (pre ++ [a]))
      by (rewrite length_app; simpl; lia).
    destruct (Qle_bool a best) eqn:E.
    + apply Qle_bool_iff in E. apply IH.
      * rewrite length_app. simpl. lia.
      * rewrite at_index_app_l by assumption. assumption.
      * intros k Hk. rewrite length_app in Hk. simpl in Hk.
        destruct (Nat.eq_dec k (length pre)) as [-> | Hne].
        -- now rewrite at_index_snoc.
        -- rewrite at_index_app_l by lia. apply Hub. lia.
      * intros k Hk. rewrite at_index_app_l by lia. now apply Hfirst.
    + apply Qle_bool_false in E. apply IH.
      * rewrite length_app. simpl. lia.
      * apply at_index_snoc.
      * intros k Hk. rewrite length_app in Hk. simpl in Hk.
        destruct (Nat.eq_dec k (length pre)) as [-> | Hne].
        -- rewrite at_index_snoc. apply Qle_refl.
        -- rewrite at_index_app_l by lia. apply Qlt_le_weak.
           eapply Qle_lt_trans; [apply Hub; lia | exact E].
      * intros k Hk. rewrite at_index_app_l by lia.
        eapply Qle_lt_trans; [apply Hub; lia | exact E].
Qed.

Lemma argmin_from_spec : forall (l pre : list Q) (best : Q) (candidate : nat),
  (candidate < length pre)%nat ->
  at_index pre candidate = best ->
  (forall k, (k < length pre)%nat -> best <= at_index pre k) ->
  (forall k, (k < candidate)%nat -> best < at_index pre k) ->
  first_min_between (at_index (pre ++ l)) 0 (length (pre ++ l))
    (np.argmin_from best candidate (length pre) l).
Proof.
  induction l as [| a r IH]; intros pre best candidate Hc Hbest Hlb Hfirst.
  - simpl. rewrite app_nil_r. repeat split.
    + lia.
    + assumption.
    + intros k Hk. rewrite Hbest. apply Hlb. lia.
    + intros k Hk. rewrite Hbest. apply Hfirst. lia.
  - simpl np.argmin_from.
    replace (pre ++ a :: r) with ((pre ++ [a]) ++ r)
      by (rewrite <- app_assoc; reflexivity).
    replace (S (length pre)) with (length (pre ++ [a]))
      by (rewrite length_app; simpl; lia).
    destruct (Qle_bool best a) eqn:E.
    + apply Qle_bool_iff in E. apply IH.
      * rewrite length_app. simpl. lia.
      * rewrite at_index_app_l by assumption. assumption.
      * intros k Hk. rewrite length_app in Hk. simpl in Hk.
        destruct (Nat.eq_dec k (length pre)) as [-> | Hne].
        -- now rewrite at_index_snoc.
        -- rewrite at_index_app_l by lia. apply Hlb. lia.
      * intros k Hk. rewrite at_index_app_l by lia. now apply Hfirst.
    + apply Qle_bool_false in E. apply IH.
      * rewrite length_app. simpl. lia.
      * apply at_index_snoc.
      * intros k Hk. rewrite length_app in Hk. simpl in Hk.
        destruct (Nat.eq_dec k (length pre)) as [-> | Hne].
        -- rewrite at_index_snoc. apply Qle_refl.
        -- rewrite at_index_app_l by lia. apply Qlt_le_weak.
           eapply Qlt_le_trans; [exact E | apply Hlb; lia].
      * intros k Hk. rewrite at_index_app_l by lia.
        eapply Qlt_le_trans; [exact E | apply Hlb; lia].
Qed.

(** [np.argmax] finds the first index of the greatest entry. *)
Lemma argmax_spec (l : list Q) :
  l <> [] ->
  exists j, np.argmax l = Ok j /\ first_max_between (at_index l) 0 (length l) j.
Proof.
  destruct l as [| a r]; [congruence | intros _].
  exists (np.argmax_from a 0 1 r). split; [reflexivity |].
  apply (argmax_from_spec r [a] a 0%nat).
  - simpl. lia.
  - reflexivity.
  - intros k Hk. simpl in Hk. replace k with 0%nat by lia. apply Qle_refl.
  - intros k Hk. lia.
Qed.

Lemma argmin_spec (l : list Q) :
  l <> [] ->
  exists j, np.argmin l = Ok j /\ first_min_between (at_index l) 0 (length l) j.
Proof.
  destruct l as [| a r]; [congruence | intros _].
  exists (np.argmin_from a 0 1 r). split; [reflexivity |].
  apply (argmin_from_spec r [a] a 0%nat).
  - simpl. lia.
  - reflexivity.
  - intros k Hk. simpl in Hk. replace k with 0%nat by lia. apply Qle_refl.
  - intros k Hk. lia.
Qed.

(** The first index of the least entry is unique. *)
Lemma first_min_unique (y : nat -> Q) (lo hi j j' : nat) :
  first_min_between y lo hi j -> first_min_between y lo hi j' -> j = j'.
Proof.
  intros (Hj & Hlb & Hfirst) (Hj' & Hlb' & Hfirst').
  destruct (Nat.lt_trichotomy j j') as [Hlt | [Heq | Hgt]]; [| assumption |].
  - exfalso. apply (Qlt_not_le _ _ (Hfirst' j ltac:(lia))). apply Hlb. lia.
  - exfalso. apply (Qlt_not_le _ _ (Hfirst j' ltac:(lia))). apply Hlb'. lia.
Qed.

End ArgExtremum.

(** ** The PDOS analysis of one curve *)

Section Pdos.
Import qe_pdos_analysis.

Lemma first_min_between_ext (y y' : nat -> Q) (lo hi j : nat) :
  (forall k, y k = y' k) ->
  first_min_between y lo hi j -> first_min_between y' lo hi j.
Proof.
  intros Hext (Hj & Hlb & Hfirst). repeat split; try lia.
  - intros k Hk. rewrite <- !Hext. now apply Hlb.
  - intros k Hk. rewrite <- !Hext. now apply Hfirst.
Qed.

Lemma at_index_abs (l : list Q) (k : nat) :
  at_index (np.abs l) k = Qabs (at_index l k).
Proof. exact (map_nth Qabs l 0 k). Qed.

(** The script's [np.argmin(np.abs(energy))] is the Fermi index. *)
Lemma fermi_index_computed (energy : list Q) (f : nat) :
  fermi_index energy f -> np.argmin (np.abs energy) = Ok f.
Proof.
  intros Hf.
  assert (Hne : np.abs energy <> []).
  { destruct Hf as (Hlt & _). destruct energy; simpl in *; [lia | discriminate]. }
  destruct (argmin_spec _ Hne) as (j & Hj & Hmin).
  rewrite Hj. f_equal.
  unfold np.abs in Hmin at 2. rewrite length_map in Hmin.
  apply (first_min_between_ext _ (fun k => Qabs (at_index energy k))) in Hmin;
    [| apply at_index_abs].
  exact (first_min_unique _ _ _ _ _ Hmin Hf).
Qed.

Lemma fermi_index_exists (energy : list Q) :
  energy <> [] -> exists f, fermi_index energy f.
Proof.
  intros Hne.
  assert (Hne' : np.abs energy <> []) by (destruct energy; [congruence | discriminate]).
  destruct (argmin_spec _ Hne') as (j & _ & Hmin). exists j.
  unfold np.abs in Hmin at 2. rewrite length_map in Hmin.
  apply (first_min_between_ext _ (fun k => Qabs (at_index energy k))) in Hmin;
    [exact Hmin | apply at_index_abs].
Qed.

Lemma item_in_range (l : list Q) (i : nat) :
  (i < length l)%nat -> np.item l i = Ok (at_index l i).
Proof.
  intros H. unfold np.item, at_index. now rewrite (nth_error_nth' l 0 H).
Qed.

Lemma at_index_firstn (f : nat) (l : list Q) (k : nat) :
  (k < f)%nat -> at_index (firstn f l) k = at_index l k.
Proof.
  intros H. unfold at_index. rewrite nth_firstn.
  destruct (Nat.ltb_spec k f); [reflexivity | lia].
Qed.

Lemma at_index_skipn (f : nat) (l : list Q) (k : nat) :
  at_index (skipn f l) k = at_index l (f + k).
Proof. apply nth_skipn. Qed.

(** The integral of the points strictly before index [f]. *)
Lemma trapz_before (energy pdos : list Q) (f : nat) :
  length energy = length pdos -> (f <= length energy)%nat ->
  exists t, np.trapz (firstn f pdos) (firstn f energy) = Ok t /\
            t == range_sum 0 (f - 1) (trapezoid (at_index energy) (at_index pdos)).
Proof.
  intros Hlen Hf.
  assert (Hl : length (firstn f energy) = length (firstn f pdos))
    by (rewrite !length_firstn; lia).
  destruct (trapz_is_trapezoid_sum _ _ Hl) as (t & Ht & Heq).
  exists t. split; [exact Ht |]. rewrite Heq. unfold trapezoid_sum.
  rewrite length_firstn. replace (Nat.min f (length energy)) with f by lia.
  apply range_sum_ext. intros i Hi. unfold trapezoid.
  rewrite !at_index_firstn by lia. reflexivity.
Qed.

(** The integral of the points from index [f] on. *)
Lemma trapz_from (energy pdos : list Q) (f : nat) :
  length energy = length pdos ->
  exists t, np.trapz (skipn f pdos) (skipn f energy) = Ok t /\
            t == range_sum f (length energy - f - 1)
                   (trapezoid (at_index energy) (at_index pdos)).
Proof.
  intros Hlen.
  assert (Hl : length (skipn f energy) = length (skipn f pdos))
    by (rewrite !length_skipn; lia).
  destruct (trapz_is_trapezoid_sum _ _ Hl) as (t & Ht & Heq).
  exists t. split; [exact Ht |]. rewrite Heq. unfold trapezoid_sum.
  rewrite length_skipn.
  rewrite (range_sum_shift (trapezoid (at_index energy) (at_index pdos)) f
             (length energy - f - 1) 0 : range_sum f _ _ == _).
  apply range_sum_ext. intros i Hi. unfold trapezoid.
  rewrite !at_index_skipn.
  replace (f + S i)%nat with (S (i + f)) by lia.
  replace (f + i)%nat with (i + f)%nat by lia. reflexivity.
Qed.

Lemma argmax_before (pdos : list Q) (f : nat) :
  (0 < f <= length pdos)%nat ->
  exists v, np.argmax (firstn f pdos) = Ok v /\
            first_max_between (at_index pdos) 0 f v.
Proof.
  intros Hf.
  assert (Hl : length (firstn f pdos) = f) by (rewrite length_firstn; lia).
  destruct (argmax_spec (firstn f pdos)) as (v & Hv & (Hr & Hub & Hfirst)).
  { intros E. rewrite E in Hl. simpl in Hl. lia. }
  rewrite Hl in *. exists v. split; [exact Hv |]. repeat split; try lia.
  - intros k Hk. rewrite <- (at_index_firstn f pdos k), <- (at_index_firstn f pdos v)
      by lia. now apply Hub.
  - intros k Hk. rewrite <- (at_index_firstn f pdos k), <- (at_index_firstn f pdos v)
      by lia. now apply Hfirst.
Qed.

Lemma argmax_from_index (pdos : list Q) (f : nat) :
  (f < length pdos)%nat ->
  exists c, np.argmax (skipn f pdos) = Ok c /\
            first_max_between (at_index pdos) f (length pdos) (f + c).
Proof.
  intros Hf.
  assert (Hl : length (skipn f pdos) = (length pdos - f)%nat) by apply length_skipn.
  destruct (argmax_spec (skipn f pdos)) as (c & Hc & (Hr & Hub & Hfirst)).
  { intros E. rewrite E in Hl. simpl in Hl. lia. }
  rewrite Hl in *. exists c. split; [exact Hc |]. repeat split; try lia.
  - intros k Hk. specialize (Hub (k - f)%nat ltac:(lia)).
    rewrite !at_index_skipn in Hub.
    now replace (f + (k - f))%nat with k in Hub by lia.
  - intros k Hk. specialize (Hfirst (k - f)%nat ltac:(lia)).
    rewrite !at_index_skipn in Hfirst.
    now replace (f + (k - f))%nat with k in Hfirst by lia.
Qed.

(** What the loop body computes for a curve with a point on each side of
    the Fermi index. *)
Lemma analyze_atom_spec (energy pdos : list Q) (f : nat) :
  length energy = length pdos ->
  fermi_index energy f ->
  (0 < f)%nat ->
  exists r v c,
    analyze_atom energy pdos = Ok r /\
    valence_contribution r
    == range_sum 0 (f - 1) (trapezoid (at_index energy) (at_index pdos)) /\
    conduction_contribution r
    == range_sum f (length energy - f - 1)
         (trapezoid (at_index energy) (at_index pdos)) /\
    total_contribution r = valence_contribution r + conduction_contribution r /\
    first_max_between (at_index pdos) 0 f v /\
    valence_peak_energy r = at_index energy v /\
    first_max_between (at_index pdos) f (length pdos) c /\
    conduction_peak_energy r = at_index energy c.
Proof.
  intros Hlen Hf Hpos.
  assert (Hlt : (f < length energy)%nat) by (destruct Hf as (? & _); lia).
  destruct (trapz_before energy pdos f Hlen ltac:(lia)) as (tv & Htv & Hv).
  destruct (trapz_from energy pdos f Hlen) as (tc & Htc & Hc).
  destruct (argmax_before pdos f ltac:(lia)) as (v & Hav & Hvmax).
  destruct (argmax_from_index pdos f ltac:(lia)) as (c & Hac & Hcmax).
  destruct (max1_spec pdos) as (mx & Hmx & _).
  { destruct pdos; simpl in *; [lia | discriminate]. }
  assert (Hvlt : (v < length energy)%nat) by (destruct Hvmax as (? & _); lia).
  assert (Hclt : (f + c < length energy)%nat) by (destruct Hcmax as (? & _); lia).
  exists (mk_contributions tv tc (tv + tc)
            (at_index energy v) (at_index energy (f + c)) mx), v, (f + c)%nat.
  split; [| simpl; repeat split; solve [assumption | apply Hvmax | apply Hcmax]].
  unfold analyze_atom.
  rewrite (fermi_index_computed energy f Hf). cbn [rbind].
  rewrite Htv. cbn [rbind]. rewrite Htc. cbn [rbind].
  rewrite Hav. cbn [rbind]. rewrite Hac. cbn [rbind].
  rewrite (item_in_range energy v Hvlt). cbn [rbind].
  rewrite (item_in_range energy (f + c) Hclt). cbn [rbind].
  rewrite Hmx. reflexivity.
Qed.


(** One curve in the dictionary: the loop runs its body once. *)
Lemma analyze_single_curve (energy pdos : list Q) (atom label : string) :
  analyze_pdos_contributions energy [(atom, Some pdos)] [label] =
  (r <~ analyze_atom energy pdos ;; Ok [(label, r)]).
Proof.
  unfold analyze_pdos_contributions. simpl.
  destruct (analyze_atom energy pdos); reflexivity.
Qed.

(** *** The loop over the dictionary *)

Lemma dict_get_set_same {V : Type} (d : list (string * V)) (key : string) (v : V) :
  dict_get (dict_set d key v) key = Some v.
Proof.
  induction d as [| [k0 v0] d IH]; simpl.
  - now rewrite String.eqb_refl.
  - destruct (String.eqb k0 key) eqn:E; simpl; rewrite E; [reflexivity | exact IH].
Qed.

Lemma dict_get_set_other {V : Type} (d : list (string * V)) (key key' : string) (v : V) :
  key <> key' -> dict_get (dict_set d key v) key' = dict_get d key'.
Proof.
  intros Hne. induction d as [| [k0 v0] d IH]; simpl.
  - now rewrite (proj2 (String.eqb_neq key key') Hne).
  - destruct (String.eqb k0 key) eqn:E; simpl.
    + apply String.eqb_eq in E. subst k0.
      now rewrite (proj2 (String.eqb_neq key key') Hne).
    + destruct (String.eqb k0 key'); [reflexivity | exact IH].
Qed.

(** With distinct labels, every curve of the dictionary ends up under its
    own label, and the labels the loop does not assign keep what they had. *)
Lemma analyze_items_spec (energy : list Q) (atom_labels : list string) :
  NoDup atom_labels ->
  forall (items : list (string * option (list Q))) (i : nat)
         (acc : list (string * contributions)),
    (forall atom pdos, In (atom, Some pdos) items ->
                       exists r, analyze_atom energy pdos = Ok r) ->
    (i + length items <= length atom_labels)%nat ->
    exists results,
      analyze_items energy items atom_labels i acc = Ok results /\
      (forall k atom pdos label,
          nth_error items k = Some (atom, Some pdos) ->
          nth_error atom_labels (i + k) = Some label ->
          exists r, analyze_atom energy pdos = Ok r /\
                    dict_get results label = Some r) /\
      (forall label,
          (forall k atom pdos,
              nth_error items k = Some (atom, Some pdos) ->
              nth_error atom_labels (i + k) <> Some label) ->
          dict_get results label = dict_get acc label).
Proof.
  intros Hnodup.
  induction items as [| [atom [pdos |]] rest IH]; intros i acc Hok Hlen.
  - exists acc. split; [reflexivity | split].
    + intros k a p l H. destruct k; discriminate H.
    + reflexivity.
  - destruct (Hok atom pdos (or_introl eq_refl)) as (r0 & Hr0).
    simpl in Hlen.
    destruct (nth_error atom_labels i) as [l0 |] eqn:Hl0;
      [| apply nth_error_None in Hl0; lia].
    destruct (IH (S i) (dict_set acc l0 r0)) as (results & Hrun & Hsome & Hrest).
    { intros a p Hin. apply (Hok a p). now right. }
    { lia. }
    assert (Hlater : forall k a p,
               nth_error rest k = Some (a, Some p) ->
               nth_error atom_labels (S i + k) <> Some l0).
    { intros k a p _ Hk.
      assert (Hi : (i < length atom_labels)%nat) by (apply nth_error_Some; congruence).
      pose proof (proj1 (NoDup_nth_error atom_labels) Hnodup i (S i + k)%nat Hi) as Hinj.
      rewrite Hl0, Hk in Hinj. specialize (Hinj eq_refl). lia. }
    exists results. split; [| split].
    + simpl. rewrite Hr0. cbn [rbind]. unfold label_at. rewrite Hl0. exact Hrun.
    + intros k a p l Hk Hl. destruct k as [| k].
      * simpl in Hk. injection Hk as -> ->. rewrite Nat.add_0_r in Hl.
        assert (l = l0) by congruence. subst l.
        exists r0. split; [exact Hr0 |].
        rewrite (Hrest l0 Hlater). apply dict_get_set_same.
      * simpl in Hk. apply (Hsome k a p l Hk).
        now replace (S i + k)%nat with (i + S k)%nat by lia.
    + intros l Hfree.
      assert (Hne : l0 <> l).
      { intros ->. apply (Hfree 0%nat atom pdos eq_refl).
        now rewrite Nat.add_0_r. }
      rewrite Hrest; [now apply dict_get_set_other |].
      intros k a p Hk. replace (S i + k)%nat with (i + S k)%nat by lia.
      now apply (Hfree (S k) a p).
  - simpl in Hlen.
    destruct (IH (S i) acc) as (results & Hrun & Hsome & Hrest).
    { intros a p Hin. apply (Hok a p). now right. }
    { lia. }
    exists results. split; [exact Hrun | split].
    + intros k a p l Hk Hl. destruct k as [| k]; [discriminate Hk |].
      simpl in Hk. apply (Hsome k a p l Hk).
      now replace (S i + k)%nat with (i + S k)%nat by lia.
    + intros l Hfree. apply Hrest.
      intros k a p Hk. replace (S i + k)%nat with (i + S k)%nat by lia.
      now apply (Hfree (S k) a p).
Qed.

(** The whole routine: with every curve on the energy grid, a point on
    each side of the Fermi index and one distinct label per entry, each
    curve is reported under its label with the peaks and contributions of
    [analyze_atom_spec]. *)
Lemma analyze_pdos_contributions_each_curve
      (energy : list Q) (pdos_data : list (string * option (list Q)))
      (atom_labels : list string) (f : nat) :
  fermi_index energy f -> (0 < f)%nat ->
  (forall atom pdos, In (atom, Some pdos) pdos_data -> length energy = length pdos) ->
  (length pdos_data <= length atom_labels)%nat ->
  NoDup atom_labels ->
  exists results,
    analyze_pdos_contributions energy pdos_data atom_labels = Ok results /\
    forall k atom pdos label,
      nth_error pdos_data k = Some (atom, Some pdos) ->
      nth_error atom_labels k = Some label ->
      exists r v c,
        dict_get results label = Some r /\
        valence_contribution r
        == range_sum 0 (f - 1) (trapezoid (at_index energy) (at_index pdos)) /\
        conduction_contribution r
        == range_sum f (length energy - f - 1)
             (trapezoid (at_index energy) (at_index pdos)) /\
        total_contribution r = valence_contribution r + conduction_contribution r /\
        first_max_between (at_index pdos) 0 f v /\
        valence_peak_energy r = at_index energy v /\
        first_max_between (at_index pdos) f (length pdos) c /\
        conduction_peak_energy r = at_index energy c.
Proof.
  intros Hf Hpos Hgrid Hlen Hnodup.
  destruct (analyze_items_spec energy atom_labels Hnodup pdos_data 0 [])
    as (results & Hrun & Hsome & _).
  { intros atom pdos Hin.
    destruct (analyze_atom_spec energy pdos f (Hgrid atom pdos Hin) Hf Hpos)
      as (r & _ & _ & Hr & _). eauto. }
  { simpl. exact Hlen. }
  exists results. split; [exact Hrun |].
  intros k atom pdos label Hk Hl.
  destruct (Hsome k atom pdos label Hk Hl) as (r & Hr & Hget).
  destruct (analyze_atom_spec energy pdos f
              (Hgrid atom pdos (nth_error_In _ _ Hk)) Hf Hpos)
    as (r' & v & c & Hr' & Hfacts).
  assert (r' = r) by congruence. subst r'.
  exists r, v, c. split; [exact Hget | exact Hfacts].
Qed.

End Pdos.

(** ** Peaks and contributions around the Fermi index *)

Section PdosClaims.
Import qe_pdos_analysis.

Lemma peak_energy_fermi_index : fermi_index peak_energy 2.
Proof.
  destruct (fermi_index_exists peak_energy) as (f & Hf); [discriminate |].
  assert (E : Ok f = Ok 2%nat).
  { rewrite <- (fermi_index_computed peak_energy f Hf). reflexivity. }
  injection E as ->. exact Hf.
Qed.

(** C4.  For every curve (x, y) whose Fermi index f (the first index whose
    x is closest to 0) has a point strictly below it and a point at or
    after it, the peak locator reports as valence peak the x-value at the
    first index below f where y is greatest, and as conduction peak the
    x-value at the first index from f on where y is greatest.  On
    x = [-2,-1,0,1,2], y = [1,5,2,8,3] the Fermi index is 2, the valence
    peak is at x = -1 and the conduction peak at x = 1. *)
Theorem peak_locator_first_maxima :
  (forall (energy pdos : list Q) (atom label : string) (f : nat),
      length energy = length pdos ->
      fermi_index energy f ->
      (0 < f)%nat -> (f < length energy)%nat ->
      exists r v c,
        analyze_pdos_contributions energy [(atom, Some pdos)] [label]
        = Ok [(label, r)] /\
        first_max_between (at_index pdos) 0 f v /\
        valence_peak_energy r = at_index energy v /\
        first_max_between (at_index pdos) f (length pdos) c /\
        conduction_peak_energy r = at_index energy c) /\
  (fermi_index peak_energy 2 /\
   exists r,
     analyze_pdos_contributions peak_energy [("W"%string, Some peak_pdos)]
       ["W"%string]
     = Ok [("W"%string, r)] /\
     valence_peak_energy r = -1 /\
     conduction_peak_energy r = 1).
Proof.
  split.
  - intros energy pdos atom label f Hlen Hf Hpos _.
    destruct (analyze_atom_spec energy pdos f Hlen Hf Hpos)
      as (r & v & c & Hr & _ & _ & _ & Hv & Hve & Hc & Hce).
    exists r, v, c. rewrite analyze_single_curve, Hr. simpl. auto.
  - split; [exact peak_energy_fermi_index |].
    eexists. split; [vm_compute; reflexivity | split; reflexivity].
Qed.

Lemma peak_locator_first_maxima_witness :
  length peak_energy = length peak_pdos /\
  fermi_index peak_energy 2 /\
  (0 < 2)%nat /\ (2 < length peak_energy)%nat /\
  exists r v c,
    analyze_pdos_contributions peak_energy [("W"%string, Some peak_pdos)]
      ["W"%string]
    = Ok [("W"%string, r)] /\
    first_max_between (at_index peak_pdos) 0 2 v /\
    valence_peak_energy r = at_index peak_energy v /\
    first_max_between (at_index peak_pdos) 2 (length peak_pdos) c /\
    conduction_peak_energy r = at_index peak_energy c.
Proof.
  assert (Hlen : length peak_energy = length peak_pdos) by reflexivity.
  assert (Hpos : (0 < 2)%nat) by lia.
  assert (Hlt : (2 < length peak_energy)%nat) by (simpl; lia).
  split; [exact Hlen | split; [exact peak_energy_fermi_index |
    split; [exact Hpos | split; [exact Hlt |]]]].
  exact (proj1 peak_locator_first_maxima peak_energy peak_pdos
           "W"%string "W"%string 2%nat Hlen peak_energy_fermi_index Hpos Hlt).
Defined.

(** In exact arithmetic the reported total is the trapezoidal integral of
    the whole curve minus the trapezoid on the segment from index f-1 to
    index f. *)
Lemma pdos_total_is_whole_minus_straddling_exactly
      (energy pdos : list Q) (atom label : string) (f : nat) :
  length energy = length pdos ->
  fermi_index energy f ->
  (1 <= f)%nat -> (f < length energy)%nat ->
  exists r whole,
    analyze_pdos_contributions energy [(atom, Some pdos)] [label]
    = Ok [(label, r)] /\
    np.trapz pdos energy = Ok whole /\
    total_contribution r
    == whole - trapezoid (at_index energy) (at_index pdos) (f - 1).
Proof.
  intros Hlen Hf Hpos Hn.
  destruct (analyze_atom_spec energy pdos f Hlen Hf ltac:(lia))
    as (r & v & c & Hr & Hv & Hc & Ht & _).
  destruct (trapz_is_trapezoid_sum pdos energy Hlen) as (whole & Hw & Hweq).
  exists r, whole. rewrite analyze_single_curve, Hr. simpl.
  repeat split; try assumption.
  rewrite Ht, Hv, Hc, Hweq. unfold trapezoid_sum.
  replace (length energy - 1)%nat
    with ((f - 1) + (1 + (length energy - f - 1)))%nat by lia.
  rewrite range_sum_app, range_sum_app. cbn [range_sum Nat.add].
  replace (f - 1 + 1)%nat with f by lia. ring.
Qed.




End PdosClaims.

(** ** The two-curve differencer *)

Section Differencer.
Import qe_soc_analysis.

Lemma sum_app (l1 l2 : list Q) : np.sum (l1 ++ l2) == np.sum l1 + np.sum l2.
Proof.
  induction l1 as [| a l1 IH]; simpl.
  - unfold np.sum at 2. simpl. ring.
  - rewrite !sum_cons, IH. ring.
Qed.

Lemma sum_map_seq (f : nat -> Q) : forall n lo,
  np.sum (map f (seq lo n)) == range_sum lo n f.
Proof.
  induction n as [| n IH]; intros lo; simpl; [reflexivity |].
  now rewrite sum_cons, IH.
Qed.

Lemma sum_concat_map_seq (g : nat -> list Q) : forall n lo,
  np.sum (concat (map g (seq lo n))) == range_sum lo n (fun i => np.sum (g i)).
Proof.
  induction n as [| n IH]; intros lo; simpl; [reflexivity |].
  now rewrite sum_app, IH.
Qed.

Lemma length_concat_map_seq (g : nat -> list Q) (C : nat) : forall n lo,
  (forall i, length (g i) = C) ->
  length (concat (map g (seq lo n))) = (n * C)%nat.
Proof.
  induction n as [| n IH]; intros lo H; simpl; [reflexivity |].
  now rewrite length_app, H, IH.
Qed.


Lemma bidx_in_range (n i : nat) : (i < n)%nat -> np.bidx n i = i.
Proof.
  intros H. unfold np.bidx. destruct (Nat.eqb_spec n 1); [lia | reflexivity].
Qed.

Lemma broadcast_dim_same (n : nat) : np.broadcast_dim n n = Some n.
Proof. unfold np.broadcast_dim. now rewrite Nat.eqb_refl. Qed.

Lemma grid_ext (R C : nat) (h h' : nat -> nat -> Q) :
  (forall i j, (i < R)%nat -> (j < C)%nat -> h i j = h' i j) ->
  grid R C h = grid R C h'.
Proof.
  intros H. unfold grid. apply map_ext_in. intros i Hi. apply in_seq in Hi.
  apply map_ext_in. intros j Hj. apply in_seq in Hj. apply H; lia.
Qed.

Lemma In_grid (R C : nat) (h : nat -> nat -> Q) (v : Q) :
  In v (concat (grid R C h)) <->
  exists i j, (i < R)%nat /\ (j < C)%nat /\ v = h i j.
Proof.
  unfold grid. rewrite in_concat. split.
  - intros (row & Hrow & Hv). apply in_map_iff in Hrow as (i & <- & Hi).
    apply in_map_iff in Hv as (j & <- & Hj). apply in_seq in Hi, Hj.
    exists i, j. repeat split; lia.
  - intros (i & j & Hi & Hj & ->).
    exists (map (fun j => h i j) (seq 0 C)). split.
    + apply in_map_iff. exists i. split; [reflexivity | apply in_seq; lia].
    + apply in_map_iff. exists j. split; [reflexivity | apply in_seq; lia].
Qed.

Lemma sum_grid (R C : nat) (h : nat -> nat -> Q) :
  np.sum (concat (grid R C h)) == range_sum 0 R (fun i => range_sum 0 C (h i)).
Proof.
  unfold grid. rewrite sum_concat_map_seq. apply range_sum_ext.
  intros i _. apply sum_map_seq.
Qed.

Lemma length_grid (R C : nat) (h : nat -> nat -> Q) :
  length (concat (grid R C h)) = (R * C)%nat.
Proof.
  unfold grid. apply length_concat_map_seq. intros i.
  now rewrite length_map, length_seq.
Qed.

(** On equal shapes nothing is stretched: entry by entry, A - B. *)
Lemma subtract_same_shape (A B : ndarray2) :
  np.nrows A = np.nrows B -> ncols A = ncols B ->
  np.subtract A B =
  Ok {| ncols := ncols A;
        rows := grid (np.nrows A) (ncols A)
                  (fun i j => np.get A i j - np.get B i j) |}.
Proof.
  intros Hr Hc. unfold np.subtract. rewrite <- Hr, <- Hc, !broadcast_dim_same.
  do 2 f_equal. apply grid_ext. intros i j Hi Hj.
  now rewrite !bidx_in_range.
Qed.

Lemma abs2_grid (C' R C : nat) (h : nat -> nat -> Q) :
  np.abs2 {| ncols := C'; rows := grid R C h |} =
  {| ncols := C'; rows := grid R C (fun i j => Qabs (h i j)) |}.
Proof.
  unfold np.abs2, grid, np.abs. simpl. f_equal. rewrite map_map.
  apply map_ext. intros i. now rewrite map_map.
Qed.

(** The differencer on two non-empty arrays of one shape. *)
Lemma compare_same_shape (A B : ndarray2) (w : world) :
  np.nrows A = np.nrows B -> ncols A = ncols B ->
  (0 < np.nrows A)%nat -> (0 < ncols A)%nat ->
  exists avg mx,
    compare_with_without_soc (Some A) (Some B) w
    = (Ok (Some (Finite avg, mx)),
       printed w
         [Text "SOC analysis:";
          Fmt "  Average SOC splitting: " (Finite avg) 3 " eV";
          Fmt "  Maximum SOC splitting: " (Finite mx) 3 " eV"]) /\
    avg == abs_difference_sum A B (np.nrows A) (ncols A)
           / inject_Z (Z.of_nat (np.nrows A * ncols A)) /\
    (exists i j, (i < np.nrows A)%nat /\ (j < ncols A)%nat /\
                 mx = Qabs (np.get A i j - np.get B i j)) /\
    (forall i j, (i < np.nrows A)%nat -> (j < ncols A)%nat ->
                 Qabs (np.get A i j - np.get B i j) <= mx).
Proof.
  intros Hr Hc HR HC.
  set (h := fun i j => Qabs (np.get A i j - np.get B i j)).
  set (cells := concat (grid (np.nrows A) (ncols A) h)).
  assert (Hsize : length cells = (np.nrows A * ncols A)%nat) by apply length_grid.
  assert (Hne : cells <> []).
  { intros E. rewrite E in Hsize. simpl in Hsize. nia. }
  destruct (max1_spec cells Hne) as (mx & Hmx & Hin & Hub).
  assert (Hnz : ~ inject_Z (Z.of_nat (np.nrows A * ncols A)) == 0).
  { unfold Qeq. simpl. nia. }
  exists (np.sum cells / inject_Z (Z.of_nat (np.nrows A * ncols A))), mx.
  split; [| split; [| split]].
  - unfold compare_with_without_soc, bind, lift, print, ret, printed.
    rewrite (subtract_same_shape A B Hr Hc), abs2_grid.
    unfold np.mean, np.max, np.size, np.ravel. cbn [rows].
    fold h. fold cells. rewrite Hsize, Hmx.
    rewrite (true_divide_nonzero _ _ Hnz). simpl.
    repeat rewrite <- app_assoc. reflexivity.
  - unfold cells. rewrite sum_grid. reflexivity.
  - apply In_grid in Hin. exact Hin.
  - intros i j Hi Hj. apply Hub. apply In_grid. exists i, j. auto.
Qed.

End Differencer.

Section DifferencerClaims.
Import qe_soc_analysis.

Lemma nth_error_seq_0 (n i : nat) : (i < n)%nat -> nth_error (seq 0 n) i = Some i.
Proof.
  intros H. rewrite (nth_error_nth' (seq 0 n) 0%nat) by (rewrite length_seq; lia).
  now rewrite seq_nth.
Qed.

Lemma entry_grid (C' R C : nat) (h : nat -> nat -> Q) (i j : nat) :
  (i < R)%nat -> (j < C)%nat ->
  entry {| ncols := C'; rows := grid R C h |} i j = Some (h i j).
Proof.
  intros Hi Hj. unfold entry, grid. cbn [rows].
  rewrite nth_error_map, (nth_error_seq_0 R i Hi). cbn [option_map].
  now rewrite nth_error_map, (nth_error_seq_0 C j Hj).
Qed.





(** C9.  Whenever at least one argument of the differencer is None, it
    returns None: nothing is computed, nothing is raised, and the world
    (files and standard output) is left as it was. *)
Theorem differencer_none_in_none_out
        (soc_energies no_soc_energies : option ndarray2) (w : world) :
  soc_energies = None \/ no_soc_energies = None ->
  compare_with_without_soc soc_energies no_soc_energies w = (Ok None, w).
Proof.
  intros [-> | ->]; [reflexivity |]. now destruct soc_energies.
Qed.

Lemma differencer_none_in_none_out_witness :
  (Some soc_sample = None \/ @None ndarray2 = None) /\
  compare_with_without_soc (Some soc_sample) None empty_world
  = (Ok None, empty_world).
Proof.
  assert (H : Some soc_sample = None \/ @None ndarray2 = None)
    by (right; reflexivity).
  split; [exact H |].
  exact (differencer_none_in_none_out (Some soc_sample) None empty_world H).
Defined.

End DifferencerClaims.

(** ** The curve loaders *)

Section Loaders.

Lemma loadtxt_unreadable (w : world) (path : string) :
  unreadable w path ->
  np.loadtxt path w = (Raise FileNotFoundError, w) \/
  np.loadtxt path w = (Raise ValueError, w).
Proof.
  unfold np.loadtxt. intros [H | H]; rewrite H; auto.
Qed.

Lemma read_band_structure_unreadable (w : world) (path : string) :
  unreadable w path ->
  qe_band_analysis.read_band_structure path w
  = (Ok (None, None),
     printed w [Text ("Error reading band structure file: " ++ path)]).
Proof.
  intros H. unfold qe_band_analysis.read_band_structure, try_except, bind.
  destruct (loadtxt_unreadable w path H) as [-> | ->]; reflexivity.
Qed.

Lemma read_phonon_dos_unreadable (w : world) (path : string) :
  unreadable w path ->
  qe_phonon_analysis.read_phonon_dos path w
  = (Ok (None, None),
     printed w [Text ("Error reading phonon DOS file: " ++ path)]).
Proof.
  intros H. unfold qe_phonon_analysis.read_phonon_dos, try_except, bind.
  destruct (loadtxt_unreadable w path H) as [-> | ->]; reflexivity.
Qed.

Lemma read_phonon_modes_unreadable (w : world) (path : string) :
  unreadable w path ->
  qe_phonon_analysis.read_phonon_modes path w
  = (Ok (None, None),
     printed w [Text ("Error reading phonon modes file: " ++ path)]).
Proof.
  intros H. unfold qe_phonon_analysis.read_phonon_modes, try_except, bind.
  destruct (loadtxt_unreadable w path H) as [-> | ->]; reflexivity.
Qed.

Lemma read_soc_energies_unreadable (w : world) (path : string) :
  unreadable w path ->
  qe_soc_analysis.read_soc_energies path w
  = (Ok (None, None),
     printed w [Text ("Error reading SOC energies file: " ++ path)]).
Proof.
  intros H. unfold qe_soc_analysis.read_soc_energies, try_except, bind.
  destruct (loadtxt_unreadable w path H) as [-> | ->]; reflexivity.
Qed.

Lemma pdos_data_loader_unreadable (w : world) (path : string) :
  unreadable w path ->
  exists message,
    qe_pdos_analysis.data_loader path w
    = (Ok (None, None), printed w [message]).
Proof.
  intros H. unfold qe_pdos_analysis.data_loader, try_except2, bind, np.loadtxt.
  destruct H as [H | H]; rewrite H; eexists; reflexivity.
Qed.

Lemma simple_data_loader_unreadable (w : world) (path : string) :
  unreadable w path ->
  exists e, qe_pdos_simple.data_loader path w = (Raise e, w).
Proof.
  intros H. unfold qe_pdos_simple.data_loader, bind, np.loadtxt.
  destruct H as [H | H]; rewrite H; eexists; reflexivity.
Qed.

(** With no readable [bands.dat] the band script skips plotting and
    analysis and ends normally, whatever the plotting routine is. *)
Lemma band_main_skips (plot : list Q -> ndarray2 -> string -> M unit) (w : world) :
  unreadable w "bands.dat" ->
  qe_band_analysis.main plot w
  = (Ok tt,
     printed w
       [Text "=== Band Structure Analysis ===";
        Text "Error reading band structure file: bands.dat";
        Text "Band structure analysis completed!"]).
Proof.
  intros H. unfold qe_band_analysis.main, bind. cbn [print].
  rewrite read_band_structure_unreadable by exact H.
  unfold printed, ret, print. simpl. repeat rewrite <- app_assoc. reflexivity.
Qed.

Lemma phonon_main_skips
      (plot_dos : list Q -> list Q -> string -> M unit)
      (plot_dispersion : list Q -> ndarray2 -> string -> M unit) (w : world) :
  unreadable w "phonon_dos.dat" ->
  unreadable w "phonon_frequencies.dat" ->
  qe_phonon_analysis.main plot_dos plot_dispersion w
  = (Ok tt,
     printed w
       [Text "=== Phonon Analysis ===";
        Text "Error reading phonon DOS file: phonon_dos.dat";
        Text "Error reading phonon modes file: phonon_frequencies.dat";
        Text "Phonon analysis completed!"]).
Proof.
  intros H1 H2. unfold qe_phonon_analysis.main, bind. cbn [print].
  rewrite read_phonon_dos_unreadable by exact H1.
  unfold printed at 1, ret at 1.
  rewrite read_phonon_modes_unreadable by exact H2.
  unfold printed, ret, print. simpl. repeat rewrite <- app_assoc. reflexivity.
Qed.

Lemma soc_main_skips
      (plot : list Q -> ndarray2 -> ndarray2 -> string -> M unit) (w : world) :
  unreadable w "soc_bands.dat" ->
  qe_soc_analysis.analyze_soc_effects plot w
  = (Ok tt,
     printed w
       [Text "=== Spin-Orbit Coupling Analysis ===";
        Text "Error reading SOC energies file: soc_bands.dat";
        Text "SOC analysis completed!"]).
Proof.
  intros H. unfold qe_soc_analysis.analyze_soc_effects, bind. cbn [print].
  rewrite read_soc_energies_unreadable by exact H.
  unfold printed, ret, print. simpl. repeat rewrite <- app_assoc. reflexivity.
Qed.

End Loaders.

Section LoaderClaims.

(** C6 (as amended).  For every path naming an absent or unparsable file,
    each loader that wraps its read in try/except (read_band_structure,
    read_phonon_dos, read_phonon_modes, read_soc_energies and the
    data_loader of qe_pdos_analysis.py) returns (None, None) and prints
    one message instead of raising, and the band, phonon and SOC scripts
    then skip the dependent steps and end normally; the data_loader of
    qe_pdos_simple.py has no handler and raises to its caller without
    printing. *)
Theorem guarded_loaders_return_no_data :
  (forall (w : world) (path : string),
      unreadable w path ->
      qe_band_analysis.read_band_structure path w
      = (Ok (None, None),
         printed w [Text ("Error reading band structure file: " ++ path)]) /\
      qe_phonon_analysis.read_phonon_dos path w
      = (Ok (None, None),
         printed w [Text ("Error reading phonon DOS file: " ++ path)]) /\
      qe_phonon_analysis.read_phonon_modes path w
      = (Ok (None, None),
         printed w [Text ("Error reading phonon modes file: " ++ path)]) /\
      qe_soc_analysis.read_soc_energies path w
      = (Ok (None, None),
         printed w [Text ("Error reading SOC energies file: " ++ path)]) /\
      (exists message,
          qe_pdos_analysis.data_loader path w
          = (Ok (None, None), printed w [message])) /\
      (exists e, qe_pdos_simple.data_loader path w = (Raise e, w))) /\
  (forall (plot : list Q -> ndarray2 -> string -> M unit) (w : world),
      unreadable w "bands.dat" ->
      qe_band_analysis.main plot w
      = (Ok tt,
         printed w
           [Text "=== Band Structure Analysis ===";
            Text "Error reading band structure file: bands.dat";
            Text "Band structure analysis completed!"])) /\
  (forall (plot_dos : list Q -> list Q -> string -> M unit)
          (plot_dispersion : list Q -> ndarray2 -> string -> M unit) (w : world),
      unreadable w "phonon_dos.dat" ->
      unreadable w "phonon_frequencies.dat" ->
      qe_phonon_analysis.main plot_dos plot_dispersion w
      = (Ok tt,
         printed w
           [Text "=== Phonon Analysis ===";
            Text "Error reading phonon DOS file: phonon_dos.dat";
            Text "Error reading phonon modes file: phonon_frequencies.dat";
            Text "Phonon analysis completed!"])) /\
  (forall (plot : list Q -> ndarray2 -> ndarray2 -> string -> M unit) (w : world),
      unreadable w "soc_bands.dat" ->
      qe_soc_analysis.analyze_soc_effects plot w
      = (Ok tt,
         printed w
           [Text "=== Spin-Orbit Coupling Analysis ===";
            Text "Error reading SOC energies file: soc_bands.dat";
            Text "SOC analysis completed!"])).
Proof.
  split; [| split; [| split]].
  - intros w path H.
    split; [now apply read_band_structure_unreadable |].
    split; [now apply read_phonon_dos_unreadable |].
    split; [now apply read_phonon_modes_unreadable |].
    split; [now apply read_soc_energies_unreadable |].
    split; [now apply pdos_data_loader_unreadable |].
    now apply simple_data_loader_unreadable.
  - intros plot w. apply band_main_skips.
  - intros plot_dos plot_dispersion w. apply phonon_main_skips.
  - intros plot w. apply soc_main_skips.
Qed.

Lemma guarded_loaders_return_no_data_witness :
  unreadable empty_world "bands.dat" /\
  qe_band_analysis.read_band_structure "bands.dat" empty_world
  = (Ok (None, None),
     printed empty_world [Text "Error reading band structure file: bands.dat"]) /\
  qe_band_analysis.main (fun _ _ _ => raise ValueError) empty_world
  = (Ok tt,
     printed empty_world
       [Text "=== Band Structure Analysis ===";
        Text "Error reading band structure file: bands.dat";
        Text "Band structure analysis completed!"]).
Proof.
  assert (H : unreadable empty_world "bands.dat") by (left; reflexivity).
  split; [exact H | split].
  - exact (proj1 (proj1 guarded_loaders_return_no_data
                    empty_world "bands.dat"%string H)).
  - exact (proj1 (proj2 guarded_loaders_return_no_data)
             (fun _ _ _ => raise ValueError) empty_world H).
Defined.

(** The loader of the simple PDOS script, called on a file that does not
    exist: the exception reaches the caller and nothing is printed. *)
Lemma simple_loader_raises_on_missing_file :
  files empty_world "atom_W_tot.dat" = Absent /\
  qe_pdos_simple.data_loader "atom_W_tot.dat" empty_world
  = (Raise FileNotFoundError, empty_world) /\
  ~ (exists v w',
        qe_pdos_simple.data_loader "atom_W_tot.dat" empty_world = (Ok v, w')).
Proof.
  split; [reflexivity | split; [reflexivity |]].
  intros (v & w' & H). discriminate H.
Qed.

End LoaderClaims.

(** * Further properties of the scripts *)

(** ** Loading a table that parses *)

Section LoaderResults.

Lemma column_length (a : ndarray2) (j : nat) (v : list Q) :
  np.column (Array2 a) j = Ok v -> length v = np.nrows a.
Proof.
  unfold np.column, np.nrows. destruct (j <? ncols a)%nat; [| discriminate].
  intros E. injection E as <-. apply length_map.
Qed.

Lemma column_entry (a : ndarray2) (j r : nat) (v : list Q) :
  well_shaped a -> np.column (Array2 a) j = Ok v -> (r < np.nrows a)%nat ->
  entry a r j = Some (at_index v r).
Proof.
  unfold np.column, np.nrows, entry, at_index, well_shaped.
  intros Hwf E Hr. destruct (Nat.ltb_spec j (ncols a)) as [Hj |]; [| discriminate].
  injection E as <-.
  destruct (nth_error (rows a) r) as [row |] eqn:Hrow;
    [| apply nth_error_None in Hrow; lia].
  rewrite Forall_forall in Hwf. pose proof (Hwf row (nth_error_In _ _ Hrow)) as Hlen.
  rewrite (nth_error_nth' row 0) by lia. f_equal.
  assert (Hr' : (r < length (rows a))%nat) by (apply nth_error_Some; congruence).
  rewrite (nth_indep (map (fun r0 => nth j r0 0) (rows a)) 0
             ((fun r0 : list Q => nth j r0 0) []))
    by (rewrite length_map; exact Hr').
  rewrite (map_nth (fun r0 : list Q => nth j r0 0)).
  now rewrite (nth_error_nth _ _ [] Hrow).
Qed.

Lemma cols_from_well_shaped (k : nat) (a : ndarray2) :
  well_shaped a -> well_shaped (np.cols_from k a).
Proof.
  unfold well_shaped, np.cols_from. simpl. intros Hwf.
  apply Forall_map. eapply Forall_impl; [| exact Hwf].
  intros row Hrow. simpl. now rewrite length_skipn, Hrow.
Qed.

(** The run of a loader that keeps column 0 and the columns after it. *)
Lemma read_band_structure_table (w : world) (path : string) (a : ndarray2) :
  files w path = Table (Array2 a) -> (0 < ncols a)%nat ->
  qe_band_analysis.read_band_structure path w
  = (Ok (Some (map (fun r => nth 0 r 0) (rows a)), Some (np.cols_from 1 a)), w).
Proof.
  intros Hfile Hc.
  unfold qe_band_analysis.read_band_structure, try_except, bind, np.loadtxt, lift, ret.
  rewrite Hfile. unfold np.column.
  destruct (Nat.ltb_spec 0 (ncols a)); [reflexivity | lia].
Qed.

Lemma read_phonon_modes_table (w : world) (path : string) (a : ndarray2) :
  files w path = Table (Array2 a) -> (0 < ncols a)%nat ->
  qe_phonon_analysis.read_phonon_modes path w
  = (Ok (Some (map (fun r => nth 0 r 0) (rows a)), Some (np.cols_from 1 a)), w).
Proof.
  intros Hfile Hc.
  unfold qe_phonon_analysis.read_phonon_modes, try_except, bind, np.loadtxt, lift, ret.
  rewrite Hfile. unfold np.column.
  destruct (Nat.ltb_spec 0 (ncols a)); [reflexivity | lia].
Qed.

Lemma read_soc_energies_table (w : world) (path : string) (a : ndarray2) :
  files w path = Table (Array2 a) -> (0 < ncols a)%nat ->
  qe_soc_analysis.read_soc_energies path w
  = (Ok (Some (map (fun r => nth 0 r 0) (rows a)), Some (np.cols_from 1 a)), w).
Proof.
  intros Hfile Hc.
  unfold qe_soc_analysis.read_soc_energies, try_except, bind, np.loadtxt, lift, ret.
  rewrite Hfile. unfold np.column.
  destruct (Nat.ltb_spec 0 (ncols a)); [reflexivity | lia].
Qed.

Lemma read_phonon_dos_table (w : world) (path : string) (a : ndarray2) :
  files w path = Table (Array2 a) -> (1 < ncols a)%nat ->
  qe_phonon_analysis.read_phonon_dos path w
  = (Ok (Some (map (fun r => nth 0 r 0) (rows a)),
         Some (map (fun r => nth 1 r 0) (rows a))), w).
Proof.
  intros Hfile Hc.
  unfold qe_phonon_analysis.read_phonon_dos, try_except, bind, np.loadtxt, lift, ret.
  rewrite Hfile. unfold np.column.
  destruct (Nat.ltb_spec 0 (ncols a)); [| lia].
  destruct (Nat.ltb_spec 1 (ncols a)); [reflexivity | lia].
Qed.

Lemma pdos_data_loader_table (w : world) (path : string) (a : ndarray2) :
  files w path = Table (Array2 a) -> (1 < ncols a)%nat ->
  qe_pdos_analysis.data_loader path w
  = (Ok (Some (map (fun r => nth 0 r 0) (rows a)),
         Some (map (fun r => nth 1 r 0) (rows a))), w).
Proof.
  intros Hfile Hc.
  unfold qe_pdos_analysis.data_loader, try_except2, bind, np.loadtxt, lift, ret.
  rewrite Hfile. unfold np.column.
  destruct (Nat.ltb_spec 0 (ncols a)); [| lia].
  destruct (Nat.ltb_spec 1 (ncols a)); [reflexivity | lia].
Qed.

(** X1.  On a file that parses to a well-shaped 2-D table with at least
    one column, read_band_structure prints nothing and splits the table
    without loss: k_points is column 0, one value per row, and energies is
    a well-shaped table of the remaining columns, entry (r, c) being the
    table's entry (r, c+1). *)
Theorem read_band_structure_splits_table
        (w : world) (path : string) (a : ndarray2) :
  files w path = Table (Array2 a) -> well_shaped a -> (0 < ncols a)%nat ->
  exists k_points energies,
    qe_band_analysis.read_band_structure path w
    = (Ok (Some k_points, Some energies), w) /\
    length k_points = np.nrows a /\
    (forall r, (r < np.nrows a)%nat -> entry a r 0 = Some (at_index k_points r)) /\
    well_shaped energies /\
    ncols energies = (ncols a - 1)%nat /\
    np.nrows energies = np.nrows a /\
    (forall r c, entry energies r c = entry a r (S c)).
Proof.
  intros Hfile Hwf Hc.
  exists (map (fun r => nth 0 r 0) (rows a)), (np.cols_from 1 a).
  assert (Hcol : np.column (Array2 a) 0 = Ok (map (fun r => nth 0 r 0) (rows a))).
  { unfold np.column. destruct (Nat.ltb_spec 0 (ncols a)); [reflexivity | lia]. }
  split; [now apply read_band_structure_table |].
  split; [exact (column_length a 0 _ Hcol) |].
  split; [intros r Hr; exact (column_entry a 0 r _ Hwf Hcol Hr) |].
  split; [now apply cols_from_well_shaped |].
  split; [reflexivity |].
  split; [unfold np.nrows, np.cols_from; simpl; apply length_map |].
  intros r c. apply (entry_cols_from 1 a r c).
Qed.

Lemma read_band_structure_splits_table_witness :
  files (world_with "bands.dat" (Table (Array2 small_table))) "bands.dat"
  = Table (Array2 small_table) /\
  well_shaped small_table /\ (0 < ncols small_table)%nat /\
  exists k_points energies,
    qe_band_analysis.read_band_structure "bands.dat"
      (world_with "bands.dat" (Table (Array2 small_table)))
    = (Ok (Some k_points, Some energies),
       world_with "bands.dat" (Table (Array2 small_table))) /\
    length k_points = np.nrows small_table /\
    (forall r, (r < np.nrows small_table)%nat ->
               entry small_table r 0 = Some (at_index k_points r)) /\
    well_shaped energies /\
    ncols energies = (ncols small_table - 1)%nat /\
    np.nrows energies = np.nrows small_table /\
    (forall r c, entry energies r c = entry small_table r (S c)).
Proof.
  assert (Hfile : files (world_with "bands.dat" (Table (Array2 small_table)))
                    "bands.dat" = Table (Array2 small_table)) by reflexivity.
  assert (Hwf : well_shaped small_table) by (repeat constructor).
  assert (Hc : (0 < ncols small_table)%nat) by (simpl; lia).
  split; [exact Hfile | split; [exact Hwf | split; [exact Hc |]]].
  exact (read_band_structure_splits_table _ "bands.dat"%string small_table
           Hfile Hwf Hc).
Defined.

(** X2.  A file that parses to a 1-D array (a single row of numbers, or a
    single column) is treated like an unreadable one: indexing it with
    [data[:, 0]] raises inside the try block, so every guarded loader
    prints its error line and returns (None, None). *)
Theorem guarded_loaders_reject_one_dimensional_data
        (w : world) (path : string) (v : list Q) :
  files w path = Table (Array1 v) ->
  qe_band_analysis.read_band_structure path w
  = (Ok (None, None),
     printed w [Text ("Error reading band structure file: " ++ path)]) /\
  qe_phonon_analysis.read_phonon_dos path w
  = (Ok (None, None),
     printed w [Text ("Error reading phonon DOS file: " ++ path)]) /\
  qe_phonon_analysis.read_phonon_modes path w
  = (Ok (None, None),
     printed w [Text ("Error reading phonon modes file: " ++ path)]) /\
  qe_soc_analysis.read_soc_energies path w
  = (Ok (None, None),
     printed w [Text ("Error reading SOC energies file: " ++ path)]) /\
  qe_pdos_analysis.data_loader path w
  = (Ok (None, None),
     printed w [FmtExn ("Error loading " ++ path ++ ": ") IndexError]).
Proof.
  intros Hfile.
  unfold qe_band_analysis.read_band_structure, qe_phonon_analysis.read_phonon_dos,
    qe_phonon_analysis.read_phonon_modes, qe_soc_analysis.read_soc_energies,
    qe_pdos_analysis.data_loader, try_except, try_except2, bind, np.loadtxt.
  rewrite Hfile. repeat split.
Qed.

Lemma guarded_loaders_reject_one_dimensional_data_witness :
  files (world_with "bands.dat" (Table (Array1 [0; -1.0; 0.5]))) "bands.dat"
  = Table (Array1 [0; -1.0; 0.5]) /\
  qe_band_analysis.read_band_structure "bands.dat"
    (world_with "bands.dat" (Table (Array1 [0; -1.0; 0.5])))
  = (Ok (None, None),
     printed (world_with "bands.dat" (Table (Array1 [0; -1.0; 0.5])))
       [Text "Error reading band structure file: bands.dat"]).
Proof.
  assert (Hfile : files (world_with "bands.dat" (Table (Array1 [0; -1.0; 0.5])))
                    "bands.dat" = Table (Array1 [0; -1.0; 0.5])) by reflexivity.
  split; [exact Hfile |].
  exact (proj1 (guarded_loaders_reject_one_dimensional_data _ "bands.dat"%string
                  [0; -1.0; 0.5] Hfile)).
Defined.

(** X3.  Whenever the unguarded data_loader of qe_pdos_simple.py returns,
    the guarded data_loader of qe_pdos_analysis.py returns the same two
    columns on the same file, and neither has printed anything. *)
Theorem pdos_loaders_agree_on_success
        (w w' : world) (path : string) (energy pdos : list Q) :
  qe_pdos_simple.data_loader path w = (Ok (energy, pdos), w') ->
  w' = w /\
  qe_pdos_analysis.data_loader path w = (Ok (Some energy, Some pdos), w).
Proof.
  unfold qe_pdos_simple.data_loader, qe_pdos_analysis.data_loader,
    try_except2, bind, np.loadtxt, lift, ret.
  destruct (files w path) as [| | data]; try discriminate.
  destruct (np.column data 0) as [e | err]; [| discriminate].
  destruct (np.column data 1) as [p | err]; [| discriminate].
  intros H. injection H as <- <- <-. auto.
Qed.

Lemma pdos_loaders_agree_on_success_witness :
  qe_pdos_simple.data_loader "atom_W_tot.dat"
    (world_with "atom_W_tot.dat" (Table (Array2 small_table)))
  = (Ok ([0; 0.5; 1], [-1.0; -0.8; -0.9]),
     world_with "atom_W_tot.dat" (Table (Array2 small_table))) /\
  world_with "atom_W_tot.dat" (Table (Array2 small_table))
  = world_with "atom_W_tot.dat" (Table (Array2 small_table)) /\
  qe_pdos_analysis.data_loader "atom_W_tot.dat"
    (world_with "atom_W_tot.dat" (Table (Array2 small_table)))
  = (Ok (Some [0; 0.5; 1], Some [-1.0; -0.8; -0.9]),
     world_with "atom_W_tot.dat" (Table (Array2 small_table))).
Proof.
  assert (H : qe_pdos_simple.data_loader "atom_W_tot.dat"
                (world_with "atom_W_tot.dat" (Table (Array2 small_table)))
              = (Ok ([0; 0.5; 1], [-1.0; -0.8; -0.9]),
                 world_with "atom_W_tot.dat" (Table (Array2 small_table))))
    by reflexivity.
  split; [exact H |].
  exact (pdos_loaders_agree_on_success _ _ "atom_W_tot.dat"%string _ _ H).
Defined.

End LoaderResults.

(** ** More on the band script *)

Section BandScript.
Import qe_band_analysis.

(** X4.  On an array with at least one row and more than twenty columns
    the reported gap is non-negative exactly when no entry of the first
    twenty columns exceeds an entry of the remaining columns, that is when
    the two groups of bands do not overlap. *)
Theorem band_gap_nonnegative_iff_no_overlap (e : ndarray2) (w : world) :
  well_shaped e -> rows e <> [] -> (20 < ncols e)%nat ->
  exists gap,
    fst (analyze_band_gap_from_bands e w) = Ok gap /\
    (0 <= gap <->
     forall r c r' c' v v',
       (c < 20)%nat -> (20 <= c')%nat ->
       entry e r c = Some v -> entry e r' c' = Some v' -> v <= v').
Proof.
  intros Hwf Hrows Hc.
  destruct (analyze_band_gap_general e w Hwf Hrows Hc)
    as (vb & cb & ((rv & cv & Hcv & Hv) & Hvub) & ((rc & cc & Hcc & Hcmin) & Hclb)
        & Hrun).
  exists (cb - vb). split; [exact Hrun |]. split.
  - intros Hgap r c r' c' v v' Hlt Hge Hev Hev'.
    pose proof (Hvub r c v Hlt Hev). pose proof (Hclb r' c' v' Hge Hev'). lra.
  - intros Hall. pose proof (Hall rv cv rc cc vb cb Hcv Hcc Hv Hcmin). lra.
Qed.

Lemma band_gap_nonnegative_iff_no_overlap_witness :
  well_shaped padded_blocks /\ rows padded_blocks <> [] /\
  (20 < ncols padded_blocks)%nat /\
  exists gap,
    fst (analyze_band_gap_from_bands padded_blocks empty_world) = Ok gap /\
    (0 <= gap <->
     forall r c r' c' v v',
       (c < 20)%nat -> (20 <= c')%nat ->
       entry padded_blocks r c = Some v -> entry padded_blocks r' c' = Some v' ->
       v <= v').
Proof.
  assert (Hwf : well_shaped padded_blocks)
    by (constructor; [reflexivity | constructor]).
  assert (Hrows : rows padded_blocks <> []) by discriminate.
  assert (Hc : (20 < ncols padded_blocks)%nat) by (simpl; lia).
  split; [exact Hwf | split; [exact Hrows | split; [exact Hc |]]].
  exact (band_gap_nonnegative_iff_no_overlap padded_blocks empty_world Hwf Hrows Hc).
Defined.

(** X5.  The gap finder is all or nothing: on any array it either raises
    ValueError having printed nothing, or returns the gap having printed
    exactly its four lines, the last of which shows the returned value; it
    never touches the files. *)
Theorem band_gap_output_all_or_nothing (e : ndarray2) (w : world) :
  analyze_band_gap_from_bands e w = (Raise ValueError, w) \/
  exists vb_max cb_min,
    analyze_band_gap_from_bands e w
    = (Ok (cb_min - vb_max),
       printed w
         [Text "Band structure analysis:";
          Fmt "  Valence band maximum: " (Finite vb_max) 3 " eV";
          Fmt "  Conduction band minimum: " (Finite cb_min) 3 " eV";
          Fmt "  Band gap: " (Finite (cb_min - vb_max)) 3 " eV"]).
Proof.
  destruct (np.max (np.cols_upto 20 e)) as [vb | err] eqn:Hmax.
  - destruct (np.min (np.cols_from 20 e)) as [cb | err] eqn:Hmin.
    + right. exists vb, cb. now apply analyze_band_gap_run.
    + left. unfold analyze_band_gap_from_bands, bind, lift. rewrite Hmax, Hmin.
      unfold np.min, np.min1 in Hmin.
      destruct (np.ravel (np.cols_from 20 e)); congruence.
  - left. unfold analyze_band_gap_from_bands, bind, lift. rewrite Hmax.
    unfold np.max, np.max1 in Hmax.
    destruct (np.ravel (np.cols_upto 20 e)); congruence.
Qed.

(** With at most twenty columns the second reduction has nothing to
    reduce. *)
Lemma band_gap_raises_without_conduction (e : ndarray2) (w : world) :
  well_shaped e -> (ncols e <= 20)%nat ->
  analyze_band_gap_from_bands e w = (Raise ValueError, w).
Proof.
  intros Hwf Hc.
  unfold analyze_band_gap_from_bands, bind, lift, np.min, np.max.
  rewrite (conduction_block_empty e Hwf Hc).
  destruct (np.max1 (np.ravel (np.cols_upto 20 e))) as [vb | err] eqn:E.
  - reflexivity.
  - destruct (np.ravel (np.cols_upto 20 e)); simpl in E; congruence.
Qed.

(** X6.  The band script cannot analyse a bands.dat holding twenty bands
    or fewer (a table of at most twenty-one columns): once the plot is
    drawn, the gap finder raises ValueError, the script ends with that
    exception and its closing line is never printed. *)
Theorem band_main_raises_on_twenty_bands_or_fewer
        (plot : list Q -> ndarray2 -> string -> M unit)
        (w w_plotted : world) (a : ndarray2) :
  files w "bands.dat" = Table (Array2 a) ->
  well_shaped a -> (0 < ncols a <= 21)%nat ->
  plot (map (fun r => nth 0 r 0) (rows a)) (np.cols_from 1 a) "Band Structure"%string
       (printed w [Text "=== Band Structure Analysis ==="])
  = (Ok tt, w_plotted) ->
  main plot w = (Raise ValueError, w_plotted).
Proof.
  intros Hfile Hwf Hc Hplot.
  unfold main, bind. cbn [print].
  rewrite (read_band_structure_table _ "bands.dat" a) by (try exact Hfile; lia).
  unfold printed in Hplot. rewrite Hplot.
  rewrite (band_gap_raises_without_conduction (np.cols_from 1 a) w_plotted).
  - reflexivity.
  - now apply cols_from_well_shaped.
  - simpl. lia.
Qed.

Lemma band_main_raises_on_twenty_bands_or_fewer_witness :
  files (world_with "bands.dat" (Table (Array2 small_table))) "bands.dat"
  = Table (Array2 small_table) /\
  well_shaped small_table /\ (0 < ncols small_table <= 21)%nat /\
  main (fun _ _ _ => ret tt) (world_with "bands.dat" (Table (Array2 small_table)))
  = (Raise ValueError,
     printed (world_with "bands.dat" (Table (Array2 small_table)))
       [Text "=== Band Structure Analysis ==="]).
Proof.
  assert (Hfile : files (world_with "bands.dat" (Table (Array2 small_table)))
                    "bands.dat" = Table (Array2 small_table)) by reflexivity.
  assert (Hwf : well_shaped small_table) by (repeat constructor).
  assert (Hc : (0 < ncols small_table <= 21)%nat) by (simpl; lia).
  split; [exact Hfile | split; [exact Hwf | split; [exact Hc |]]].
  exact (band_main_raises_on_twenty_bands_or_fewer (fun _ _ _ => ret tt)
           _ _ small_table Hfile Hwf Hc eq_refl).
Defined.

(** X7.  On a bands.dat that parses to a table of at least two rows and
    more than twenty bands, once the plot is drawn the script prints the
    four lines of the gap analysis and its closing line, and ends
    normally. *)
Theorem band_main_completes_on_more_than_twenty_bands
        (plot : list Q -> ndarray2 -> string -> M unit)
        (w w_plotted : world) (a : ndarray2) :
  files w "bands.dat" = Table (Array2 a) ->
  well_shaped a -> (2 <= length (rows a))%nat -> (21 < ncols a)%nat ->
  plot (map (fun r => nth 0 r 0) (rows a)) (np.cols_from 1 a) "Band Structure"%string
       (printed w [Text "=== Band Structure Analysis ==="])
  = (Ok tt, w_plotted) ->
  exists vb_max cb_min,
    greatest_entry a (fun c => (1 <= c < 21)%nat) vb_max /\
    least_entry a (fun c => (21 <= c)%nat) cb_min /\
    main plot w
    = (Ok tt,
       printed w_plotted
         [Text "Band structure analysis:";
          Fmt "  Valence band maximum: " (Finite vb_max) 3 " eV";
          Fmt "  Conduction band minimum: " (Finite cb_min) 3 " eV";
          Fmt "  Band gap: " (Finite (cb_min - vb_max)) 3 " eV";
          Text "Band structure analysis completed!"]).
Proof.
  intros Hfile Hwf Htwo Hc Hplot.
  assert (Hrows : rows a <> []).
  { intros E. rewrite E in Htwo. simpl in Htwo. lia. }
  set (e := np.cols_from 1 a).
  assert (Hwfe : well_shaped e) by now apply cols_from_well_shaped.
  assert (Hrowse : rows e <> []).
  { unfold e, np.cols_from. simpl. destruct (rows a); [congruence | discriminate]. }
  assert (Hce : (20 < ncols e)%nat) by (unfold e; simpl; lia).
  destruct (max1_spec (np.ravel (np.cols_upto 20 e)))
    as (vb & Hvb & Hvin & Hvub).
  { apply valence_block_nonempty; [assumption | assumption | lia]. }
  destruct (min1_spec (np.ravel (np.cols_from 20 e)))
    as (cb & Hcb & Hcin & Hclb).
  { now apply conduction_block_nonempty. }
  exists vb, cb. split; [| split].
  - split.
    + apply In_cols_upto in Hvin as (r & c & Hlt & Hv).
      unfold e in Hv. rewrite entry_cols_from in Hv.
      exists r, (1 + c)%nat. split; [lia | exact Hv].
    + intros r c v Hrange Hv. apply Hvub. apply In_cols_upto.
      exists r, (c - 1)%nat. split; [lia |].
      unfold e. rewrite entry_cols_from.
      now replace (1 + (c - 1))%nat with c by lia.
  - split.
    + apply In_cols_from in Hcin as (r & c & Hge & Hv).
      unfold e in Hv. rewrite entry_cols_from in Hv.
      exists r, (1 + c)%nat. split; [lia | exact Hv].
    + intros r c v Hrange Hv. apply Hclb. apply In_cols_from.
      exists r, (c - 1)%nat. split; [lia |].
      unfold e. rewrite entry_cols_from.
      now replace (1 + (c - 1))%nat with c by lia.
  - unfold main, bind. cbn [print].
    rewrite (read_band_structure_table _ "bands.dat" a) by (try exact Hfile; lia).
    unfold printed in Hplot. rewrite Hplot. fold e.
    rewrite (analyze_band_gap_run e w_plotted vb cb Hvb Hcb).
    unfold printed, ret, print. simpl. repeat rewrite <- app_assoc. reflexivity.
Qed.

Lemma band_main_completes_on_more_than_twenty_bands_witness :
  files (world_with "bands.dat" (Table (Array2 wide_table))) "bands.dat"
  = Table (Array2 wide_table) /\
  well_shaped wide_table /\ (2 <= length (rows wide_table))%nat /\
  (21 < ncols wide_table)%nat /\
  exists vb_max cb_min,
    greatest_entry wide_table (fun c => (1 <= c < 21)%nat) vb_max /\
    least_entry wide_table (fun c => (21 <= c)%nat) cb_min /\
    main (fun _ _ _ => ret tt) (world_with "bands.dat" (Table (Array2 wide_table)))
    = (Ok tt,
       printed (printed (world_with "bands.dat" (Table (Array2 wide_table)))
                  [Text "=== Band Structure Analysis ==="])
         [Text "Band structure analysis:";
          Fmt "  Valence band maximum: " (Finite vb_max) 3 " eV";
          Fmt "  Conduction band minimum: " (Finite cb_min) 3 " eV";
          Fmt "  Band gap: " (Finite (cb_min - vb_max)) 3 " eV";
          Text "Band structure analysis completed!"]).
Proof.
  assert (Hfile : files (world_with "bands.dat" (Table (Array2 wide_table)))
                    "bands.dat" = Table (Array2 wide_table)) by reflexivity.
  assert (Hwf : well_shaped wide_table) by (repeat constructor).
  assert (Hrows : (2 <= length (rows wide_table))%nat) by (simpl; lia).
  assert (Hc : (21 < ncols wide_table)%nat) by (simpl; lia).
  split; [exact Hfile | split; [exact Hwf | split; [exact Hrows | split; [exact Hc |]]]].
  exact (band_main_completes_on_more_than_twenty_bands (fun _ _ _ => ret tt)
           _ _ wide_table Hfile Hwf Hrows Hc eq_refl).
Defined.

Lemma last_at_index (l : list Q) :
  l <> [] -> last l 0 = at_index l (length l - 1).
Proof.
  unfold at_index. induction l as [| a [| b l] IH]; intros Hne.
  - congruence.
  - reflexivity.
  - change (last (a :: b :: l) 0) with (last (b :: l) 0).
    rewrite IH by discriminate. simpl. now rewrite Nat.sub_0_r.
Qed.

(** X8.  The four reads that place the high-symmetry markers of a band or
    phonon-dispersion plot stay within bounds on every non-empty
    k_points: they return its first entry, the entries at a third and at
    two thirds of its length, and its last entry; on an empty k_points the
    first read raises IndexError. *)
Theorem high_symmetry_reads_in_bounds (k_points : list Q) :
  (k_points <> [] ->
   high_symmetry_points k_points
   = Ok (at_index k_points 0,
         at_index k_points (length k_points / 3),
         at_index k_points (2 * length k_points / 3),
         at_index k_points (length k_points - 1))) /\
  (k_points = [] -> high_symmetry_points k_points = Raise IndexError).
Proof.
  split.
  - intros Hne.
    assert (Hpos : (0 < length k_points)%nat)
      by (destruct k_points; [congruence | simpl; lia]).
    assert (H1 : (length k_points / 3 < length k_points)%nat)
      by (apply Nat.Div0.div_lt_upper_bound; lia).
    assert (H2 : (2 * length k_points / 3 < length k_points)%nat)
      by (apply Nat.Div0.div_lt_upper_bound; lia).
    unfold high_symmetry_points.
    rewrite (item_in_range k_points 0 Hpos). cbn [rbind].
    rewrite (item_in_range k_points _ H1). cbn [rbind].
    rewrite (item_in_range k_points _ H2). cbn [rbind].
    unfold np.item_last. rewrite (last_at_index k_points Hne).
    destruct k_points as [| x l]; [congruence | reflexivity].
  - intros ->. reflexivity.
Qed.

Lemma high_symmetry_reads_in_bounds_witness :
  [0; 0.5; 1; 1.5] <> [] /\
  high_symmetry_points [0; 0.5; 1; 1.5] = Ok (0, 0.5, 1, 1.5).
Proof.
  assert (H : [0; 0.5; 1; 1.5] <> []) by discriminate.
  split; [exact H |].
  exact (proj1 (high_symmetry_reads_in_bounds [0; 0.5; 1; 1.5]) H).
Defined.

End BandScript.

(** ** More on the phonon script *)

Section PhononScript.
Import qe_phonon_analysis.

Lemma range_sum_le (f g : nat -> Q) : forall n lo,
  (forall i, (lo <= i < lo + n)%nat -> f i <= g i) ->
  range_sum lo n f <= range_sum lo n g.
Proof.
  induction n as [| n IH]; intros lo H; simpl; [apply Qle_refl |].
  apply Qplus_le_compat; [apply H; lia |]. apply IH. intros i Hi. apply H. lia.
Qed.

Lemma range_sum_scal (c : Q) (f : nat -> Q) : forall n lo,
  range_sum lo n (fun i => c * f i) == c * range_sum lo n f.
Proof.
  induction n as [| n IH]; intros lo; simpl; [ring |]. rewrite IH. ring.
Qed.

(** A sum of consecutive differences collapses to its two ends. *)
Lemma range_sum_telescope (g : nat -> Q) : forall m,
  range_sum 0 m (fun i => g (S i) - g i) == g m - g 0%nat.
Proof.
  induction m as [| m IH]; [simpl; ring |].
  rewrite range_sum_last, IH. simpl. ring.
Qed.

Lemma at_index_repeat (c : Q) : forall n i,
  (i < n)%nat -> at_index (repeat c n) i = c.
Proof.
  unfold at_index. induction n as [| n IH]; intros i Hi; [lia |].
  destruct i as [| i]; [reflexivity |]. simpl. apply IH. lia.
Qed.

Lemma at_index_map_in_range (f : Q -> Q) (l : list Q) (i : nat) :
  (i < length l)%nat -> at_index (map f l) i = f (at_index l i).
Proof.
  intros Hi. unfold at_index.
  rewrite (nth_indep (map f l) 0 (f 0)) by (rewrite length_map; exact Hi).
  apply map_nth.
Qed.

(** The three numbers the analyzer returns on a non-empty curve, in terms
    of the two trapezoidal sums. *)
Lemma analyze_phonon_values (frequency dos : list Q) (w : world) :
  length frequency = length dos -> frequency <> [] ->
  exists max_freq total weighted,
    analyze_phonon_properties frequency dos w
    = (Ok (max_freq, np.true_divide weighted total, total),
       printed w
         [Text "Phonon analysis:";
          Fmt "  Maximum frequency: " (Finite max_freq) 1 " cm⁻¹";
          Fmt "  Average frequency: " (np.true_divide weighted total) 1 " cm⁻¹";
          Fmt "  Total phonon states: " (Finite total) 1 EmptyString]) /\
    total == trapezoid_sum (length frequency) (at_index frequency) (at_index dos) /\
    weighted == trapezoid_sum (length frequency) (at_index frequency)
                  (fun i => at_index frequency i * at_index dos i) /\
    In max_freq frequency /\
    (forall v, In v frequency -> v <= max_freq).
Proof.
  intros Hlen Hne.
  destruct (trapz_is_trapezoid_sum dos frequency Hlen) as (total & Ht & Htot).
  destruct (weighted_integral_is_trapezoid_sum frequency dos Hlen)
    as (wt & Hw & Hwt).
  destruct (max1_spec frequency Hne) as (mx & Hm & Hin & Hub).
  exists mx, total, wt.
  split; [now apply analyze_phonon_run | auto].
Qed.

(** The trapezoidal sum of a constant is the constant times the span of
    the grid, whatever the spacing. *)
Lemma trapezoid_sum_constant (n : nat) (x : nat -> Q) (c : Q) :
  trapezoid_sum n x (fun _ => c) == c * (x (n - 1)%nat - x 0%nat).
Proof.
  unfold trapezoid_sum.
  rewrite (range_sum_ext _ (fun i => c * (x (S i) - x i))).
  - rewrite range_sum_scal, (range_sum_telescope x). reflexivity.
  - intros i _. unfold trapezoid. field.
Qed.

Lemma trapezoid_sum_linear (n : nat) (x : nat -> Q) (c : Q) :
  trapezoid_sum n x (fun k => x k * c)
  == c / 2 * (x (n - 1)%nat * x (n - 1)%nat - x 0%nat * x 0%nat).
Proof.
  unfold trapezoid_sum.
  rewrite (range_sum_ext _ (fun i => c / 2 * (x (S i) * x (S i) - x i * x i))).
  - rewrite range_sum_scal, (range_sum_telescope (fun k => x k * x k)). reflexivity.
  - intros i _. unfold trapezoid. field.
Qed.

(** X9.  For a constant density c (nonzero) on any grid of at least two
    points whose two ends differ, uniform or not, the analyzer returns the
    total c * (x_last - x_first) and the average frequency
    (x_first + x_last) / 2, the midpoint of the grid. *)
Theorem phonon_constant_density (frequency : list Q) (c : Q) (w : world) :
  (2 <= length frequency)%nat ->
  ~ c == 0 ->
  ~ at_index frequency (length frequency - 1) == at_index frequency 0 ->
  exists max_freq avg_freq total_states,
    fst (analyze_phonon_properties frequency (repeat c (length frequency)) w)
    = Ok (max_freq, Finite avg_freq, total_states) /\
    total_states
    == c * (at_index frequency (length frequency - 1) - at_index frequency 0) /\
    avg_freq
    == (at_index frequency 0 + at_index frequency (length frequency - 1)) / 2.
Proof.
  intros Hn Hc Hspan.
  set (n := length frequency) in *.
  set (xf := at_index frequency 0) in *.
  set (xl := at_index frequency (n - 1)) in *.
  assert (Hlen : length frequency = length (repeat c n))
    by (rewrite repeat_length; reflexivity).
  assert (Hne : frequency <> []).
  { intros E. unfold n in Hn. rewrite E in Hn. simpl in Hn. lia. }
  destruct (analyze_phonon_values frequency (repeat c n) w Hlen Hne)
    as (mx & total & wt & Hrun & Htot & Hwt & _).
  fold n in Htot, Hwt.
  assert (Htot' : total == c * (xl - xf)).
  { rewrite Htot.
    transitivity (trapezoid_sum n (at_index frequency) (fun _ => c));
      [| apply trapezoid_sum_constant].
    unfold trapezoid_sum. apply range_sum_ext. intros i Hi. unfold trapezoid.
    rewrite !at_index_repeat by lia. reflexivity. }
  assert (Hwt' : wt == c / 2 * (xl * xl - xf * xf)).
  { rewrite Hwt.
    transitivity (trapezoid_sum n (at_index frequency)
                    (fun k => at_index frequency k * c));
      [| apply trapezoid_sum_linear].
    unfold trapezoid_sum. apply range_sum_ext. intros i Hi. unfold trapezoid.
    rewrite !at_index_repeat by lia. reflexivity. }
  assert (Hd : ~ xl - xf == 0) by (intros E; apply Hspan; lra).
  assert (Hnz : ~ total == 0).
  { rewrite Htot'. intros E. apply Qmult_integral in E. tauto. }
  exists mx, (wt / total), total. rewrite Hrun. simpl.
  rewrite (true_divide_nonzero _ _ Hnz).
  split; [reflexivity | split; [exact Htot' |]].
  rewrite Hwt', Htot'. field. split; assumption.
Qed.

Lemma phonon_constant_density_witness :
  (2 <= length sample_frequency)%nat /\
  ~ 2 == 0 /\
  ~ at_index sample_frequency (length sample_frequency - 1)
    == at_index sample_frequency 0 /\
  exists max_freq avg_freq total_states,
    fst (analyze_phonon_properties sample_frequency
           (repeat 2 (length sample_frequency)) empty_world)
    = Ok (max_freq, Finite avg_freq, total_states) /\
    total_states
    == 2 * (at_index sample_frequency (length sample_frequency - 1)
            - at_index sample_frequency 0) /\
    avg_freq
    == (at_index sample_frequency 0
        + at_index sample_frequency (length sample_frequency - 1)) / 2.
Proof.
  assert (Hn : (2 <= length sample_frequency)%nat) by (simpl; lia).
  assert (Hc : ~ 2 == 0) by (vm_compute; discriminate).
  assert (Hspan : ~ at_index sample_frequency (length sample_frequency - 1)
                    == at_index sample_frequency 0) by (vm_compute; discriminate).
  split; [exact Hn | split; [exact Hc | split; [exact Hspan |]]].
  exact (phonon_constant_density sample_frequency 2 empty_world Hn Hc Hspan).
Defined.

(** X10.  In exact arithmetic, rescaling the density by a nonzero factor
    k rescales the total number of states by k and leaves the maximum and
    the average frequency as they were (a non-finite average stays
    non-finite).  In float64 the rescaled values are rounded anew and can
    differ in the last digit. *)
Theorem phonon_average_invariant_under_rescaling
        (frequency dos : list Q) (k : Q) (w : world) :
  length frequency = length dos -> frequency <> [] -> ~ k == 0 ->
  exists max_freq avg_freq total_states avg_freq' total_states',
    fst (analyze_phonon_properties frequency dos w)
    = Ok (max_freq, avg_freq, total_states) /\
    fst (analyze_phonon_properties frequency (map (Qmult k) dos) w)
    = Ok (max_freq, avg_freq', total_states') /\
    total_states' == k * total_states /\
    scalar_equiv avg_freq avg_freq'.
Proof.
  intros Hlen Hne Hk.
  assert (Hlen' : length frequency = length (map (Qmult k) dos))
    by (rewrite length_map; exact Hlen).
  destruct (trapz_is_trapezoid_sum dos frequency Hlen) as (total & Ht & Htot).
  destruct (weighted_integral_is_trapezoid_sum frequency dos Hlen)
    as (wt & Hw & Hwt).
  destruct (trapz_is_trapezoid_sum _ frequency Hlen') as (total' & Ht' & Htot').
  destruct (weighted_integral_is_trapezoid_sum frequency _ Hlen')
    as (wt' & Hw' & Hwt').
  destruct (max1_spec frequency Hne) as (mx & Hm & _).
  assert (Hscale_t : total' == k * total).
  { rewrite Htot', Htot. unfold trapezoid_sum. rewrite <- range_sum_scal.
    apply range_sum_ext. intros i Hi. unfold trapezoid.
    rewrite !at_index_map_in_range by lia. field. }
  assert (Hscale_w : wt' == k * wt).
  { rewrite Hwt', Hwt. unfold trapezoid_sum. rewrite <- range_sum_scal.
    apply range_sum_ext. intros i Hi. unfold trapezoid.
    rewrite !at_index_map_in_range by lia. field. }
  exists mx, (np.true_divide wt total), total, (np.true_divide wt' total'), total'.
  rewrite (analyze_phonon_run frequency dos w total mx wt Ht Hm Hw).
  rewrite (analyze_phonon_run frequency _ w total' mx wt' Ht' Hm Hw').
  split; [reflexivity | split; [reflexivity | split; [exact Hscale_t |]]].
  unfold np.true_divide.
  destruct (Qeq_bool total 0) eqn:E; destruct (Qeq_bool total' 0) eqn:E'; simpl.
  - exact I.
  - apply Qeq_bool_iff in E. apply Qeq_bool_neq in E'. apply E'.
    rewrite Hscale_t, E. ring.
  - apply Qeq_bool_iff in E'. apply Qeq_bool_neq in E. apply E.
    rewrite Hscale_t in E'. apply Qmult_integral in E'. tauto.
  - apply Qeq_bool_neq in E. rewrite Hscale_w, Hscale_t. field. split; assumption.
Qed.

Lemma phonon_average_invariant_under_rescaling_witness :
  length sample_frequency = length sample_dos /\ sample_frequency <> [] /\
  ~ 3 == 0 /\
  exists max_freq avg_freq total_states avg_freq' total_states',
    fst (analyze_phonon_properties sample_frequency sample_dos empty_world)
    = Ok (max_freq, avg_freq, total_states) /\
    fst (analyze_phonon_properties sample_frequency (map (Qmult 3) sample_dos)
           empty_world)
    = Ok (max_freq, avg_freq', total_states') /\
    total_states' == 3 * total_states /\
    scalar_equiv avg_freq avg_freq'.
Proof.
  assert (Hlen : length sample_frequency = length sample_dos) by reflexivity.
  assert (Hne : sample_frequency <> []) by discriminate.
  assert (Hk : ~ 3 == 0) by (vm_compute; discriminate).
  split; [exact Hlen | split; [exact Hne | split; [exact Hk |]]].
  exact (phonon_average_invariant_under_rescaling
           sample_frequency sample_dos 3 empty_world Hlen Hne Hk).
Defined.

End PhononScript.

Section PhononBounds.
Import qe_phonon_analysis.

(** On a non-decreasing grid every point is at or above the first. *)
Lemma sorted_above_first (n : nat) (x : nat -> Q) :
  (forall i, (S i < n)%nat -> x i <= x (S i)) ->
  forall i, (i < n)%nat -> x 0%nat <= x i.
Proof.
  intros Hs. induction i as [| i IH]; intros Hi; [apply Qle_refl |].
  eapply Qle_trans; [apply IH; lia | apply Hs; lia].
Qed.

(** One trapezoid of x*y lies between [lo] and [hi] times the trapezoid of
    y when the step and the two values are non-negative and both abscissas
    lie between [lo] and [hi]. *)
Lemma weighted_trapezoid_bounds (x y : nat -> Q) (i : nat) (lo hi : Q) :
  x i <= x (S i) -> 0 <= y i -> 0 <= y (S i) ->
  lo <= x i <= hi -> lo <= x (S i) <= hi ->
  lo * trapezoid x y i <= trapezoid x (fun k => x k * y k) i /\
  trapezoid x (fun k => x k * y k) i <= hi * trapezoid x y i.
Proof.
  intros Hstep Hy0 Hy1 [Hl0 Hh0] [Hl1 Hh1]. unfold trapezoid.
  set (d := x (S i) - x i). assert (Hd : 0 <= d) by (unfold d; lra).
  set (a := x i) in *. set (b := x (S i)) in *.
  set (p := y i) in *. set (q := y (S i)) in *.
  assert (Hp : 0 <= d * p) by (apply Qmult_le_0_compat; assumption).
  assert (Hq : 0 <= d * q) by (apply Qmult_le_0_compat; assumption).
  assert (Ha1 : 0 <= (a - lo) * (d * p)) by (apply Qmult_le_0_compat; lra).
  assert (Ha2 : 0 <= (hi - a) * (d * p)) by (apply Qmult_le_0_compat; lra).
  assert (Hb1 : 0 <= (b - lo) * (d * q)) by (apply Qmult_le_0_compat; lra).
  assert (Hb2 : 0 <= (hi - b) * (d * q)) by (apply Qmult_le_0_compat; lra).
  split.
  - assert (E : 2 * (d * (a * p + b * q) / 2 - lo * (d * (p + q) / 2))
                == (a - lo) * (d * p) + (b - lo) * (d * q)) by field.
    revert E Ha1 Hb1.
    generalize ((a - lo) * (d * p)) ((b - lo) * (d * q))
               (d * (a * p + b * q) / 2) (lo * (d * (p + q) / 2)).
    intros u v t1 t2 E Hu Hv. clear - E Hu Hv. lra.
  - assert (E : 2 * (hi * (d * (p + q) / 2) - d * (a * p + b * q) / 2)
                == (hi - a) * (d * p) + (hi - b) * (d * q)) by field.
    revert E Ha2 Hb2.
    generalize ((hi - a) * (d * p)) ((hi - b) * (d * q))
               (d * (a * p + b * q) / 2) (hi * (d * (p + q) / 2)).
    intros u v t1 t2 E Hu Hv. clear - E Hu Hv. lra.
Qed.

(** X11.  In exact arithmetic, for a non-negative density on a
    non-decreasing grid with a positive total, the average frequency is a
    finite number between the first frequency of the grid and the maximum
    frequency the analyzer reports.  In float64 the rounded quotient can
    pass an end of the grid by a unit in the last place. *)
Theorem phonon_average_within_grid (frequency dos : list Q) (w : world) :
  length frequency = length dos ->
  (forall i, (S i < length frequency)%nat ->
             at_index frequency i <= at_index frequency (S i)) ->
  (forall i, (i < length frequency)%nat -> 0 <= at_index dos i) ->
  0 < trapezoid_sum (length frequency) (at_index frequency) (at_index dos) ->
  exists max_freq avg_freq total_states,
    fst (analyze_phonon_properties frequency dos w)
    = Ok (max_freq, Finite avg_freq, total_states) /\
    at_index frequency 0 <= avg_freq /\
    avg_freq <= max_freq.
Proof.
  intros Hlen Hsorted Hpos Htotal.
  set (n := length frequency) in *.
  set (x := at_index frequency) in *. set (y := at_index dos) in *.
  assert (Hne : frequency <> []).
  { intros E. unfold n in Htotal. rewrite E in Htotal. simpl in Htotal.
    unfold trapezoid_sum in Htotal. simpl in Htotal. lra. }
  destruct (analyze_phonon_values frequency dos w Hlen Hne)
    as (mx & total & wt & Hrun & Htot & Hwt & _ & Hub).
  fold n x y in Htot, Hwt.
  assert (Hxub : forall i, (i < n)%nat -> x i <= mx).
  { intros i Hi. apply Hub. unfold x, at_index. apply nth_In. exact Hi. }
  assert (Hxlb : forall i, (i < n)%nat -> x 0%nat <= x i)
    by (apply sorted_above_first; exact Hsorted).
  assert (Hterm : forall i, (0 <= i < 0 + (n - 1))%nat ->
            x 0%nat * trapezoid x y i <= trapezoid x (fun k => x k * y k) i /\
            trapezoid x (fun k => x k * y k) i <= mx * trapezoid x y i).
  { intros i Hi. apply weighted_trapezoid_bounds.
    - apply Hsorted. lia.
    - apply Hpos. lia.
    - apply Hpos. lia.
    - split; [apply Hxlb | apply Hxub]; lia.
    - split; [apply Hxlb | apply Hxub]; lia. }
  assert (Hlow : x 0%nat * total <= wt).
  { rewrite Htot, Hwt. unfold trapezoid_sum. rewrite <- range_sum_scal.
    apply range_sum_le. intros i Hi. apply (Hterm i Hi). }
  assert (Hhigh : wt <= mx * total).
  { rewrite Htot, Hwt. unfold trapezoid_sum. rewrite <- range_sum_scal.
    apply range_sum_le. intros i Hi. apply (Hterm i Hi). }
  assert (Htpos : 0 < total) by (rewrite Htot; exact Htotal).
  assert (Hnz : ~ total == 0) by (intros E; rewrite E in Htpos; lra).
  exists mx, (wt / total), total. rewrite Hrun. simpl.
  rewrite (true_divide_nonzero _ _ Hnz).
  split; [reflexivity | split].
  - apply Qle_shift_div_l; assumption.
  - apply Qle_shift_div_r; assumption.
Qed.

Lemma phonon_average_within_grid_witness :
  length sample_frequency = length sample_dos /\
  (forall i, (S i < length sample_frequency)%nat ->
             at_index sample_frequency i <= at_index sample_frequency (S i)) /\
  (forall i, (i < length sample_frequency)%nat -> 0 <= at_index sample_dos i) /\
  0 < trapezoid_sum (length sample_frequency) (at_index sample_frequency)
        (at_index sample_dos) /\
  exists max_freq avg_freq total_states,
    fst (analyze_phonon_properties sample_frequency sample_dos empty_world)
    = Ok (max_freq, Finite avg_freq, total_states) /\
    at_index sample_frequency 0 <= avg_freq /\
    avg_freq <= max_freq.
Proof.
  assert (Hlen : length sample_frequency = length sample_dos) by reflexivity.
  assert (Hsorted : forall i, (S i < length sample_frequency)%nat ->
             at_index sample_frequency i <= at_index sample_frequency (S i)).
  { intros i Hi. simpl in Hi.
    destruct i as [| [| i]]; [vm_compute; discriminate .. | lia]. }
  assert (Hpos : forall i, (i < length sample_frequency)%nat ->
             0 <= at_index sample_dos i).
  { intros i Hi. simpl in Hi.
    destruct i as [| [| [| i]]]; [vm_compute; discriminate .. | lia]. }
  assert (Htotal : 0 < trapezoid_sum (length sample_frequency)
                         (at_index sample_frequency) (at_index sample_dos))
    by reflexivity.
  split; [exact Hlen | split; [exact Hsorted | split; [exact Hpos |
    split; [exact Htotal |]]]].
  exact (phonon_average_within_grid sample_frequency sample_dos empty_world
           Hlen Hsorted Hpos Htotal).
Defined.

(** [np.trapz] can only fail on shapes. *)
Lemma trapz_raises_only_value_error (y x : list Q) (e : exn) :
  np.trapz y x = Raise e -> e = ValueError.
Proof.
  unfold np.trapz, np.broadcast1, rbind.
  destruct (length (np.diff x) =? _)%nat; [discriminate |].
  destruct (np.diff x) as [| d0 [| d1 d]];
    destruct (np.zip_with Qplus (tl y) (removelast y)) as [| s0 [| s1 s]];
    try discriminate; congruence.
Qed.

(** X12.  Curves with fewer than two points: on an empty frequency array
    the analyzer raises ValueError, whatever the density, having printed
    nothing; on a single point it returns that frequency as the maximum, a
    total of 0 and a non-finite average. *)
Theorem phonon_fewer_than_two_points :
  (forall (dos : list Q) (w : world),
      analyze_phonon_properties [] dos w = (Raise ValueError, w)) /\
  (forall (f0 d0 : Q) (w : world),
      analyze_phonon_properties [f0] [d0] w
      = (Ok (f0, NonFinite, 0),
         printed w
           [Text "Phonon analysis:";
            Fmt "  Maximum frequency: " (Finite f0) 1 " cm⁻¹";
            Fmt "  Average frequency: " NonFinite 1 " cm⁻¹";
            Fmt "  Total phonon states: " (Finite 0) 1 EmptyString])).
Proof.
  split.
  - intros dos w. unfold analyze_phonon_properties, bind, lift.
    destruct (np.trapz dos []) as [t | e] eqn:E.
    + reflexivity.
    + now rewrite (trapz_raises_only_value_error _ _ _ E).
  - intros f0 d0 w. unfold analyze_phonon_properties, bind, lift, print, ret, printed.
    simpl. repeat rewrite <- app_assoc. reflexivity.
Qed.

(** X13.  The two halves of the phonon script are independent: with an
    unreadable phonon_dos.dat and a phonon_frequencies.dat that parses to
    a table, the DOS plot and analysis are skipped, the dispersion is
    still plotted from column 0 and the remaining columns, and the script
    ends normally. *)
Theorem phonon_main_plots_dispersion_without_dos
        (plot_dos : list Q -> list Q -> string -> M unit)
        (plot_dispersion : list Q -> ndarray2 -> string -> M unit)
        (w w_plotted : world) (a : ndarray2) :
  unreadable w "phonon_dos.dat" ->
  files w "phonon_frequencies.dat" = Table (Array2 a) -> (0 < ncols a)%nat ->
  plot_dispersion (map (fun r => nth 0 r 0) (rows a)) (np.cols_from 1 a)
    "Phonon Dispersion"%string
    (printed w [Text "=== Phonon Analysis ===";
                Text "Error reading phonon DOS file: phonon_dos.dat"])
  = (Ok tt, w_plotted) ->
  main plot_dos plot_dispersion w
  = (Ok tt, printed w_plotted [Text "Phonon analysis completed!"]).
Proof.
  intros Hdos Hfile Hc Hplot.
  unfold main, bind. cbn [print].
  rewrite read_phonon_dos_unreadable by exact Hdos.
  unfold printed at 1, ret at 1. cbn [stdout files].
  rewrite (read_phonon_modes_table _ "phonon_frequencies.dat" a)
    by (try exact Hfile; exact Hc).
  unfold printed in Hplot. cbn [stdout files] in Hplot.
  rewrite <- app_assoc. simpl app. rewrite Hplot. reflexivity.
Qed.

Lemma phonon_main_plots_dispersion_without_dos_witness :
  unreadable (world_with "phonon_frequencies.dat" (Table (Array2 small_table)))
    "phonon_dos.dat" /\
  files (world_with "phonon_frequencies.dat" (Table (Array2 small_table)))
    "phonon_frequencies.dat" = Table (Array2 small_table) /\
  (0 < ncols small_table)%nat /\
  main (fun _ _ _ => ret tt) (fun _ _ _ => ret tt)
    (world_with "phonon_frequencies.dat" (Table (Array2 small_table)))
  = (Ok tt,
     printed
       (printed (world_with "phonon_frequencies.dat" (Table (Array2 small_table)))
          [Text "=== Phonon Analysis ===";
           Text "Error reading phonon DOS file: phonon_dos.dat"])
       [Text "Phonon analysis completed!"]).
Proof.
  assert (Hdos : unreadable
                   (world_with "phonon_frequencies.dat" (Table (Array2 small_table)))
                   "phonon_dos.dat") by (left; reflexivity).
  assert (Hfile : files
                    (world_with "phonon_frequencies.dat" (Table (Array2 small_table)))
                    "phonon_frequencies.dat" = Table (Array2 small_table))
    by reflexivity.
  assert (Hc : (0 < ncols small_table)%nat) by (simpl; lia).
  split; [exact Hdos | split; [exact Hfile | split; [exact Hc |]]].
  exact (phonon_main_plots_dispersion_without_dos
           (fun _ _ _ => ret tt) (fun _ _ _ => ret tt) _ _ small_table
           Hdos Hfile Hc eq_refl).
Defined.

(** X27.  In exact arithmetic, on a grid symmetric about 0
    (x[i] = -x[n-1-i]) carrying symmetric values (y[i] = y[n-1-i]) with a
    nonzero total, the x-weighted trapezoidal integral the analyzer
    computes is 0 and the average frequency it returns is 0.  In float64
    the trapezoids of mirrored segments are still opposite, but their
    rounded sum is in general a residue of the size of the rounding
    errors. *)
Theorem phonon_symmetric_curve_average_vanishes
        (frequency dos : list Q) (w : world) :
  length frequency = length dos ->
  (forall i, (i < length frequency)%nat ->
     at_index frequency i == - at_index frequency (length frequency - 1 - i)) ->
  (forall i, (i < length frequency)%nat ->
     at_index dos i == at_index dos (length frequency - 1 - i)) ->
  ~ trapezoid_sum (length frequency) (at_index frequency) (at_index dos) == 0 ->
  exists max_freq avg_freq total_states weighted,
    weighted_integral frequency dos = Ok weighted /\
    weighted == 0 /\
    fst (analyze_phonon_properties frequency dos w)
    = Ok (max_freq, Finite avg_freq, total_states) /\
    avg_freq == 0.
Proof.
  intros Hlen Hx Hy Hnz.
  assert (Hne : frequency <> []).
  { intros E. apply Hnz. rewrite E. reflexivity. }
  destruct (weighted_integral_is_trapezoid_sum frequency dos Hlen)
    as (wt & Hw & Hwt).
  destruct (trapz_is_trapezoid_sum dos frequency Hlen) as (total & Ht & Htot).
  destruct (max1_spec frequency Hne) as (mx & Hm & _).
  assert (Hzero : wt == 0).
  { rewrite Hwt. now apply symmetric_trapezoid_sum_vanishes. }
  assert (Hnz' : ~ total == 0) by now rewrite Htot.
  exists mx, (wt / total), total, wt.
  split; [exact Hw |]. split; [exact Hzero |].
  rewrite (analyze_phonon_run frequency dos w total mx wt Ht Hm Hw). simpl.
  rewrite (true_divide_nonzero _ _ Hnz'). split; [reflexivity |].
  rewrite Hzero. field. exact Hnz'.
Qed.

Lemma phonon_symmetric_curve_average_vanishes_witness :
  length symmetric_frequency = length symmetric_dos /\
  (forall i, (i < length symmetric_frequency)%nat ->
     at_index symmetric_frequency i
     == - at_index symmetric_frequency (length symmetric_frequency - 1 - i)) /\
  (forall i, (i < length symmetric_frequency)%nat ->
     at_index symmetric_dos i
     == at_index symmetric_dos (length symmetric_frequency - 1 - i)) /\
  ~ trapezoid_sum (length symmetric_frequency) (at_index symmetric_frequency)
      (at_index symmetric_dos) == 0 /\
  exists max_freq avg_freq total_states weighted,
    weighted_integral symmetric_frequency symmetric_dos = Ok weighted /\
    weighted == 0 /\
    fst (analyze_phonon_properties symmetric_frequency symmetric_dos empty_world)
    = Ok (max_freq, Finite avg_freq, total_states) /\
    avg_freq == 0.
Proof.
  assert (Hlen : length symmetric_frequency = length symmetric_dos)
    by reflexivity.
  assert (Hx : forall i, (i < length symmetric_frequency)%nat ->
             at_index symmetric_frequency i
             == - at_index symmetric_frequency
                    (length symmetric_frequency - 1 - i)).
  { intros i Hi. simpl in Hi.
    destruct i as [| [| [| [| i]]]]; [reflexivity .. | lia]. }
  assert (Hy : forall i, (i < length symmetric_frequency)%nat ->
             at_index symmetric_dos i
             == at_index symmetric_dos (length symmetric_frequency - 1 - i)).
  { intros i Hi. simpl in Hi.
    destruct i as [| [| [| [| i]]]]; [reflexivity .. | lia]. }
  assert (Hnz : ~ trapezoid_sum (length symmetric_frequency)
                    (at_index symmetric_frequency) (at_index symmetric_dos) == 0)
    by (vm_compute; discriminate).
  split; [exact Hlen | split; [exact Hx | split; [exact Hy | split; [exact Hnz |]]]].
  exact (phonon_symmetric_curve_average_vanishes
           symmetric_frequency symmetric_dos empty_world Hlen Hx Hy Hnz).
Defined.

End PhononBounds.

(** ** More on the PDOS script *)

Section PdosScript.
Import qe_pdos_analysis.

(** When the first point of the grid is the one closest to 0, nothing lies
    below the Fermi index and the search for the valence peak fails. *)
Lemma analyze_atom_without_valence_side (energy pdos : list Q) :
  fermi_index energy 0 -> analyze_atom energy pdos = Raise ValueError.
Proof.
  intros Hf. unfold analyze_atom.
  rewrite (fermi_index_computed energy 0 Hf). cbn [rbind firstn skipn].
  change (np.trapz [] []) with (Ok (np.sum [])). cbn [rbind].
  destruct (np.trapz pdos energy) as [t | e] eqn:E; cbn [rbind].
  - reflexivity.
  - now rewrite (trapz_raises_only_value_error _ _ _ E).
Qed.

Lemma analyze_items_first_failure (energy : list Q) (labels : list string) (e : exn) :
  (forall pdos, analyze_atom energy pdos = Raise e) ->
  forall items i acc,
    (exists atom pdos, In (atom, Some pdos) items) ->
    analyze_items energy items labels i acc = Raise e.
Proof.
  intros Hfail. induction items as [| [atom [pdos |]] rest IH]; intros i acc Hex.
  - destruct Hex as (a & p & []).
  - simpl. now rewrite Hfail.
  - simpl. apply IH. destruct Hex as (a & p & [H | H]); [discriminate H | eauto].
Qed.

(** X14.  If the first point of the energy grid is the one closest to 0
    (a grid that starts at or above the Fermi level), nothing lies below
    the Fermi index: for every dictionary holding at least one curve, of
    whatever length, analyze_pdos_contributions raises ValueError. *)
Theorem pdos_analysis_needs_a_valence_side
        (energy : list Q) (pdos_data : list (string * option (list Q)))
        (labels : list string) :
  fermi_index energy 0 ->
  (exists atom pdos, In (atom, Some pdos) pdos_data) ->
  analyze_pdos_contributions energy pdos_data labels = Raise ValueError.
Proof.
  intros Hf Hex. unfold analyze_pdos_contributions.
  apply analyze_items_first_failure; [| exact Hex].
  intros pdos. now apply analyze_atom_without_valence_side.
Qed.

Lemma conduction_only_fermi_index : fermi_index conduction_only_energy 0.
Proof.
  destruct (fermi_index_exists conduction_only_energy) as (f & Hf); [discriminate |].
  assert (E : Ok f = Ok 0%nat).
  { rewrite <- (fermi_index_computed conduction_only_energy f Hf). reflexivity. }
  injection E as ->. exact Hf.
Qed.

Lemma pdos_analysis_needs_a_valence_side_witness :
  fermi_index conduction_only_energy 0 /\
  (exists atom pdos, In (atom, Some pdos) [("W"%string, Some [1; 2; 1])]) /\
  analyze_pdos_contributions conduction_only_energy
    [("W"%string, Some [1; 2; 1])] ["W"%string]
  = Raise ValueError.
Proof.
  assert (Hex : exists atom pdos, In (atom, Some pdos) [("W"%string, Some [1; 2; 1])])
    by (exists "W"%string, [1; 2; 1]; left; reflexivity).
  split; [exact conduction_only_fermi_index | split; [exact Hex |]].
  exact (pdos_analysis_needs_a_valence_side conduction_only_energy
           [("W"%string, Some [1; 2; 1])] ["W"%string]
           conduction_only_fermi_index Hex).
Defined.

(** The last field of the result is the reduction of the whole curve. *)
Lemma analyze_atom_max_pdos (energy pdos : list Q) (r : contributions) :
  analyze_atom energy pdos = Ok r -> np.max1 pdos = Ok (max_pdos r).
Proof.
  unfold analyze_atom, rbind. intros H.
  repeat match type of H with
         | context [match ?t with Ok _ => _ | Raise _ => _ end] =>
             destruct t; try discriminate H
         end.
  injection H as <-. reflexivity.
Qed.

(** X15.  For a curve with a point on each side of the Fermi index, the
    reported maximum PDOS bounds every value of the curve and equals the
    value at the valence peak or the value at the conduction peak. *)
Theorem pdos_maximum_is_at_a_peak
        (energy pdos : list Q) (atom label : string) (f : nat) :
  length energy = length pdos -> fermi_index energy f -> (0 < f)%nat ->
  exists r v c,
    analyze_pdos_contributions energy [(atom, Some pdos)] [label]
    = Ok [(label, r)] /\
    first_max_between (at_index pdos) 0 f v /\
    first_max_between (at_index pdos) f (length pdos) c /\
    (forall k, (k < length pdos)%nat -> at_index pdos k <= max_pdos r) /\
    (max_pdos r == at_index pdos v \/ max_pdos r == at_index pdos c).
Proof.
  intros Hlen Hf Hpos.
  destruct (analyze_atom_spec energy pdos f Hlen Hf Hpos)
    as (r & v & c & Hr & _ & _ & _ & Hv & _ & Hc & _).
  pose proof (analyze_atom_max_pdos energy pdos r Hr) as Hmax.
  assert (Hne : pdos <> []).
  { destruct Hc as (Hrange & _). destruct pdos; simpl in *; [lia | discriminate]. }
  destruct (max1_spec pdos Hne) as (m & Hm & Hin & Hub).
  assert (m = max_pdos r) by congruence. subst m.
  exists r, v, c. rewrite analyze_single_curve, Hr. simpl.
  split; [reflexivity | split; [exact Hv | split; [exact Hc | split]]].
  - intros k Hk. apply Hub. unfold at_index. now apply nth_In.
  - destruct (In_nth pdos (max_pdos r) 0 Hin) as (k & Hk & Hnth).
    fold (at_index pdos k) in Hnth.
    destruct Hv as (Hvr & Hvub & _). destruct Hc as (Hcr & Hcub & _).
    assert (Hvle : at_index pdos v <= max_pdos r)
      by (apply Hub; unfold at_index; apply nth_In; lia).
    assert (Hcle : at_index pdos c <= max_pdos r)
      by (apply Hub; unfold at_index; apply nth_In; lia).
    destruct (Nat.lt_ge_cases k f) as [Hlt | Hge].
    + left. pose proof (Hvub k ltac:(lia)) as Hkv. rewrite Hnth in Hkv.
      apply Qle_antisym; assumption.
    + right. pose proof (Hcub k ltac:(lia)) as Hkc. rewrite Hnth in Hkc.
      apply Qle_antisym; assumption.
Qed.

Lemma pdos_maximum_is_at_a_peak_witness :
  length peak_energy = length peak_pdos /\ fermi_index peak_energy 2 /\
  (0 < 2)%nat /\
  exists r v c,
    analyze_pdos_contributions peak_energy [("S"%string, Some peak_pdos)]
      ["S"%string]
    = Ok [("S"%string, r)] /\
    first_max_between (at_index peak_pdos) 0 2 v /\
    first_max_between (at_index peak_pdos) 2 (length peak_pdos) c /\
    (forall k, (k < length peak_pdos)%nat -> at_index peak_pdos k <= max_pdos r) /\
    (max_pdos r == at_index peak_pdos v \/ max_pdos r == at_index peak_pdos c).
Proof.
  assert (Hlen : length peak_energy = length peak_pdos) by reflexivity.
  assert (Hpos : (0 < 2)%nat) by lia.
  split; [exact Hlen | split; [exact peak_energy_fermi_index | split; [exact Hpos |]]].
  exact (pdos_maximum_is_at_a_peak peak_energy peak_pdos "S"%string "S"%string 2%nat
           Hlen peak_energy_fermi_index Hpos).
Defined.

(** Every curve of the dictionary can be analysed. *)
Lemma curves_on_grid_analyzable
      (energy : list Q) (pdos_data : list (string * option (list Q))) (f : nat) :
  fermi_index energy f -> (0 < f)%nat ->
  (forall atom pdos, In (atom, Some pdos) pdos_data -> length energy = length pdos) ->
  forall atom pdos, In (atom, Some pdos) pdos_data ->
                    exists r, analyze_atom energy pdos = Ok r.
Proof.
  intros Hf Hpos Hgrid atom pdos Hin.
  destruct (analyze_atom_spec energy pdos f (Hgrid atom pdos Hin) Hf Hpos)
    as (r & _ & _ & Hr & _). eauto.
Qed.

(** X16.  Atoms whose PDOS is None are skipped: with every curve on the
    energy grid, a point on each side of the Fermi index and one distinct
    label per entry, the analysis succeeds and its result holds no entry
    under the label of an atom without data. *)
Theorem pdos_atoms_without_data_are_left_out
        (energy : list Q) (pdos_data : list (string * option (list Q)))
        (labels : list string) (f : nat) :
  fermi_index energy f -> (0 < f)%nat ->
  (forall atom pdos, In (atom, Some pdos) pdos_data -> length energy = length pdos) ->
  (length pdos_data <= length labels)%nat ->
  NoDup labels ->
  exists results,
    analyze_pdos_contributions energy pdos_data labels = Ok results /\
    forall k atom label,
      nth_error pdos_data k = Some (atom, None) ->
      nth_error labels k = Some label ->
      dict_get results label = None.
Proof.
  intros Hf Hpos Hgrid Hlen Hnodup.
  destruct (analyze_items_spec energy labels Hnodup pdos_data 0 [])
    as (results & Hrun & _ & Hrest).
  { exact (curves_on_grid_analyzable energy pdos_data f Hf Hpos Hgrid). }
  { simpl. exact Hlen. }
  exists results. split; [exact Hrun |].
  intros k atom label Hk Hl. rewrite Hrest; [reflexivity |].
  intros k' atom' pdos' Hk' Hl'. simpl in Hl'.
  assert (Hlt : (k' < length labels)%nat) by (apply nth_error_Some; congruence).
  assert (k' = k).
  { apply (proj1 (NoDup_nth_error labels) Hnodup k' k Hlt). congruence. }
  subst k'. congruence.
Qed.

Lemma pdos_atoms_without_data_are_left_out_witness :
  fermi_index peak_energy 2 /\ (0 < 2)%nat /\
  (forall atom pdos,
      In (atom, Some pdos) [("W"%string, None); ("Se"%string, Some peak_pdos)] ->
      length peak_energy = length pdos) /\
  (length [("W"%string, @None (list Q)); ("Se"%string, Some peak_pdos)]
   <= length atom_labels)%nat /\
  NoDup atom_labels /\
  exists results,
    analyze_pdos_contributions peak_energy
      [("W"%string, None); ("Se"%string, Some peak_pdos)] atom_labels
    = Ok results /\
    forall k atom label,
      nth_error [("W"%string, @None (list Q)); ("Se"%string, Some peak_pdos)] k
      = Some (atom, None) ->
      nth_error atom_labels k = Some label ->
      dict_get results label = None.
Proof.
  assert (Hpos : (0 < 2)%nat) by lia.
  assert (Hgrid : forall atom pdos,
             In (atom, Some pdos) [("W"%string, None); ("Se"%string, Some peak_pdos)] ->
             length peak_energy = length pdos).
  { intros atom pdos [H | [H | []]]; [discriminate H |].
    injection H as _ <-. reflexivity. }
  assert (Hlen : (length [("W"%string, @None (list Q)); ("Se"%string, Some peak_pdos)]
                  <= length atom_labels)%nat) by (simpl; lia).
  assert (Hnodup : NoDup atom_labels).
  { unfold atom_labels. repeat constructor; simpl; intuition discriminate. }
  split; [exact peak_energy_fermi_index | split; [exact Hpos | split; [exact Hgrid |
    split; [exact Hlen | split; [exact Hnodup |]]]]].
  exact (pdos_atoms_without_data_are_left_out peak_energy _ atom_labels 2%nat
           peak_energy_fermi_index Hpos Hgrid Hlen Hnodup).
Defined.

Lemma analyze_items_label_out_of_range (energy : list Q) (labels : list string) :
  forall items i acc,
    (forall atom pdos, In (atom, Some pdos) items ->
                       exists r, analyze_atom energy pdos = Ok r) ->
    (exists k atom pdos, nth_error items k = Some (atom, Some pdos) /\
                         (length labels <= i + k)%nat) ->
    analyze_items energy items labels i acc = Raise IndexError.
Proof.
  induction items as [| [atom [pdos |]] rest IH]; intros i acc Hok Hex.
  - destruct Hex as (k & a & p & Hk & _). destruct k; discriminate Hk.
  - destruct (Hok atom pdos (or_introl eq_refl)) as (r0 & Hr0).
    simpl. rewrite Hr0. cbn [rbind]. unfold label_at.
    destruct (nth_error labels i) as [l0 |] eqn:Hl0; cbn [rbind]; [| reflexivity].
    apply IH.
    + intros a p Hin. apply (Hok a p). now right.
    + destruct Hex as (k & a & p & Hk & Hlen).
      assert (Hi : (i < length labels)%nat) by (apply nth_error_Some; congruence).
      destruct k as [| k]; [lia |].
      exists k, a, p. split; [exact Hk | lia].
  - simpl. apply IH.
    + intros a p Hin. apply (Hok a p). now right.
    + destruct Hex as (k & a & p & Hk & Hlen).
      destruct k as [| k]; [discriminate Hk |].
      exists k, a, p. split; [exact Hk | lia].
Qed.

(** X17.  Labels are looked up by position in the dictionary, entries
    without data included: if some curve sits at a position for which
    atom_labels has no entry, the analysis raises IndexError (the curves
    themselves being analysable). *)
Theorem pdos_analysis_needs_a_label_per_position
        (energy : list Q) (pdos_data : list (string * option (list Q)))
        (labels : list string) (f k : nat) (atom : string) (pdos : list Q) :
  fermi_index energy f -> (0 < f)%nat ->
  (forall a p, In (a, Some p) pdos_data -> length energy = length p) ->
  nth_error pdos_data k = Some (atom, Some pdos) ->
  (length labels <= k)%nat ->
  analyze_pdos_contributions energy pdos_data labels = Raise IndexError.
Proof.
  intros Hf Hpos Hgrid Hk Hlen. unfold analyze_pdos_contributions.
  apply analyze_items_label_out_of_range.
  - exact (curves_on_grid_analyzable energy pdos_data f Hf Hpos Hgrid).
  - exists k, atom, pdos. split; [exact Hk | simpl; exact Hlen].
Qed.

Lemma pdos_analysis_needs_a_label_per_position_witness :
  fermi_index peak_energy 2 /\ (0 < 2)%nat /\
  (forall a p,
      In (a, Some p) [("W"%string, None); ("Se"%string, Some peak_pdos)] ->
      length peak_energy = length p) /\
  nth_error [("W"%string, @None (list Q)); ("Se"%string, Some peak_pdos)] 1
  = Some ("Se"%string, Some peak_pdos) /\
  (length ["Se"%string] <= 1)%nat /\
  analyze_pdos_contributions peak_energy
    [("W"%string, None); ("Se"%string, Some peak_pdos)] ["Se"%string]
  = Raise IndexError.
Proof.
  assert (Hpos : (0 < 2)%nat) by lia.
  assert (Hgrid : forall a p,
             In (a, Some p) [("W"%string, None); ("Se"%string, Some peak_pdos)] ->
             length peak_energy = length p).
  { intros a p [H | [H | []]]; [discriminate H |].
    injection H as _ <-. reflexivity. }
  assert (Hk : nth_error [("W"%string, @None (list Q)); ("Se"%string, Some peak_pdos)] 1
               = Some ("Se"%string, Some peak_pdos)) by reflexivity.
  assert (Hlen : (length ["Se"%string] <= 1)%nat) by (simpl; lia).
  split; [exact peak_energy_fermi_index | split; [exact Hpos | split; [exact Hgrid |
    split; [exact Hk | split; [exact Hlen |]]]]].
  exact (pdos_analysis_needs_a_label_per_position peak_energy _ ["Se"%string]
           2%nat 1%nat "Se"%string peak_pdos
           peak_energy_fermi_index Hpos Hgrid Hk Hlen).
Defined.

End PdosScript.

Section PdosMain.
Import qe_pdos_analysis.

(** X18.  In exact arithmetic, for a non-negative PDOS on a
    non-decreasing energy grid with a point on each side of the Fermi
    index, the reported total contribution never exceeds the trapezoidal
    integral of the whole curve.  In float64 the two are rounded sums of
    different lengths and the total can exceed the integral by a unit in
    the last place, as on [rounded_energy], [rounded_pdos]. *)
Theorem pdos_total_at_most_whole_integral
        (energy pdos : list Q) (atom label : string) (f : nat) :
  length energy = length pdos -> fermi_index energy f -> (0 < f)%nat ->
  (forall i, (S i < length energy)%nat ->
             at_index energy i <= at_index energy (S i)) ->
  (forall i, (i < length pdos)%nat -> 0 <= at_index pdos i) ->
  exists r whole,
    analyze_pdos_contributions energy [(atom, Some pdos)] [label]
    = Ok [(label, r)] /\
    np.trapz pdos energy = Ok whole /\
    total_contribution r <= whole.
Proof.
  intros Hlen Hf Hpos Hsorted Hnonneg.
  assert (Hlt : (f < length energy)%nat) by (destruct Hf as (? & _); lia).
  destruct (analyze_atom_spec energy pdos f Hlen Hf Hpos)
    as (r & v & c & Hr & Hv & Hc & Ht & _).
  destruct (trapz_is_trapezoid_sum pdos energy Hlen) as (whole & Hw & Hweq).
  exists r, whole. rewrite analyze_single_curve, Hr. simpl.
  split; [reflexivity | split; [exact Hw |]].
  set (T := trapezoid (at_index energy) (at_index pdos)) in *.
  assert (Hsplit : whole == range_sum 0 (f - 1) T + T (f - 1)%nat
                            + range_sum f (length energy - f - 1) T).
  { rewrite Hweq. unfold trapezoid_sum. fold T.
    replace (length energy - 1)%nat
      with ((f - 1) + (1 + (length energy - f - 1)))%nat by lia.
    rewrite range_sum_app, range_sum_app. cbn [range_sum Nat.add].
    replace (f - 1 + 1)%nat with f by lia. ring. }
  assert (Hseg : 0 <= T (f - 1)%nat).
  { unfold T, trapezoid. replace (S (f - 1)) with f by lia.
    pose proof (Hsorted (f - 1)%nat ltac:(lia)) as Hstep.
    replace (S (f - 1)) with f in Hstep by lia.
    pose proof (Hnonneg (f - 1)%nat ltac:(lia)) as Hp0.
    pose proof (Hnonneg f ltac:(lia)) as Hp1.
    apply Qle_shift_div_l; [reflexivity |]. rewrite Qmult_0_l.
    apply Qmult_le_0_compat; lra. }
  rewrite Ht, Hv, Hc, Hsplit. lra.
Qed.

Lemma pdos_total_at_most_whole_integral_witness :
  length peak_energy = length peak_pdos /\ fermi_index peak_energy 2 /\
  (0 < 2)%nat /\
  (forall i, (S i < length peak_energy)%nat ->
             at_index peak_energy i <= at_index peak_energy (S i)) /\
  (forall i, (i < length peak_pdos)%nat -> 0 <= at_index peak_pdos i) /\
  exists r whole,
    analyze_pdos_contributions peak_energy [("V"%string, Some peak_pdos)]
      ["V"%string]
    = Ok [("V"%string, r)] /\
    np.trapz peak_pdos peak_energy = Ok whole /\
    total_contribution r <= whole.
Proof.
  assert (Hlen : length peak_energy = length peak_pdos) by reflexivity.
  assert (Hpos : (0 < 2)%nat) by lia.
  assert (Hsorted : forall i, (S i < length peak_energy)%nat ->
             at_index peak_energy i <= at_index peak_energy (S i)).
  { intros i Hi. simpl in Hi.
    destruct i as [| [| [| [| i]]]]; [vm_compute; discriminate .. | lia]. }
  assert (Hnonneg : forall i, (i < length peak_pdos)%nat ->
             0 <= at_index peak_pdos i).
  { intros i Hi. simpl in Hi.
    destruct i as [| [| [| [| [| i]]]]]; [vm_compute; discriminate .. | lia]. }
  split; [exact Hlen | split; [exact peak_energy_fermi_index | split; [exact Hpos |
    split; [exact Hsorted | split; [exact Hnonneg |]]]]].
  exact (pdos_total_at_most_whole_integral peak_energy peak_pdos
           "V"%string "V"%string 2%nat
           Hlen peak_energy_fermi_index Hpos Hsorted Hnonneg).
Defined.

(** The guarded loader never raises and only prints. *)
Lemma data_loader_returns (path : string) (w : world) :
  exists loaded w',
    data_loader path w = (Ok loaded, w') /\ files w' = files w.
Proof.
  unfold data_loader, try_except2, bind, np.loadtxt, lift, ret, print.
  destruct (files w path) as [| | data]; try (eexists _, _; split; reflexivity).
  destruct (np.column data 0) as [e | err].
  - destruct (np.column data 1) as [p | err].
    + eexists _, _; split; reflexivity.
    + destruct err; eexists _, _; split; reflexivity.
  - destruct err; eexists _, _; split; reflexivity.
Qed.

Lemma data_loader_missing (path : string) (w : world) :
  files w path = Absent ->
  data_loader path w
  = (Ok (None, None), printed w [Text ("Warning: File " ++ path ++ " not found")]).
Proof.
  intros H. unfold data_loader, try_except2, bind, np.loadtxt. now rewrite H.
Qed.

(** A loader that found nothing leaves [energy] as it was. *)
Lemma data_loader_unreadable_result (path : string) (w : world) :
  unreadable w path ->
  exists w', data_loader path w = (Ok (None, None), w') /\ files w' = files w.
Proof.
  intros H. unfold data_loader, try_except2, bind, np.loadtxt.
  destruct H as [H | H]; rewrite H; eexists; split; reflexivity.
Qed.

(** One turn of the loading loop. *)
Lemma load_atoms_step (atom fname : string) (rest : list (string * string))
      (energy : option (list Q)) (pdos_data : list (string * option (list Q)))
      (w : world) :
  load_atoms ((atom, fname) :: rest) energy pdos_data w =
  match data_loader fname
          (printed w [Text ("  Loading " ++ atom ++ " data from " ++ fname)]) with
  | (Ok (Some e, pdos), w') =>
      load_atoms rest (Some e) (dict_set pdos_data atom pdos) w'
  | (Ok (None, _), w') => load_atoms rest energy (dict_set pdos_data atom None) w'
  | (Raise e, w') => (Raise e, w')
  end.
Proof.
  simpl load_atoms. unfold bind, print, printed.
  destruct (data_loader fname _) as [[[[e |] p] | err] w']; reflexivity.
Qed.

Lemma load_atoms_unreadable_tail :
  forall (entries : list (string * string)) (energy : option (list Q))
         (pdos_data : list (string * option (list Q))) (w : world),
    (forall atom fname, In (atom, fname) entries -> unreadable w fname) ->
    exists pdos_data' w',
      load_atoms entries energy pdos_data w = (Ok (energy, pdos_data'), w').
Proof.
  induction entries as [| [atom fname] rest IH]; intros energy pdos_data w Hun.
  - eexists _, _. reflexivity.
  - rewrite load_atoms_step.
    destruct (data_loader_unreadable_result fname
                (printed w [Text ("  Loading " ++ atom ++ " data from " ++ fname)]))
      as (w1 & Hload & Hfiles).
    { apply (Hun atom fname). now left. }
    rewrite Hload. apply IH. intros a f Hin. unfold unreadable.
    rewrite Hfiles. apply (Hun a f). now right.
Qed.

(** X19.  The loading loop keeps the energy grid of the last readable
    file, not of the first: whatever was loaded before, once a file that
    parses to a table of two or more columns has been read and every
    later file is unreadable, [energy] is column 0 of that file. *)
Theorem pdos_energy_grid_is_from_last_readable_file
        (before after : list (string * string)) (atom fname : string)
        (a : ndarray2) (energy0 : option (list Q))
        (pdos_data0 : list (string * option (list Q))) (w : world) :
  files w fname = Table (Array2 a) -> (1 < ncols a)%nat ->
  (forall atom' fname', In (atom', fname') after -> unreadable w fname') ->
  exists pdos_data w',
    load_atoms (before ++ (atom, fname) :: after) energy0 pdos_data0 w
    = (Ok (Some (map (fun r => nth 0 r 0) (rows a)), pdos_data), w').
Proof.
  intros Hfile Hc Hafter. revert energy0 pdos_data0 w Hfile Hafter.
  induction before as [| [atom0 fname0] before IH];
    intros energy0 pdos_data0 w Hfile Hafter.
  - simpl app. rewrite load_atoms_step.
    rewrite (pdos_data_loader_table _ fname a) by (try exact Hfile; exact Hc).
    apply load_atoms_unreadable_tail. exact Hafter.
  - simpl app. rewrite load_atoms_step.
    destruct (data_loader_returns fname0
                (printed w [Text ("  Loading " ++ atom0 ++ " data from " ++ fname0)]))
      as (loaded & w1 & Hload & Hfiles).
    rewrite Hload. cbn [files printed] in Hfiles.
    destruct loaded as [[e |] p]; apply IH;
      try (rewrite Hfiles; exact Hfile);
      intros a' f' Hin; unfold unreadable; rewrite Hfiles; apply (Hafter a' f' Hin).
Qed.

Lemma pdos_energy_grid_is_from_last_readable_file_witness :
  files pdos_world "atom_Se_tot.dat" = Table (Array2 shifted_table) /\
  (1 < ncols shifted_table)%nat /\
  (forall atom' fname',
      In (atom', fname') [("S", "atom_S_tot.dat"); ("V", "atom_V_tot.dat")]%string ->
      unreadable pdos_world fname') /\
  exists pdos_data w',
    load_atoms atom_files None [] pdos_world
    = (Ok (Some [0.1; 0.6; 1.1], pdos_data), w').
Proof.
  assert (Hfile : files pdos_world "atom_Se_tot.dat" = Table (Array2 shifted_table))
    by reflexivity.
  assert (Hc : (1 < ncols shifted_table)%nat) by (simpl; lia).
  assert (Hafter : forall atom' fname',
             In (atom', fname')
                [("S", "atom_S_tot.dat"); ("V", "atom_V_tot.dat")]%string ->
             unreadable pdos_world fname').
  { intros a f [H | [H | []]]; injection H as <- <-; left; reflexivity. }
  split; [exact Hfile | split; [exact Hc | split; [exact Hafter |]]].
  exact (pdos_energy_grid_is_from_last_readable_file
           [("W", "atom_W_tot.dat")]%string
           [("S", "atom_S_tot.dat"); ("V", "atom_V_tot.dat")]%string
           "Se"%string "atom_Se_tot.dat"%string shifted_table None [] pdos_world
           Hfile Hc Hafter).
Defined.

(** X20.  Run where none of the four PDOS files exists, the script prints
    its two header lines, a loading line and a warning per atom and
    "Error: No valid PDOS data found!", then returns normally: nothing is
    plotted, saved, analysed or written. *)
Theorem pdos_main_without_any_file
        (create_pdos_plot :
           list Q -> list (string * option (list Q)) -> list string ->
           list string -> string -> M unit)
        (savefig : string -> M unit)
        (write_report : list (string * contributions) -> M unit) (w : world) :
  files w "atom_W_tot.dat" = Absent -> files w "atom_Se_tot.dat" = Absent ->
  files w "atom_S_tot.dat" = Absent -> files w "atom_V_tot.dat" = Absent ->
  main create_pdos_plot savefig write_report w
  = (Ok tt,
     printed w
       [Text "=== Enhanced PDOS Analysis ===";
        Text "Loading PDOS data...";
        Text "  Loading W data from atom_W_tot.dat";
        Text "Warning: File atom_W_tot.dat not found";
        Text "  Loading Se data from atom_Se_tot.dat";
        Text "Warning: File atom_Se_tot.dat not found";
        Text "  Loading S data from atom_S_tot.dat";
        Text "Warning: File atom_S_tot.dat not found";
        Text "  Loading V data from atom_V_tot.dat";
        Text "Warning: File atom_V_tot.dat not found";
        Text "Error: No valid PDOS data found!"]).
Proof.
  intros HW HSe HS HV.
  unfold main, atom_files, bind at 1 2 3. cbn [print].
  rewrite load_atoms_step, data_loader_missing by exact HW.
  rewrite load_atoms_step, data_loader_missing by exact HSe.
  rewrite load_atoms_step, data_loader_missing by exact HS.
  rewrite load_atoms_step, data_loader_missing by exact HV.
  unfold load_atoms, ret, print, printed. cbn [files stdout].
  repeat rewrite <- app_assoc. reflexivity.
Qed.

Lemma pdos_main_without_any_file_witness :
  files empty_world "atom_W_tot.dat" = Absent /\
  files empty_world "atom_Se_tot.dat" = Absent /\
  files empty_world "atom_S_tot.dat" = Absent /\
  files empty_world "atom_V_tot.dat" = Absent /\
  main (fun _ _ _ _ _ => raise ValueError) (fun _ => raise ValueError)
       (fun _ => raise ValueError) empty_world
  = (Ok tt,
     printed empty_world
       [Text "=== Enhanced PDOS Analysis ===";
        Text "Loading PDOS data...";
        Text "  Loading W data from atom_W_tot.dat";
        Text "Warning: File atom_W_tot.dat not found";
        Text "  Loading Se data from atom_Se_tot.dat";
        Text "Warning: File atom_Se_tot.dat not found";
        Text "  Loading S data from atom_S_tot.dat";
        Text "Warning: File atom_S_tot.dat not found";
        Text "  Loading V data from atom_V_tot.dat";
        Text "Warning: File atom_V_tot.dat not found";
        Text "Error: No valid PDOS data found!"]).
Proof.
  assert (H : forall p, files empty_world p = Absent) by reflexivity.
  split; [exact (H _) | split; [exact (H _) | split; [exact (H _) |
    split; [exact (H _) |]]]].
  exact (pdos_main_without_any_file
           (fun _ _ _ _ _ => raise ValueError) (fun _ => raise ValueError)
           (fun _ => raise ValueError) empty_world (H _) (H _) (H _) (H _)).
Defined.

End PdosMain.

(** ** More on the SOC script *)

Section SocScript.
Import qe_soc_analysis.

Lemma abs_difference_symmetric (a b : Q) : Qabs (a - b) == Qabs (b - a).
Proof.
  assert (E : a - b == - (b - a)) by ring. rewrite E. apply Qabs_opp.
Qed.

(** X21.  The order of the two arguments does not matter: on two non-empty
    arrays of one shape, comparing A with B and B with A report the same
    average and the same maximum splitting. *)
Theorem differencer_is_symmetric (A B : ndarray2) (w : world) :
  np.nrows A = np.nrows B -> ncols A = ncols B ->
  (0 < np.nrows A)%nat -> (0 < ncols A)%nat ->
  exists avg mx avg' mx',
    fst (compare_with_without_soc (Some A) (Some B) w)
    = Ok (Some (Finite avg, mx)) /\
    fst (compare_with_without_soc (Some B) (Some A) w)
    = Ok (Some (Finite avg', mx')) /\
    avg == avg' /\ mx == mx'.
Proof.
  intros Hr Hc HR HC.
  destruct (compare_same_shape A B w Hr Hc HR HC)
    as (avg & mx & Hrun & Havg & (i & j & Hi & Hj & Hmx) & Hub).
  destruct (compare_same_shape B A w (eq_sym Hr) (eq_sym Hc)
              ltac:(rewrite <- Hr; exact HR) ltac:(rewrite <- Hc; exact HC))
    as (avg' & mx' & Hrun' & Havg' & (i' & j' & Hi' & Hj' & Hmx') & Hub').
  exists avg, mx, avg', mx'. rewrite Hrun, Hrun'.
  split; [reflexivity | split; [reflexivity | split]].
  - rewrite Havg, Havg', <- Hr, <- Hc. apply Qdiv_comp; [| reflexivity].
    unfold abs_difference_sum. apply range_sum_ext. intros a _.
    apply range_sum_ext. intros b _. apply abs_difference_symmetric.
  - apply Qle_antisym.
    + rewrite Hmx, abs_difference_symmetric. apply Hub'; congruence.
    + rewrite Hmx', abs_difference_symmetric. apply Hub; congruence.
Qed.

Lemma differencer_is_symmetric_witness :
  np.nrows soc_sample = np.nrows no_soc_sample /\
  ncols soc_sample = ncols no_soc_sample /\
  (0 < np.nrows soc_sample)%nat /\ (0 < ncols soc_sample)%nat /\
  exists avg mx avg' mx',
    fst (compare_with_without_soc (Some soc_sample) (Some no_soc_sample) empty_world)
    = Ok (Some (Finite avg, mx)) /\
    fst (compare_with_without_soc (Some no_soc_sample) (Some soc_sample) empty_world)
    = Ok (Some (Finite avg', mx')) /\
    avg == avg' /\ mx == mx'.
Proof.
  assert (Hr : np.nrows soc_sample = np.nrows no_soc_sample) by reflexivity.
  assert (Hc : ncols soc_sample = ncols no_soc_sample) by reflexivity.
  assert (HR : (0 < np.nrows soc_sample)%nat) by (unfold np.nrows; simpl; lia).
  assert (HC : (0 < ncols soc_sample)%nat) by (simpl; lia).
  split; [exact Hr | split; [exact Hc | split; [exact HR | split; [exact HC |]]]].
  exact (differencer_is_symmetric soc_sample no_soc_sample empty_world Hr Hc HR HC).
Defined.

Lemma inject_nat_succ (n : nat) :
  inject_Z (Z.of_nat (S n)) == 1 + inject_Z (Z.of_nat n).
Proof. rewrite Nat2Z.inj_succ, <- Z.add_1_l, inject_Z_plus. reflexivity. Qed.

(** A sum of [n] terms lying between [lo] and [hi]. *)
Lemma range_sum_between (f : nat -> Q) (lo hi : Q) : forall n start,
  (forall i, (start <= i < start + n)%nat -> lo <= f i <= hi) ->
  inject_Z (Z.of_nat n) * lo <= range_sum start n f /\
  range_sum start n f <= inject_Z (Z.of_nat n) * hi.
Proof.
  induction n as [| n IH]; intros start H.
  - cbn [range_sum]. change (inject_Z (Z.of_nat 0)) with 0. split; lra.
  - destruct (IH (S start)) as [Hl Hh]; [intros i Hi; apply H; lia |].
    destruct (H start ltac:(lia)) as [Hl0 Hh0].
    cbn [range_sum]. rewrite inject_nat_succ. split; lra.
Qed.

(** X22.  In exact arithmetic, on two non-empty arrays of one shape the
    reported average splitting is never negative and never exceeds the
    reported maximum splitting.  In float64 the rounded mean can exceed
    the maximum by a unit in the last place. *)
Theorem differencer_average_at_most_maximum (A B : ndarray2) (w : world) :
  np.nrows A = np.nrows B -> ncols A = ncols B ->
  (0 < np.nrows A)%nat -> (0 < ncols A)%nat ->
  exists avg mx,
    fst (compare_with_without_soc (Some A) (Some B) w)
    = Ok (Some (Finite avg, mx)) /\
    0 <= avg /\ avg <= mx.
Proof.
  intros Hr Hc HR HC.
  destruct (compare_same_shape A B w Hr Hc HR HC)
    as (avg & mx & Hrun & Havg & _ & Hub).
  exists avg, mx. rewrite Hrun. split; [reflexivity |].
  set (R := np.nrows A) in *. set (C := ncols A) in *.
  set (h := fun i j => Qabs (np.get A i j - np.get B i j)).
  assert (Hrow : forall i, (0 <= i < 0 + R)%nat ->
            inject_Z (Z.of_nat C) * 0 <= range_sum 0 C (h i) <=
            inject_Z (Z.of_nat C) * mx).
  { intros i Hi. apply range_sum_between. intros j Hj. split.
    - apply Qabs_nonneg.
    - apply Hub; lia. }
  destruct (range_sum_between (fun i => range_sum 0 C (h i))
              (inject_Z (Z.of_nat C) * 0) (inject_Z (Z.of_nat C) * mx) R 0 Hrow)
    as [Hlow Hhigh].
  rewrite !Qmult_0_r in Hlow.
  assert (HN : mx * inject_Z (Z.of_nat (R * C))
               == inject_Z (Z.of_nat R) * (inject_Z (Z.of_nat C) * mx))
    by (rewrite Nat2Z.inj_mul, inject_Z_mult; ring).
  assert (HNpos : 0 < inject_Z (Z.of_nat (R * C))).
  { unfold Qlt. simpl. nia. }
  rewrite Havg. split.
  - apply Qle_shift_div_l; [exact HNpos |]. rewrite Qmult_0_l. exact Hlow.
  - apply Qle_shift_div_r; [exact HNpos |]. rewrite HN. exact Hhigh.
Qed.

Lemma differencer_average_at_most_maximum_witness :
  np.nrows soc_sample = np.nrows no_soc_sample /\
  ncols soc_sample = ncols no_soc_sample /\
  (0 < np.nrows soc_sample)%nat /\ (0 < ncols soc_sample)%nat /\
  exists avg mx,
    fst (compare_with_without_soc (Some soc_sample) (Some no_soc_sample) empty_world)
    = Ok (Some (Finite avg, mx)) /\
    0 <= avg /\ avg <= mx.
Proof.
  assert (Hr : np.nrows soc_sample = np.nrows no_soc_sample) by reflexivity.
  assert (Hc : ncols soc_sample = ncols no_soc_sample) by reflexivity.
  assert (HR : (0 < np.nrows soc_sample)%nat) by (unfold np.nrows; simpl; lia).
  assert (HC : (0 < ncols soc_sample)%nat) by (simpl; lia).
  split; [exact Hr | split; [exact Hc | split; [exact HR | split; [exact HC |]]]].
  exact (differencer_average_at_most_maximum
           soc_sample no_soc_sample empty_world Hr Hc HR HC).
Defined.

(** X23.  Band tables whose column counts differ, neither being 1 (or
    whose row counts differ, neither being 1), cannot be subtracted: the
    differencer raises ValueError and prints nothing. *)
Theorem differencer_rejects_incompatible_shapes (A B : ndarray2) (w : world) :
  (ncols A <> ncols B /\ ncols A <> 1%nat /\ ncols B <> 1%nat) \/
  (np.nrows A <> np.nrows B /\ np.nrows A <> 1%nat /\ np.nrows B <> 1%nat) ->
  compare_with_without_soc (Some A) (Some B) w = (Raise ValueError, w).
Proof.
  intros H.
  assert (Hnone : forall m n, m <> n -> m <> 1%nat -> n <> 1%nat ->
                              np.broadcast_dim m n = None).
  { intros m n H1 H2 H3. unfold np.broadcast_dim.
    destruct (Nat.eqb_spec m n); [contradiction |].
    destruct (Nat.eqb_spec m 1); [contradiction |].
    destruct (Nat.eqb_spec n 1); [contradiction | reflexivity]. }
  unfold compare_with_without_soc, bind, lift, np.subtract.
  destruct H as [(H1 & H2 & H3) | (H1 & H2 & H3)].
  - rewrite (Hnone _ _ H1 H2 H3).
    now destruct (np.broadcast_dim (np.nrows A) (np.nrows B)).
  - now rewrite (Hnone _ _ H1 H2 H3).
Qed.

Lemma differencer_rejects_incompatible_shapes_witness :
  ((ncols three_bands <> ncols soc_sample /\ ncols three_bands <> 1%nat /\
    ncols soc_sample <> 1%nat) \/
   (np.nrows three_bands <> np.nrows soc_sample /\ np.nrows three_bands <> 1%nat /\
    np.nrows soc_sample <> 1%nat)) /\
  compare_with_without_soc (Some three_bands) (Some soc_sample) empty_world
  = (Raise ValueError, empty_world).
Proof.
  assert (H : (ncols three_bands <> ncols soc_sample /\ ncols three_bands <> 1%nat /\
               ncols soc_sample <> 1%nat) \/
              (np.nrows three_bands <> np.nrows soc_sample /\
               np.nrows three_bands <> 1%nat /\ np.nrows soc_sample <> 1%nat))
    by (left; simpl; repeat split; discriminate).
  split; [exact H |].
  exact (differencer_rejects_incompatible_shapes three_bands soc_sample empty_world H).
Defined.

(** X24.  A reference table with a single band is not rejected: its one
    column is stretched across all the bands of the other table, so the
    difference at (i, j) is A[i][j] - B[i][0], and the differencer reports
    an average and a maximum without any error. *)
Theorem differencer_stretches_a_single_band (A B : ndarray2) (w : world) :
  np.nrows A = np.nrows B -> ncols B = 1%nat ->
  (0 < np.nrows A)%nat -> (0 < ncols A)%nat ->
  exists diff avg mx,
    np.subtract A B = Ok diff /\
    ncols diff = ncols A /\
    (forall i j, (i < np.nrows A)%nat -> (j < ncols A)%nat ->
                 entry diff i j = Some (np.get A i j - np.get B i 0)) /\
    fst (compare_with_without_soc (Some A) (Some B) w)
    = Ok (Some (Finite avg, mx)).
Proof.
  intros Hr Hc HR HC.
  set (R := np.nrows A) in *. set (C := ncols A) in *.
  assert (Hdim : np.broadcast_dim C 1 = Some C).
  { unfold np.broadcast_dim. destruct (Nat.eqb_spec C 1) as [-> |]; reflexivity. }
  assert (Hsub : np.subtract A B
                 = Ok {| ncols := C;
                         rows := grid R C (fun i j => np.get A i j - np.get B i 0) |}).
  { unfold np.subtract. fold R C. rewrite <- Hr, Hc, broadcast_dim_same, Hdim.
    do 2 f_equal. apply grid_ext. intros i j Hi Hj.
    rewrite !bidx_in_range by assumption. reflexivity. }
  set (h := fun i j => Qabs (np.get A i j - np.get B i 0)).
  set (cells := concat (grid R C h)).
  assert (Hsize : length cells = (R * C)%nat) by apply length_grid.
  assert (Hne : cells <> []).
  { intros E. rewrite E in Hsize. simpl in Hsize. nia. }
  destruct (max1_spec cells Hne) as (mx & Hmx & _).
  assert (Hnz : ~ inject_Z (Z.of_nat (R * C)) == 0).
  { unfold Qeq. simpl. nia. }
  eexists _, (np.sum cells / inject_Z (Z.of_nat (R * C))), mx.
  split; [exact Hsub | split; [reflexivity | split]].
  - intros i j Hi Hj. now apply entry_grid.
  - unfold compare_with_without_soc, bind, lift, print, ret.
    rewrite Hsub, abs2_grid.
    unfold np.mean, np.max, np.size, np.ravel. cbn [rows].
    fold h. fold cells. rewrite Hsize, Hmx.
    rewrite (true_divide_nonzero _ _ Hnz). reflexivity.
Qed.

Lemma differencer_stretches_a_single_band_witness :
  np.nrows soc_sample = np.nrows reference_column /\
  ncols reference_column = 1%nat /\
  (0 < np.nrows soc_sample)%nat /\ (0 < ncols soc_sample)%nat /\
  exists diff avg mx,
    np.subtract soc_sample reference_column = Ok diff /\
    ncols diff = ncols soc_sample /\
    (forall i j, (i < np.nrows soc_sample)%nat -> (j < ncols soc_sample)%nat ->
                 entry diff i j
                 = Some (np.get soc_sample i j - np.get reference_column i 0)) /\
    fst (compare_with_without_soc (Some soc_sample) (Some reference_column)
           empty_world)
    = Ok (Some (Finite avg, mx)).
Proof.
  assert (Hr : np.nrows soc_sample = np.nrows reference_column) by reflexivity.
  assert (Hc : ncols reference_column = 1%nat) by reflexivity.
  assert (HR : (0 < np.nrows soc_sample)%nat) by (unfold np.nrows; simpl; lia).
  assert (HC : (0 < ncols soc_sample)%nat) by (simpl; lia).
  split; [exact Hr | split; [exact Hc | split; [exact HR | split; [exact HC |]]]].
  exact (differencer_stretches_a_single_band
           soc_sample reference_column empty_world Hr Hc HR HC).
Defined.

(** X25.  With a soc_bands.dat that parses to a table and an unreadable
    bands.dat, the SOC script compares and plots nothing: it prints its
    header, the error line for bands.dat and its closing line, and ends
    normally. *)
Theorem soc_script_skips_without_reference
        (plot : list Q -> ndarray2 -> ndarray2 -> string -> M unit)
        (w : world) (a : ndarray2) :
  files w "soc_bands.dat" = Table (Array2 a) -> (0 < ncols a)%nat ->
  unreadable w "bands.dat" ->
  analyze_soc_effects plot w
  = (Ok tt,
     printed w
       [Text "=== Spin-Orbit Coupling Analysis ===";
        Text "Error reading SOC energies file: bands.dat";
        Text "SOC analysis completed!"]).
Proof.
  intros Hfile Hc Hun.
  unfold analyze_soc_effects, bind. cbn [print].
  rewrite (read_soc_energies_table _ "soc_bands.dat" a) by (try exact Hfile; exact Hc).
  rewrite read_soc_energies_unreadable by exact Hun.
  unfold printed, ret, print. simpl. repeat rewrite <- app_assoc. reflexivity.
Qed.

Lemma soc_script_skips_without_reference_witness :
  files (world_with "soc_bands.dat" (Table (Array2 small_table))) "soc_bands.dat"
  = Table (Array2 small_table) /\
  (0 < ncols small_table)%nat /\
  unreadable (world_with "soc_bands.dat" (Table (Array2 small_table))) "bands.dat" /\
  analyze_soc_effects (fun _ _ _ _ => raise ValueError)
    (world_with "soc_bands.dat" (Table (Array2 small_table)))
  = (Ok tt,
     printed (world_with "soc_bands.dat" (Table (Array2 small_table)))
       [Text "=== Spin-Orbit Coupling Analysis ===";
        Text "Error reading SOC energies file: bands.dat";
        Text "SOC analysis completed!"]).
Proof.
  assert (Hfile : files (world_with "soc_bands.dat" (Table (Array2 small_table)))
                    "soc_bands.dat" = Table (Array2 small_table)) by reflexivity.
  assert (Hc : (0 < ncols small_table)%nat) by (simpl; lia).
  assert (Hun : unreadable (world_with "soc_bands.dat" (Table (Array2 small_table)))
                  "bands.dat") by (left; reflexivity).
  split; [exact Hfile | split; [exact Hc | split; [exact Hun |]]].
  exact (soc_script_skips_without_reference (fun _ _ _ _ => raise ValueError)
           _ small_table Hfile Hc Hun).
Defined.

End SocScript.

(** ** The combined figure *)

Section CombinedFigure.
Import qe_comprehensive_analysis.

(** X26.  A panel of the combined figure is drawn as "not available"
    whenever the two-name unpacking of np.loadtxt(..., unpack=True) cannot
    succeed: for an unreadable file, for a 2-D table of three columns or
    more (a bands.dat with two bands or more, say) and for a 1-D array
    whose length is not two.  A 2-D table of two columns and a 1-D array
    of two numbers (what a file of one column and two rows parses to) are
    unpacked and handed to the plot; the panel is then "not available"
    only if the plot raises. *)
Theorem combined_panel_unavailable_unless_two_names
        (draw_curve : nat -> plotted -> plotted -> M unit)
        (draw_unavailable : nat -> M unit)
        (n : nat) (fname : string) (w : world) :
  ((unreadable w fname \/
    (exists a, files w fname = Table (Array2 a) /\
               loadtxt_shaped a /\ (3 <= ncols a)%nat) \/
    (exists v, files w fname = Table (Array1 v) /\ length v <> 2%nat)) ->
   panel draw_curve draw_unavailable n fname w = draw_unavailable n w) /\
  (forall a,
      files w fname = Table (Array2 a) ->
      loadtxt_shaped a -> ncols a = 2%nat ->
      panel draw_curve draw_unavailable n fname w
      = try_except
          (draw_curve n (Vector (map (fun r => nth 0 r 0) (rows a)))
                        (Vector (map (fun r => nth 1 r 0) (rows a))))
          (draw_unavailable n) w) /\
  (forall p q,
      files w fname = Table (Array1 [p; q]) ->
      panel draw_curve draw_unavailable n fname w
      = try_except (draw_curve n (Scalar p) (Scalar q)) (draw_unavailable n) w).
Proof.
  split; [| split].
  - intros H. unfold panel, try_except, bind, np.loadtxt, lift.
    destruct H as [[H | H] | [(a & H & _ & Hc) | (v & H & Hv)]];
      rewrite H; try reflexivity.
    + unfold unpack_two.
      destruct (Nat.eqb_spec (ncols a) 2); [lia | reflexivity].
    + destruct v as [| p [| q [| r v]]]; simpl in Hv; try reflexivity.
      congruence.
  - intros a H _ Hc. unfold panel, try_except, bind, np.loadtxt, lift.
    rewrite H. unfold unpack_two. rewrite Hc. reflexivity.
  - intros p q H. unfold panel, try_except, bind, np.loadtxt, lift.
    rewrite H. reflexivity.
Qed.

Lemma combined_panel_unavailable_unless_two_names_witness :
  ((unreadable (world_with "bands.dat" (Table (Array2 small_table))) "bands.dat" \/
    (exists a, files (world_with "bands.dat" (Table (Array2 small_table)))
                 "bands.dat" = Table (Array2 a) /\
               loadtxt_shaped a /\ (3 <= ncols a)%nat) \/
    (exists v, files (world_with "bands.dat" (Table (Array2 small_table)))
                 "bands.dat" = Table (Array1 v) /\ length v <> 2%nat)) /\
   panel (fun _ _ _ => ret tt) (fun _ => print (Text "not available")) 0 "bands.dat"
     (world_with "bands.dat" (Table (Array2 small_table)))
   = print (Text "not available")
       (world_with "bands.dat" (Table (Array2 small_table)))) /\
  (files (world_with "dos.dat" (Table two_numbers)) "dos.dat"
   = Table (Array1 [0.5; 1.5]) /\
   panel (fun _ _ _ => print (Text "curve"))
     (fun _ => print (Text "not available")) 1 "dos.dat"
     (world_with "dos.dat" (Table two_numbers))
   = try_except (print (Text "curve")) (print (Text "not available"))
       (world_with "dos.dat" (Table two_numbers))).
Proof.
  assert (H : unreadable (world_with "bands.dat" (Table (Array2 small_table)))
                "bands.dat" \/
              (exists a, files (world_with "bands.dat" (Table (Array2 small_table)))
                           "bands.dat" = Table (Array2 a) /\
                         loadtxt_shaped a /\ (3 <= ncols a)%nat) \/
              (exists v, files (world_with "bands.dat" (Table (Array2 small_table)))
                           "bands.dat" = Table (Array1 v) /\ length v <> 2%nat)).
  { right. left. exists small_table. split; [reflexivity |].
    split; [| simpl; lia].
    split; [repeat constructor | simpl; lia]. }
  assert (H2 : files (world_with "dos.dat" (Table two_numbers)) "dos.dat"
               = Table (Array1 [0.5; 1.5])) by reflexivity.
  split.
  - split; [exact H |].
    exact (proj1 (combined_panel_unavailable_unless_two_names
                    (fun _ _ _ => ret tt) (fun _ => print (Text "not available"))
                    0%nat "bands.dat"%string _) H).
  - split; [exact H2 |].
    exact (proj2 (proj2 (combined_panel_unavailable_unless_two_names
                           (fun _ _ _ => print (Text "curve"))
                           (fun _ => print (Text "not available"))
                           1%nat "dos.dat"%string _)) 0.5 1.5 H2).
Defined.

End CombinedFigure.
